(** * Flight-phase battery analysis: a shallow embedding

    The development follows [backend/battery_analysis.py] (function
    [process_ulog], the pipeline behind the upload endpoint) and
    [flight-assurance/src/app/components/process_ulog.py] (the stand-alone
    script the backend was derived from, which holds the named function
    [classify_phase] and its own copy of [consolidate_phases]).  The upload
    route of the backend and [scripts/extract_mobile_towers.py] take no part
    in the analysis and are not modelled.

    Where the two files differ (the filter on [time_delta], the divisor of
    the non-ground baseline, the scale of the charge, the summary record),
    the behaviour studied is the backend's, the pipeline that is served; the
    script's variants are kept in [Module Script] where a property touches
    them.

    Numbers.  Python floats are modelled by exact rationals [Q]: every
    finite computation is carried out without rounding.  The only places
    where the program can leave the finite numbers are its divisions, so
    the result of a division is an [FVal], a rational or one of the IEEE-754
    special values.  Signed zeros are not distinguished: the divisors of the
    program are durations, which are [+0.0] when they vanish.

    The report is the frame [df_phase] that [process_ulog] hands to
    [to_json], one record per row; an exception caught by the function's
    [except] clause is a run without a report. *)

From Stdlib Require Import ZArith QArith Qabs Qround Qpower List Bool String Lia Lqa.
From Stdlib Require Import Sorted Permutation.
Import ListNotations.

Set Implicit Arguments.
Open Scope Q_scope.

(* ================================================================== *)
(** ** Comparisons on rationals, as booleans *)

Definition Qltb (x y : Q) : bool := negb (Qle_bool y x).
Definition Qleb (x y : Q) : bool := Qle_bool x y.
Definition Qgtb (x y : Q) : bool := Qltb y x.
Definition Qgeb (x y : Q) : bool := Qleb y x.

Infix "<?" := Qltb (at level 70, no associativity) : Q_scope.
Infix "<=?" := Qleb (at level 70, no associativity) : Q_scope.
Infix ">?" := Qgtb (at level 70, no associativity) : Q_scope.
Infix ">=?" := Qgeb (at level 70, no associativity) : Q_scope.

(** [sum] of a column. *)
Definition Qsum (l : list Q) : Q := fold_right Qplus 0 l.

(* ================================================================== *)
(** ** Results of float division *)

Inductive FVal : Type :=
| Finite (q : Q)
| PosInf
| NegInf
| NaN.

Definition is_finite (v : FVal) : bool :=
  match v with Finite _ => true | _ => false end.

Definition is_nan (v : FVal) : bool :=
  match v with NaN => true | _ => false end.

(** Same float: rationals up to [==], special values as they are. *)
Definition feq (a b : FVal) : Prop :=
  match a, b with
  | Finite x, Finite y => x == y
  | PosInf, PosInf | NegInf, NegInf | NaN, NaN => True
  | _, _ => False
  end.

Definition fneg (v : FVal) : FVal :=
  match v with
  | Finite q => Finite (- q)
  | PosInf => NegInf
  | NegInf => PosInf
  | NaN => NaN
  end.

(** An infinity with the sign of [q], for [q] not zero. *)
Definition inf_signed (q : Q) : FVal := if 0 <? q then PosInf else NegInf.

(** [a / b] on numpy scalars: no exception, IEEE special values. *)
Definition fdiv (a b : FVal) : FVal :=
  match a, b with
  | NaN, _ | _, NaN => NaN
  | Finite x, Finite y =>
      if Qeq_bool y 0
      then (if Qeq_bool x 0 then NaN else inf_signed x)
      else Finite (x / y)
  | Finite _, (PosInf | NegInf) => Finite 0
  | (PosInf | NegInf), (PosInf | NegInf) => NaN
  | PosInf, Finite y => if y <? 0 then NegInf else PosInf
  | NegInf, Finite y => if y <? 0 then PosInf else NegInf
  end.

Definition fmul (a b : FVal) : FVal :=
  match a, b with
  | NaN, _ | _, NaN => NaN
  | Finite x, Finite y => Finite (x * y)
  | Finite x, PosInf | PosInf, Finite x =>
      if Qeq_bool x 0 then NaN else inf_signed x
  | Finite x, NegInf | NegInf, Finite x =>
      if Qeq_bool x 0 then NaN else fneg (inf_signed x)
  | PosInf, PosInf | NegInf, NegInf => PosInf
  | PosInf, NegInf | NegInf, PosInf => NaN
  end.

Definition fadd (a b : FVal) : FVal :=
  match a, b with
  | NaN, _ | _, NaN => NaN
  | Finite x, Finite y => Finite (x + y)
  | PosInf, NegInf | NegInf, PosInf => NaN
  | PosInf, _ | _, PosInf => PosInf
  | NegInf, _ | _, NegInf => NegInf
  end.

(** Round half to even to an integer ([numpy.rint]). *)
Definition rint (q : Q) : Z :=
  let f := Qfloor q in
  let r := q - inject_Z f in
  if r <? (1 # 2) then f
  else if (1 # 2) <? r then (f + 1)%Z
  else if Z.even f then f else (f + 1)%Z.

(** [round(x, 2)] on a numpy float: scale, [rint], scale back; the special
    values are returned as they are. *)
Definition round2 (v : FVal) : FVal :=
  match v with
  | Finite q => Finite (inject_Z (rint (q * 100)) / 100)
  | _ => v
  end.

(** pandas reductions skip NaN ([skipna]); a group-by [sum] of nothing is
    [0.0], a group-by [mean] of nothing is NaN. *)
Definition dropna (l : list FVal) : list FVal :=
  filter (fun v => negb (is_nan v)) l.

Definition fsum (l : list FVal) : FVal :=
  fold_left fadd (dropna l) (Finite 0).

Definition fmean (l : list FVal) : FVal :=
  match dropna l with
  | [] => NaN
  | vs => fdiv (fold_left fadd vs (Finite 0))
               (Finite (inject_Z (Z.of_nat (List.length vs))))
  end.

(* ================================================================== *)
(** ** Phase labels *)

Inductive Phase : Type :=
| Ground | Cruising | Descending | Climbing | Hovering | Unknown.

(** The strings the program uses for the labels. *)
Definition phase_name (p : Phase) : string :=
  match p with
  | Ground => "On the Ground"
  | Cruising => "Cruising"
  | Descending => "Descending"
  | Climbing => "Climbing"
  | Hovering => "Hovering"
  | Unknown => "Unknown"
  end.

Definition phase_eqb (a b : Phase) : bool :=
  match a, b with
  | Ground, Ground | Cruising, Cruising | Descending, Descending
  | Climbing, Climbing | Hovering, Hovering | Unknown, Unknown => true
  | _, _ => false
  end.

(* ================================================================== *)
(** ** Exceptions

    [process_ulog] runs inside [try ... except Exception as e: return str(e)]:
    a raised exception ends the run and no report is written. *)

Inductive Exn : Type :=
| IndexError   (* [.iloc[0]] or [.iloc[-1]] on an empty column *)
| KeyError     (* [groupby("Phase")] on a frame without that column *)
| Unmatched.   (* a row of the merge without a battery sample *)

Inductive result (A : Type) : Type :=
| Raise (e : Exn)
| Return (a : A).

Arguments Raise {A} e.
Arguments Return {A} a.

Definition bind {A B : Type} (m : result A) (k : A -> result B) : result B :=
  match m with
  | Raise e => Raise e
  | Return a => k a
  end.

Notation "x <- m ;; k" := (bind m (fun x => k))
  (at level 61, m at next level, right associativity).

(** [s.iloc[0]] and [s.iloc[-1]]. *)
Definition iloc_first {A : Type} (l : list A) : result A :=
  match l with
  | [] => Raise IndexError
  | x :: _ => Return x
  end.

Fixpoint iloc_last {A : Type} (l : list A) : result A :=
  match l with
  | [] => Raise IndexError
  | [x] => Return x
  | _ :: xs => iloc_last xs
  end.

(* ================================================================== *)
(** ** Samples and rows *)

(** A record of the [vehicle_local_position] dataset. *)
Record PositionSample : Type := {
  p_timestamp : Z;
  p_vx : Q;
  p_vy : Q;
  p_vz : Q;
  p_z : Q
}.

(** A record of the [battery_status] dataset. *)
Record BatterySample : Type := {
  b_timestamp : Z;
  voltage_v : Q;
  current_a : Q
}.

(** A frame row after the [time] column was added. *)
Record Timed (A : Type) : Type := {
  sample : A;
  at_time : Q
}.

(** A row of [df_combined] once its derived columns are there. *)
Record Row : Type := {
  time : Q;
  position : PositionSample;
  battery : BatterySample;
  horizontal_velocity : Q;
  time_delta : Q;
  altitude : Q
}.

Definition vx (r : Row) : Q := p_vx (position r).
Definition vy (r : Row) : Q := p_vy (position r).
Definition vz (r : Row) : Q := p_vz (position r).
Definition z (r : Row) : Q := p_z (position r).
Definition current (r : Row) : Q := current_a (battery r).

(* ================================================================== *)
(** ** Time normaliser *)

(** ULog timestamps are unsigned 64-bit microsecond counts; the column
    subtraction is done on that type and wraps around. *)
Definition u64 (n : Z) : Z := (n mod 2 ^ 64)%Z.

(** [(df["timestamp"] - t0) / 1e6] for one row. *)
Definition seconds_since (t0 ts : Z) : Q := inject_Z (u64 (ts - t0)) / 1000000.

Definition with_time {A : Type} (timestamp : A -> Z) (t0 : Z) (l : list A)
    : list (Timed A) :=
  map (fun s => {| sample := s; at_time := seconds_since t0 (timestamp s) |}) l.

(* ================================================================== *)
(** ** Aligner: [sort_values] and [merge_asof(direction="nearest")] *)

(** [sort_values("time")]: ascending.  pandas' default sort promises no
    order among rows with equal keys; the model keeps them in place.  On a
    column that is already strictly increasing every sort returns the frame
    as it is. *)
Fixpoint insert_by_time {A : Type} (x : Timed A) (l : list (Timed A))
    : list (Timed A) :=
  match l with
  | [] => [x]
  | y :: ys =>
      if at_time x <=? at_time y then x :: l else y :: insert_by_time x ys
  end.

Fixpoint sort_values {A : Type} (l : list (Timed A)) : list (Timed A) :=
  match l with
  | [] => []
  | x :: xs => insert_by_time x (sort_values xs)
  end.

(** The backward candidate of pandas' as-of join: the last row of the
    leading block of [right] whose key is at most [t]. *)
Fixpoint asof_backward {A : Type} (right : list (Timed A)) (t : Q)
    : option (Timed A) :=
  match right with
  | [] => None
  | b :: bs =>
      if at_time b <=? t
      then match asof_backward bs t with
           | Some b' => Some b'
           | None => Some b
           end
      else None
  end.

(** The forward candidate: the first row of [right] whose key is at least
    [t]. *)
Fixpoint asof_forward {A : Type} (right : list (Timed A)) (t : Q)
    : option (Timed A) :=
  match right with
  | [] => None
  | b :: bs => if at_time b >=? t then Some b else asof_forward bs t
  end.

(** [direction="nearest"]: with both candidates, the backward one when its
    distance is at most the forward one's. *)
Definition asof_nearest {A : Type} (right : list (Timed A)) (t : Q)
    : option (Timed A) :=
  match asof_backward right t, asof_forward right t with
  | Some b, Some f =>
      if (t - at_time b) <=? (at_time f - t) then Some b else Some f
  | Some b, None => Some b
  | None, Some f => Some f
  | None, None => None
  end.

(** [pd.merge_asof(left, right, on="time", direction="nearest")]: a left
    join, one output row per row of [left].  The join is pandas' code, not
    the repository's; the three functions above follow its implementation
    (a backward and a forward candidate per left row, [bdiff <= fdiff] keeps
    the backward one). *)
Definition merge_asof {A B : Type} (left : list (Timed A))
    (right : list (Timed B)) : list (Timed A * option (Timed B)) :=
  map (fun l => (l, asof_nearest right (at_time l))) left.

(** The rows of the merge with their battery columns; a row without a match
    would hold NaN there, which does not happen when [right] has a row. *)
Fixpoint matched {A B : Type} (l : list (A * option B))
    : result (list (A * B)) :=
  match l with
  | [] => Return []
  | (a, Some b) :: rest => rs <- matched rest ;; Return ((a, b) :: rs)
  | (_, None) :: _ => Raise Unmatched
  end.

(* ================================================================== *)
(** ** Feature deriver *)

Section Features.

(** [numpy.sqrt], kept abstract: no result below depends on its values. *)
Variable np_sqrt : Q -> Q.

(** One row of [df_combined] with [horizontal_velocity], [time_delta] and
    [altitude]; [prev] is the previous row's time, [None] for the first row
    ([diff()] gives NaN there and [fillna(0)] makes it 0). *)
Definition derive_row (prev : option Q)
    (m : Timed PositionSample * Timed BatterySample) : Row :=
  let p := sample (fst m) in
  let t := at_time (fst m) in
  {| time := t;
     position := p;
     battery := sample (snd m);
     horizontal_velocity := np_sqrt (p_vx p ^ 2 + p_vy p ^ 2);
     time_delta := match prev with Some t' => t - t' | None => 0 end;
     altitude := - p_z p |}.

Fixpoint derive_from (prev : option Q)
    (l : list (Timed PositionSample * Timed BatterySample)) : list Row :=
  match l with
  | [] => []
  | m :: rest => derive_row prev m :: derive_from (Some (at_time (fst m))) rest
  end.

Definition derive (l : list (Timed PositionSample * Timed BatterySample))
    : list Row :=
  derive_from None l.

End Features.

(** [df_combined[df_combined["time_delta"] > 0]] *)
Definition positive_delta (df : list Row) : list Row :=
  filter (fun r => time_delta r >? 0) df.

(* ================================================================== *)
(** ** Phase classifier *)

(** The [thresholds] dictionary. *)
Record Thresholds : Type := {
  ground_vel : Q;
  cruise_vel : Q;
  altitude_min : Q;
  climb_vz : Q;
  descend_vz : Q
}.

Definition thresholds : Thresholds := {|
  ground_vel := 0.1;
  cruise_vel := 2.0;
  altitude_min := 5.0;
  climb_vz := - 0.1;
  descend_vz := 0.1
|}.

(** [classify_phase] of [components/process_ulog.py]: an [if]/[elif] chain;
    [th] is its [thresholds] argument (the dictionary above by default). *)
Definition classify_phase (z_velocity horizontal_velocity altitude : Q)
    (th : Thresholds) : Phase :=
  if (Qabs z_velocity <? ground_vel th)
     && (Qabs horizontal_velocity <? ground_vel th)
     && (altitude <? altitude_min th)
  then Ground
  else if (horizontal_velocity >? cruise_vel th)
          && (altitude >=? altitude_min th)
  then Cruising
  else if z_velocity >? descend_vz th
  then Descending
  else if z_velocity <? climb_vz th
  then Climbing
  else if (Qabs z_velocity <? ground_vel th)
          && (altitude >=? altitude_min th)
  then Hovering
  else Unknown.

(** The [conditions] list of [backend/battery_analysis.py], one column
    predicate per entry, in the order of the list. *)
Definition conditions (th : Thresholds) : list (Row -> bool) :=
  [ (fun r => (Qabs (vz r) <? ground_vel th)
              && (Qabs (horizontal_velocity r) <? ground_vel th)
              && (altitude r <? altitude_min th));
    (fun r => (horizontal_velocity r >? cruise_vel th)
              && (altitude r >=? altitude_min th));
    (fun r => vz r >? descend_vz th);
    (fun r => vz r <? climb_vz th);
    (fun r => (Qabs (vz r) <? ground_vel th)
              && (altitude r >=? altitude_min th)) ].

Definition choices : list Phase :=
  [Ground; Cruising; Descending; Climbing; Hovering].

(** [numpy.select] at one row: the choice of the first condition that
    holds, the default when none does. *)
Fixpoint np_select {A B : Type} (condlist : list (A -> bool))
    (choicelist : list B) (default : B) (r : A) : B :=
  match condlist, choicelist with
  | c :: cs, x :: xs => if c r then x else np_select cs xs default r
  | _, _ => default
  end.

(** The [raw_phase] column of the backend. *)
Definition raw_phase (r : Row) : Phase :=
  np_select (conditions thresholds) choices Unknown r.

(** The rule table in the spec's words: an ordered list of (predicate,
    label) pairs over [(vz, horizontal_velocity, altitude)]. *)
Definition Rule : Type := Thresholds -> Q -> Q -> Q -> Prop.

Definition ground_rule : Rule := fun th vz hv alt =>
  Qabs vz < ground_vel th /\ Qabs hv < ground_vel th /\ alt < altitude_min th.
Definition cruising_rule : Rule := fun th vz hv alt =>
  cruise_vel th < hv /\ altitude_min th <= alt.
Definition descending_rule : Rule := fun th vz hv alt =>
  descend_vz th < vz.
Definition climbing_rule : Rule := fun th vz hv alt =>
  vz < climb_vz th.
Definition hovering_rule : Rule := fun th vz hv alt =>
  Qabs vz < ground_vel th /\ altitude_min th <= alt.

Definition rules : list (Rule * Phase) :=
  [ (ground_rule, Ground); (cruising_rule, Cruising);
    (descending_rule, Descending); (climbing_rule, Climbing);
    (hovering_rule, Hovering) ].

(** [first_match th vz hv alt rs l]: [l] is the label of the first rule of
    [rs] that holds at the input, [Unknown] when none holds. *)
Inductive first_match (th : Thresholds) (vz hv alt : Q)
    : list (Rule * Phase) -> Phase -> Prop :=
| fm_none : first_match th vz hv alt [] Unknown
| fm_here : forall (P : Rule) l rs,
    P th vz hv alt -> first_match th vz hv alt ((P, l) :: rs) l
| fm_later : forall (P : Rule) l rs l',
    ~ P th vz hv alt -> first_match th vz hv alt rs l' ->
    first_match th vz hv alt ((P, l) :: rs) l'.

(* ================================================================== *)
(** ** Phase consolidator *)

(** A row of [df[["time", "raw_phase", "time_delta"]]]. *)
Record PhaseRow : Type := {
  pr_time : Q;
  pr_raw_phase : Phase;
  pr_time_delta : Q
}.

(** An emitted tuple [(phase, start, end)]. *)
Definition Segment : Type := (Phase * Q * Q)%type.

Definition seg_phase (s : Segment) : Phase := fst (fst s).
Definition seg_start (s : Segment) : Q := snd (fst s).
Definition seg_end (s : Segment) : Q := snd s.

(** The loop variables of [consolidate_phases]. *)
Record Accum : Type := {
  consolidated : list Segment;
  current_phase : Phase;
  start_time : Q;
  total_time : Q
}.

(** One iteration of [for _, row in df.iterrows()]. *)
Definition consolidate_step (time_threshold : Q) (st : Accum) (row : PhaseRow)
    : Accum :=
  if phase_eqb (pr_raw_phase row) (current_phase st)
  then {| consolidated := consolidated st;
          current_phase := current_phase st;
          start_time := start_time st;
          total_time := total_time st + pr_time_delta row |}
  else {| consolidated :=
            if total_time st >=? time_threshold
            then consolidated st ++ [(current_phase st, start_time st, pr_time row)]
            else consolidated st;
          current_phase := pr_raw_phase row;
          start_time := pr_time row;
          total_time := pr_time_delta row |}.

(** [consolidate_phases(df, time_threshold)], the same in both files. *)
Definition consolidate_phases (df : list PhaseRow) (time_threshold : Q)
    : result (list Segment) :=
  first <- iloc_first df ;;
  let st := fold_left (consolidate_step time_threshold) df
              {| consolidated := [];
                 current_phase := pr_raw_phase first;
                 start_time := pr_time first;
                 total_time := 0 |} in
  last <- iloc_last df ;;
  Return (if total_time st >=? time_threshold
          then consolidated st ++ [(current_phase st, start_time st, pr_time last)]
          else consolidated st).

(** The three columns the backend hands to the consolidator. *)
Definition phase_row (r : Row) : PhaseRow :=
  {| pr_time := time r; pr_raw_phase := raw_phase r; pr_time_delta := time_delta r |}.

(* ================================================================== *)
(** ** Energy aggregator *)

(** The [mAh] column. *)
Definition mAh (r : Row) : Q := current r * time_delta r / 3.6.

Definition total_mAh (df : list Row) : Q := Qsum (map mAh df).

(** [df["time"].iloc[-1] - df["time"].iloc[0]] *)
Definition flight_time (df : list Row) : result Q :=
  last <- iloc_last df ;;
  first <- iloc_first df ;;
  Return (time last - time first).

(** [avg_mAh_per_s = total_mAh / total_time]; computed, then not used. *)
Definition avg_mAh_per_s (total_mAh total_time : Q) : FVal :=
  fdiv (Finite total_mAh) (Finite total_time).

Definition non_ground (df : list Row) : list Row :=
  filter (fun r => negb (phase_eqb (raw_phase r) Ground)) df.

Definition total_mAh_non_ground (df : list Row) : Q :=
  Qsum (map mAh (non_ground df)).

Definition total_time_non_ground (df : list Row) : Q :=
  Qsum (map time_delta (non_ground df)).

Definition avg_mAh_per_s_non_ground (df : list Row) : FVal :=
  fdiv (Finite (total_mAh_non_ground df)) (Finite (total_time_non_ground df)).

(** A dictionary appended to [phase_data]. *)
Record PhaseDatum : Type := {
  d_phase : Phase;
  d_total_time : Q;
  d_total_draw : Q;
  d_avg_dr : FVal;
  d_diff_of_avg : FVal;
  d_pct_time : FVal
}.

(** [df_combined[phase_mask]] for the tuple [(phase, start, end)]. *)
Definition phase_df (df : list Row) (seg : Segment) : list Row :=
  filter (fun r => (time r >=? seg_start seg) && (time r <? seg_end seg)) df.

(** The body of [for phase, start, end in consolidated_phases]. *)
Definition phase_datum (df : list Row) (avg_non_ground : FVal)
    (total_time : Q) (seg : Segment) : PhaseDatum :=
  let phase_duration := seg_end seg - seg_start seg in
  let phase_mAh := Qsum (map mAh (phase_df df seg)) in
  let avg_dr_phase := fdiv (Finite phase_mAh) (Finite phase_duration) in
  let diff_of_avg := fmul (fdiv avg_dr_phase avg_non_ground) (Finite 100) in
  let pct_time_of_flight :=
    fmul (fdiv (Finite phase_duration) (Finite total_time)) (Finite 100) in
  {| d_phase := seg_phase seg;
     d_total_time := phase_duration;
     d_total_draw := phase_mAh;
     d_avg_dr := avg_dr_phase;
     d_diff_of_avg := diff_of_avg;
     d_pct_time := pct_time_of_flight |}.

(* ================================================================== *)
(** ** Report assembler *)

(** A row of [df_phase] after the group-by. *)
Record PhaseAggregate : Type := {
  Phase_label : string;
  TotalTime : Q;
  TotalDraw : Q;
  AvgDr : FVal;
  DiffofAvg : FVal;
  PctTime : FVal
}.

(** [summary_data] *)
Record FlightSummary : Type := {
  Summary_label : string;
  Summary_TotalTime : Q;
  Summary_TotalDraw : Q;
  TotalDrawPerMinute : FVal
}.

Inductive ReportRecord : Type :=
| PhaseRecord (a : PhaseAggregate)
| SummaryRecord (s : FlightSummary).

Definition record_label (r : ReportRecord) : string :=
  match r with
  | PhaseRecord a => Phase_label a
  | SummaryRecord s => Summary_label s
  end.

Definition record_total_draw (r : ReportRecord) : Q :=
  match r with
  | PhaseRecord a => TotalDraw a
  | SummaryRecord s => Summary_TotalDraw s
  end.

(** The group keys in the order [groupby] yields them: the label strings in
    ascending order. *)
Definition group_keys : list Phase :=
  [Climbing; Cruising; Descending; Hovering; Ground; Unknown].

Definition group_of (p : Phase) (phase_data : list PhaseDatum) : list PhaseDatum :=
  filter (fun d => phase_eqb (d_phase d) p) phase_data.

(** [.agg({...})] on one group: sums and means as the dictionary names them. *)
Definition agg (p : Phase) (g : list PhaseDatum) : PhaseAggregate :=
  {| Phase_label := phase_name p;
     TotalTime := Qsum (map d_total_time g);
     TotalDraw := Qsum (map d_total_draw g);
     AvgDr := fmean (map d_avg_dr g);
     DiffofAvg := fmean (map d_diff_of_avg g);
     PctTime := fsum (map d_pct_time g) |}.

(** The record of one key: none when no row carries the key. *)
Definition group_records (phase_data : list PhaseDatum) (p : Phase)
    : list PhaseAggregate :=
  match group_of p phase_data with
  | [] => []
  | g => [agg p g]
  end.

(** [pd.DataFrame(phase_data).groupby("Phase", as_index=False).agg(...)]: a
    frame built from an empty list has no column [Phase]. *)
Definition groupby_agg (phase_data : list PhaseDatum)
    : result (list PhaseAggregate) :=
  match phase_data with
  | [] => Raise KeyError
  | _ => Return (flat_map (group_records phase_data) group_keys)
  end.

Definition summary_data (total_mAh total_time : Q) : FlightSummary :=
  {| Summary_label := "Total Flight Summary";
     Summary_TotalTime := total_time;
     Summary_TotalDraw := total_mAh;
     TotalDrawPerMinute :=
       round2 (fdiv (Finite total_mAh) (fdiv (Finite total_time) (Finite 60))) |}.

(** [process_ulog] from the threshold dictionary on: everything computed
    from the filtered [df_combined]. *)
Definition analyse (df : list Row) : result (list ReportRecord) :=
  consolidated_phases <- consolidate_phases (map phase_row df) 1.0 ;;
  total_time <- flight_time df ;;
  let phase_data :=
    map (phase_datum df (avg_mAh_per_s_non_ground df) total_time)
        consolidated_phases in
  df_phase <- groupby_agg phase_data ;;
  Return (map PhaseRecord df_phase
          ++ [SummaryRecord (summary_data (total_mAh df) total_time)]).

(** A frame with its [time] column: [t0 = df["timestamp"].iloc[0]], then
    [(df["timestamp"] - t0) / 1e6]. *)
Definition time_column {A : Type} (timestamp : A -> Z) (l : list A)
    : result (list (Timed A)) :=
  first <- iloc_first l ;;
  Return (with_time timestamp (timestamp first) l).

(** The two frames with their [time] columns, sorted and merged: lines
    32 to 39 of the backend. *)
Definition aligned (vehicle_position : list PositionSample)
    (battery_status : list BatterySample)
    : result (list (Timed PositionSample * Timed BatterySample)) :=
  df_position <- time_column p_timestamp vehicle_position ;;
  df_battery <- time_column b_timestamp battery_status ;;
  matched (merge_asof (sort_values df_position) (sort_values df_battery)).

(** The spec's words for the aligner.  [nearest right t b]: [b] is a row of
    [right] at minimal distance from [t], and among the rows at that
    distance it is the earliest. *)
Definition distance {A : Type} (t : Q) (b : Timed A) : Q := Qabs (t - at_time b).

Definition nearest {A : Type} (right : list (Timed A)) (t : Q) (b : Timed A)
    : Prop :=
  In b right
  /\ (forall b', In b' right -> distance t b <= distance t b')
  /\ (forall b', In b' right -> distance t b == distance t b' ->
                 at_time b <= at_time b').


Section Pipeline.

Variable np_sqrt : Q -> Q.

(** [df_combined] after the filter on [time_delta]. *)
Definition df_combined (vehicle_position : list PositionSample)
    (battery_status : list BatterySample) : result (list Row) :=
  merged <- aligned vehicle_position battery_status ;;
  Return (positive_delta (derive np_sqrt merged)).

(** [process_ulog]: the records written to the result file, or the
    exception that ended the run. *)
Definition process_ulog (vehicle_position : list PositionSample)
    (battery_status : list BatterySample) : result (list ReportRecord) :=
  df <- df_combined vehicle_position battery_status ;;
  analyse df.

End Pipeline.

(* ================================================================== *)
(** ** The stand-alone script, where it differs *)

Module Script.

(** The script keeps every row of the merge: it has no filter on
    [time_delta]. *)
Definition df_combined (np_sqrt : Q -> Q) (vehicle_position : list PositionSample)
    (battery_status : list BatterySample) : result (list Row) :=
  merged <- aligned vehicle_position battery_status ;;
  Return (derive np_sqrt merged).

(** [df_combined.apply(lambda row: classify_phase(...), axis=1)] *)
Definition raw_phase (r : Row) : Phase :=
  classify_phase (vz r) (horizontal_velocity r) (altitude r) thresholds.

Definition non_ground_df (df : list Row) : list Row :=
  filter (fun r => negb (phase_eqb (raw_phase r) Ground)) df.

(** The script's baseline: the charge of the non-ground rows over the span
    from the first to the last of them. *)
Definition avg_mAh_per_s_non_ground (df : list Row) : result FVal :=
  let total_mAh_non_ground :=
    Qsum (map (fun r => current r * time_delta r) (non_ground_df df)) / 3600 in
  last <- iloc_last (non_ground_df df) ;;
  first <- iloc_first (non_ground_df df) ;;
  let total_time_non_ground := time last - time first in
  Return (fdiv (Finite total_mAh_non_ground) (Finite total_time_non_ground)).

(** [(df_combined["current"] * df_combined["time_delta"]).sum() / 3600] *)
Definition total_mAh (df : list Row) : Q :=
  Qsum (map (fun r => current r * time_delta r) df) / 3600.

(** [df_combined["time"].iloc[-1] - df_combined["time"].iloc[0]] *)
Definition total_time (df : list Row) : result Q :=
  last <- iloc_last df ;;
  first <- iloc_first df ;;
  Return (time last - time first).

End Script.

(* ================================================================== *)
(** ** The consolidator in the spec's words *)

(** The maximal runs of consecutive rows that share a label, in order. *)
Fixpoint label_runs (df : list PhaseRow) : list (list PhaseRow) :=
  match df with
  | [] => []
  | r :: rest =>
      match label_runs rest with
      | (r' :: run) :: runs =>
          if phase_eqb (pr_raw_phase r) (pr_raw_phase r')
          then (r :: r' :: run) :: runs
          else [r] :: (r' :: run) :: runs
      | _ => [[r]]
      end
  end.

(** The accumulated [time_delta] of a run. *)
Definition run_duration (run : list PhaseRow) : Q := Qsum (map pr_time_delta run).

(** Where the segment of a run ends: at the first row of the next run, at
    the last row of the frame for the final run. *)
Definition next_start (last_time : Q) (runs : list (list PhaseRow)) : Q :=
  match runs with
  | (r :: _) :: _ => pr_time r
  | _ => last_time
  end.

(** Each run with the segment it stands for. *)
Fixpoint run_segments (last_time : Q) (runs : list (list PhaseRow))
    : list (list PhaseRow * Segment) :=
  match runs with
  | [] => []
  | run :: rest =>
      match run with
      | r :: _ =>
          (run, (pr_raw_phase r, pr_time r, next_start last_time rest))
            :: run_segments last_time rest
      | [] => run_segments last_time rest
      end
  end.

(** The segments of the runs that meet the threshold. *)
Definition surviving (time_threshold : Q) (rs : list (list PhaseRow * Segment))
    : list Segment :=
  map snd (filter (fun x => run_duration (fst x) >=? time_threshold) rs).

(** An emitted segment read back as a uniform-label sub-sequence of rows:
    one row at each of its boundaries, the time deltas taken inside the
    sub-sequence as [diff().fillna(0)] takes them. *)
Definition start_row (seg : Segment) : PhaseRow :=
  {| pr_time := seg_start seg; pr_raw_phase := seg_phase seg; pr_time_delta := 0 |}.

Definition end_row (seg : Segment) : PhaseRow :=
  {| pr_time := seg_end seg; pr_raw_phase := seg_phase seg;
     pr_time_delta := seg_end seg - seg_start seg |}.

Definition segment_rows (seg : Segment) : list PhaseRow :=
  [start_row seg; end_row seg].

(** Each segment ends where the next one starts, under another label. *)
Fixpoint chained (segs : list Segment) : Prop :=
  match segs with
  | a :: rest =>
      match rest with
      | b :: _ => seg_end a = seg_start b /\ seg_phase a <> seg_phase b
      | [] => True
      end /\ chained rest
  | [] => True
  end.

(** Consolidation run again on its own output. *)
Definition reconsolidate (segs : list Segment) (time_threshold : Q)
    : result (list Segment) :=
  consolidate_phases (flat_map segment_rows segs) time_threshold.

(* ================================================================== *)
(** ** Orders, invariants and the consolidator's loop unrolled *)


Definition time_le {A : Type} (a b : Timed A) : Prop := at_time a <= at_time b.

(** An ordered row sequence: the times increase from row to row. *)
Definition increasing_times (df : list PhaseRow) : Prop :=
  StronglySorted (fun a b => pr_time a < pr_time b) df.

Definition row_time_lt (a b : Row) : Prop := time a < time b.

(** Strictly increasing times and positive time deltas: what the stages
    after the filter can rely on. *)
Definition surviving_rows (df : list Row) : Prop :=
  StronglySorted row_time_lt df /\ Forall (fun r => 0 < time_delta r) df.

(** [a] ends before [b] starts. *)
Definition seg_before (a b : Segment) : Prop := seg_end a <= seg_start b.

(** Every run is uniform in its label, and two neighbouring runs differ. *)
Fixpoint runs_maximal (runs : list (list PhaseRow)) : Prop :=
  match runs with
  | [] => True
  | run :: rest =>
      match run with
      | [] => False
      | r :: _ =>
          Forall (fun r' => pr_raw_phase r' = pr_raw_phase r) run
          /\ match rest with
             | (r2 :: _) :: _ => pr_raw_phase r2 <> pr_raw_phase r
             | _ => True
             end
          /\ runs_maximal rest
      end
  end.

(** The segment of the open run, if it has lasted long enough. *)
Definition seg_if (time_threshold total : Q) (p : Phase) (s e : Q) : list Segment :=
  if total >=? time_threshold then [(p, s, e)] else [].

(** What the loop still emits from the state [(p, s, total)] over [rows],
    the flush after the loop included. *)
Fixpoint open_segments (thr last_time : Q) (p : Phase) (s total : Q)
    (rows : list PhaseRow) : list Segment :=
  match rows with
  | [] => seg_if thr total p s last_time
  | r :: rest =>
      if phase_eqb (pr_raw_phase r) p
      then open_segments thr last_time p s (total + pr_time_delta r) rest
      else seg_if thr total p s (pr_time r)
           ++ open_segments thr last_time (pr_raw_phase r) (pr_time r)
                (pr_time_delta r) rest
  end.

(** The [if] after the loop. *)
Definition flush (thr last_time : Q) (st : Accum) : list Segment :=
  if total_time st >=? thr
  then consolidated st ++ [(current_phase st, start_time st, last_time)]
  else consolidated st.

(* ================================================================== *)
(** ** What the claims about the report speak of *)

(** The phase records of a report, without the summary. *)
Fixpoint phase_records (report : list ReportRecord) : list PhaseAggregate :=
  match report with
  | [] => []
  | PhaseRecord a :: rest => a :: phase_records rest
  | SummaryRecord _ :: rest => phase_records rest
  end.

(** A row lies in the interval of one of the segments. *)
Definition covered (segs : list Segment) (r : Row) : bool :=
  existsb (fun seg => (time r >=? seg_start seg) && (time r <? seg_end seg)) segs.

(** Every ratio of the report is a finite number. *)
Definition record_finite (r : ReportRecord) : bool :=
  match r with
  | PhaseRecord a =>
      is_finite (AvgDr a) && is_finite (DiffofAvg a) && is_finite (PctTime a)
  | SummaryRecord s => is_finite (TotalDrawPerMinute s)
  end.

Definition report_finite (report : list ReportRecord) : bool :=
  forallb record_finite report.

(* ================================================================== *)
(** ** Flights used as examples *)

(** A square root to six decimals, for the examples. *)
Definition sqrt_micro (q : Q) : Q :=
  inject_Z (Z.sqrt (Qnum q * 1000000000000 / Zpos (Qden q))) / 1000000.

(** A motion sample [ms] milliseconds after the start of the log. *)
Definition motion (ms : Z) (vx vz z : Q) : PositionSample :=
  {| p_timestamp := (1000 * ms)%Z; p_vx := vx; p_vy := 0; p_vz := vz; p_z := z |}.

(** A battery sample [ms] milliseconds after the start of the log. *)
Definition cell (ms : Z) (current : Q) : BatterySample :=
  {| b_timestamp := (1000 * ms)%Z; voltage_v := 12; current_a := current |}.

(** Ten samples at 1 Hz, at rest on the ground, 5 A drawn. *)
Definition ground_flight : list PositionSample :=
  map (fun k => motion (1000 * Z.of_nat k) 0 0 0) (seq 0 10).

Definition ground_battery : list BatterySample :=
  map (fun k => cell (1000 * Z.of_nat k) 5) (seq 0 10).

(** Five seconds of climb, then five seconds of cruise, 10 A drawn. *)
Definition climb_cruise_flight : list PositionSample :=
  [ motion 0 0 (-1) 0; motion 1000 0 (-1) (-1); motion 2000 0 (-1) (-2);
    motion 3000 0 (-1) (-3); motion 4000 0 (-1) (-4); motion 5000 0 (-1) (-5);
    motion 6000 5 0 (-10); motion 7000 5 0 (-10); motion 8000 5 0 (-10);
    motion 9000 5 0 (-10); motion 10000 5 0 (-10) ].

Definition steady_battery : list BatterySample :=
  [ cell 0 10; cell 5000 10; cell 10000 10 ].

(** A climb with one stray sample that reads as a descent, then three
    seconds on the way down. *)
Definition flicker_flight : list PositionSample :=
  [ motion 0 0 (-1) 0; motion 1000 0 (-1) (-1); motion 2000 0 (-1) (-2);
    motion 2500 0 1 (-2); motion 3500 0 (-1) (-3); motion 4500 0 (-1) (-4);
    motion 5500 0 1 (-3); motion 6500 0 1 (-2); motion 7500 0 1 (-1) ].

(** A climb, two seconds on the ground, a climb again. *)
Definition touch_and_go_flight : list PositionSample :=
  [ motion 0 0 (-1) 0; motion 1000 0 (-1) (-1); motion 2000 0 0 0;
    motion 3000 0 0 0; motion 4000 0 (-1) (-1); motion 5000 0 (-1) (-2) ].

(** Two samples two seconds apart: a single row survives the filter. *)
Definition two_sample_flight : list PositionSample :=
  [ motion 0 0 (-1) 0; motion 2000 0 (-1) (-2) ].

(** Thresholds under which the Ground and the Descending rule overlap. *)
Definition loose_ground : Thresholds := {|
  ground_vel := 1;
  cruise_vel := 2;
  altitude_min := 5;
  climb_vz := - 0.1;
  descend_vz := 0.1
|}.

(** Three labelled rows: two seconds of climb, then one row of descent. *)
Definition climb_then_descent : list PhaseRow :=
  [ {| pr_time := 1; pr_raw_phase := Climbing; pr_time_delta := 1 |};
    {| pr_time := 2; pr_raw_phase := Climbing; pr_time_delta := 1 |};
    {| pr_time := 3; pr_raw_phase := Descending; pr_time_delta := 1 |} ].

(** Two seconds of climb, then two seconds of cruise. *)
Definition climb_then_cruise : list PhaseRow :=
  [ {| pr_time := 1; pr_raw_phase := Climbing; pr_time_delta := 1 |};
    {| pr_time := 2; pr_raw_phase := Climbing; pr_time_delta := 1 |};
    {| pr_time := 3; pr_raw_phase := Cruising; pr_time_delta := 1 |};
    {| pr_time := 4; pr_raw_phase := Cruising; pr_time_delta := 1 |} ].

(** A climb, half a second labelled Unknown, then a cruise. *)
Definition climb_flicker_cruise : list PhaseRow :=
  [ {| pr_time := 1; pr_raw_phase := Climbing; pr_time_delta := 1 |};
    {| pr_time := 2; pr_raw_phase := Climbing; pr_time_delta := 1 |};
    {| pr_time := 2.5; pr_raw_phase := Unknown; pr_time_delta := 0.5 |};
    {| pr_time := 3.5; pr_raw_phase := Cruising; pr_time_delta := 1 |};
    {| pr_time := 4.5; pr_raw_phase := Cruising; pr_time_delta := 1 |} ].

(** A climb interrupted by half a second labelled Unknown. *)
Definition climb_with_flicker : list PhaseRow :=
  [ {| pr_time := 1; pr_raw_phase := Climbing; pr_time_delta := 1 |};
    {| pr_time := 2; pr_raw_phase := Climbing; pr_time_delta := 1 |};
    {| pr_time := 2.5; pr_raw_phase := Unknown; pr_time_delta := 0.5 |};
    {| pr_time := 3.5; pr_raw_phase := Climbing; pr_time_delta := 1 |};
    {| pr_time := 4.5; pr_raw_phase := Climbing; pr_time_delta := 1 |} ].


(* ================================================================== *)
(** ** Vocabulary of the further properties *)


(** Each row's [time_delta] is the time passed since the row before it, [p]
    being the time before the first row. *)
Fixpoint time_chain (p : Q) (df : list Row) : Prop :=
  match df with
  | [] => True
  | r :: rest => time_delta r == time r - p /\ time_chain (time r) rest
  end.

(** The length of a segment's interval: [phase_duration = end - start]. *)
Definition seg_span (seg : Segment) : Q := seg_end seg - seg_start seg.

(** [l1] is [l2] with some of its elements left out, the order kept. *)
Inductive sublist {A : Type} : list A -> list A -> Prop :=
| sublist_nil : sublist [] []
| sublist_keep : forall x l1 l2, sublist l1 l2 -> sublist (x :: l1) (x :: l2)
| sublist_drop : forall x l1 l2, sublist l1 l2 -> sublist l1 (x :: l2).

(* ================================================================== *)
(** ** The upload route of the backend *)

(** [str.endswith] *)
Definition endswith (s suffix : string) : bool :=
  let n := String.length s in
  let m := String.length suffix in
  Nat.leb m n && String.eqb (substring (n - m) m s) suffix.

(** An uploaded part of a request: the file name the client gave it and
    its bytes. *)
Record FileStorage : Type := {
  filename : string;
  stream : string
}.

(** [request.files[key]]: the first part under the field name, none when
    [key not in request.files]. *)
Fixpoint files_get (files : list (string * FileStorage)) (key : string)
    : option FileStorage :=
  match files with
  | [] => None
  | (k, f) :: rest => if String.eqb k key then Some f else files_get rest key
  end.

(** The files on disk, by path. *)
Definition Disk : Type := string -> option string.

Definition disk_write (disk : Disk) (path content : string) : Disk :=
  fun p => if String.eqb p path then Some content else disk p.

(** The body of a response: [jsonify({"error": ...})] or the text read from
    the result file. *)
Inductive Body : Type :=
| JsonError (error : string)
| Text (results : string).

(** What the view comes to: a body with its status code, or an exception
    that leaves the view. *)
Inductive Reply : Type :=
| Response (body : Body) (status : Z)
| Unhandled.

Definition UPLOAD_FOLDER : string := "uploads".
Definition RESULT_FOLDER : string := "results".

(** [os.path.join] of two components on a POSIX system: an absolute second
    component replaces the first. *)
Definition posix_join (a b : string) : string :=
  if prefix "/" b then b
  else if String.eqb a EmptyString || endswith a "/" then a ++ b
  else a ++ "/" ++ b.

Section Upload.

Variable np_sqrt : Q -> Q.

(** [os.path.join] *)
Variable path_join : string -> string -> string.

(** Whether a file can be created or replaced at a path. *)
Variable writable : string -> bool.

(** [ULog(file_path)] and the two [get_dataset(...).data] on the bytes of a
    file: the two datasets, or the message of the exception raised. *)
Variable ulog_datasets :
  string -> string + (list PositionSample * list BatterySample).

(** [df_phase.to_json(orient="records")] *)
Variable to_json : list ReportRecord -> string.

(** [str(e)], for the exceptions of the analysis and for the one raised on a
    path that cannot be opened. *)
Variable str : Exn -> string.
Variable os_error : string -> string.

(** [process_ulog(file_path, output_path)] with its [try]/[except]: the path
    of the result file written, or [str(e)]. *)
Definition process_ulog_file (disk : Disk) (file_path output_path : string)
    : Disk * string :=
  match disk file_path with
  | None => (disk, os_error file_path)
  | Some bytes =>
      match ulog_datasets bytes with
      | inl message => (disk, message)
      | inr (vehicle_position, battery_status) =>
          match process_ulog np_sqrt vehicle_position battery_status with
          | Raise e => (disk, str e)
          | Return df_phase =>
              let output_file := path_join RESULT_FOLDER output_path in
              if writable output_file
              then (disk_write disk output_file (to_json df_phase), output_file)
              else (disk, os_error output_file)
          end
      end
  end.

(** [upload_file], the view of [POST /upload]. *)
Definition upload_file (files : list (string * FileStorage)) (disk : Disk)
    : Reply * Disk :=
  match files_get files "file" with
  | None => (Response (JsonError "No file uploaded") 400, disk)
  | Some file =>
      if String.eqb (filename file) EmptyString
         || negb (endswith (filename file) ".ulg")
      then (Response (JsonError "Invalid file format") 400, disk)
      else
        let file_path := path_join UPLOAD_FOLDER (filename file) in
        if writable file_path
        then
          let saved := disk_write disk file_path (stream file) in
          let (disk', result_file) :=
            process_ulog_file saved file_path "phase_analysis.json" in
          if endswith result_file ".json"
          then match disk' result_file with
               | Some results => (Response (Text results) 200, disk')
               | None => (Unhandled, disk')
               end
          else (Response (JsonError result_file) 500, disk')
        else (Unhandled, disk)
  end.

End Upload.

(** Stand-ins for the library calls, for the examples. *)
Definition demo_datasets (bytes : string)
    : string + (list PositionSample * list BatterySample) :=
  if String.eqb bytes "climb" then inr (climb_cruise_flight, steady_battery)
  else if String.eqb bytes "still" then inr ([motion 0 0 0 0], steady_battery)
  else inl "Invalid file format (Failed to parse header)"%string.

Definition demo_json (report : list ReportRecord) : string :=
  String.concat "," (map record_label report).

Definition demo_str (e : Exn) : string :=
  match e with
  | IndexError => "single positional indexer is out-of-bounds"
  | KeyError => "'Phase'"
  | Unmatched => "unmatched"
  end.

Definition demo_os_error (path : string) : string :=
  "No such file or directory: " ++ path.

Definition empty_disk : Disk := fun _ => None.

(* ================================================================== *)
(** ** Other voltage readings *)

(** A battery sample with another voltage reading. *)
Definition with_voltage (voltage : BatterySample -> Q) (b : BatterySample)
    : BatterySample :=
  {| b_timestamp := b_timestamp b;
     voltage_v := voltage b;
     current_a := current_a b |}.

(** The same, on a frame row with its [time] column and on a row of
    [df_combined]. *)
Definition on_sample {A B : Type} (f : A -> B) (x : Timed A) : Timed B :=
  {| sample := f (sample x); at_time := at_time x |}.

Definition row_with_voltage (voltage : BatterySample -> Q) (r : Row) : Row :=
  {| time := time r;
     position := position r;
     battery := with_voltage voltage (battery r);
     horizontal_velocity := horizontal_velocity r;
     time_delta := time_delta r;
     altitude := altitude r |}.

(* ================================================================== *)
(** ** The aligner in binary64 arithmetic

    The [time] columns are binary64 numbers and pandas' as-of join compares
    binary64 differences.  The definitions above take the times as the
    rationals they stand for; the ones below round where the program
    rounds. *)

Module F64.

(** The binary exponent of a positive rational:
    [2 ^ ilog2 q <= q < 2 ^ (ilog2 q + 1)]. *)
Definition ilog2 (q : Q) : Z :=
  let k := (Z.log2 (Qnum q) - Z.log2 (Zpos (Qden q)))%Z in
  if Qle_bool (2 ^ k) q then k else (k - 1)%Z.

(** A positive number rounded to 53 significant bits, to nearest, ties to
    even. *)
Definition round_pos (q : Q) : Q :=
  let e := (ilog2 q - 52)%Z in
  inject_Z (rint (q / 2 ^ e)) * 2 ^ e.

(** The binary64 number nearest to a real number.  Overflow and the
    subnormal range are left out: the times of a log and their differences
    are far from both. *)
Definition round (q : Q) : Q :=
  if 0 <? q then round_pos q
  else if q <? 0 then - round_pos (- q)
  else 0.

(** [(df["timestamp"] - t0) / 1e6] as numpy computes it: the unsigned
    64-bit difference is converted to binary64 and divided by [1e6]. *)
Definition seconds_since (t0 ts : Z) : Q :=
  round (round (inject_Z (u64 (ts - t0))) / 1000000).

Definition with_time {A : Type} (timestamp : A -> Z) (t0 : Z) (l : list A)
    : list (Timed A) :=
  map (fun s => {| sample := s; at_time := seconds_since t0 (timestamp s) |}) l.

Definition time_column {A : Type} (timestamp : A -> Z) (l : list A)
    : result (list (Timed A)) :=
  first <- iloc_first l ;;
  Return (with_time timestamp (timestamp first) l).

(** [direction="nearest"] on binary64 keys: [bdiff = t - b] and
    [fdiff = f - t] are binary64 differences, and the backward candidate is
    kept when [bdiff <= fdiff]. *)
Definition asof_nearest {A : Type} (right : list (Timed A)) (t : Q)
    : option (Timed A) :=
  match asof_backward right t, asof_forward right t with
  | Some b, Some f =>
      if round (t - at_time b) <=? round (at_time f - t) then Some b else Some f
  | Some b, None => Some b
  | None, Some f => Some f
  | None, None => None
  end.

Definition merge_asof {A B : Type} (left : list (Timed A))
    (right : list (Timed B)) : list (Timed A * option (Timed B)) :=
  map (fun l => (l, asof_nearest right (at_time l))) left.

(** Lines 32 to 39 of the backend, lines 33 to 40 of the script. *)
Definition aligned (vehicle_position : list PositionSample)
    (battery_status : list BatterySample)
    : result (list (Timed PositionSample * Timed BatterySample)) :=
  df_position <- time_column p_timestamp vehicle_position ;;
  df_battery <- time_column b_timestamp battery_status ;;
  matched (merge_asof (sort_values df_position) (sort_values df_battery)).

(** The distance between a left key and a right row as the join computes
    it. *)
Definition distance {A : Type} (t : Q) (b : Timed A) : Q :=
  round (Qabs (t - at_time b)).

(** [b] is a row of [right] at minimal computed distance from [t], and it
    lies after [t] only when it is strictly nearer than every row at or
    before [t]. *)
Definition nearest {A : Type} (right : list (Timed A)) (t : Q) (b : Timed A)
    : Prop :=
  In b right
  /\ (forall b', In b' right -> distance t b <= distance t b')
  /\ (t < at_time b ->
      forall b', In b' right -> at_time b' <= t -> distance t b < distance t b').

End F64.

(** A frame row with its time taken without rounding. *)
Definition exact_row {A : Type} (timestamp : A -> Z) (t0 : Z) (x : Timed A)
    : Timed A :=
  {| sample := sample x; at_time := seconds_since t0 (timestamp (sample x)) |}.

(** The aligner claim in the spec's words, for a row the program returns:
    among the battery samples the paired one is nearest to the motion sample
    in normalised time [(timestamp - t0) / 10^6], the earlier one on an exact
    tie. *)
Definition paired_with_nearest (vehicle_position : list PositionSample)
    (battery_status : list BatterySample)
    (m : Timed PositionSample * Timed BatterySample) : Prop :=
  match vehicle_position, battery_status with
  | p0 :: _, b0 :: _ =>
      nearest (with_time b_timestamp (b_timestamp b0) battery_status)
              (seconds_since (p_timestamp p0) (p_timestamp (sample (fst m))))
              (exact_row b_timestamp (b_timestamp b0) (snd m))
  | _, _ => True
  end.

(** A motion sample 5 ms into the log, midway between battery samples at
    1 ms and 9 ms. *)
Definition midway_flight : list PositionSample :=
  [ motion 0 0 0 0; motion 5 0 0 0 ].

Definition sparse_battery : list BatterySample :=
  [ cell 0 10; cell 1 10; cell 9 10 ].

(* ================================================================== *)
(** * Properties *)

Unset Implicit Arguments.

(** ** Boolean comparisons against their propositions *)

Lemma Qltb_lt (x y : Q) : (x <? y) = true <-> x < y.
Proof.
  unfold Qltb. rewrite negb_true_iff.
  split; intro H.
  - apply Qnot_le_lt. intro Hle. apply Qle_bool_iff in Hle. congruence.
  - destruct (Qle_bool y x) eqn:E; [|reflexivity].
    apply Qle_bool_iff in E. exfalso. apply (Qlt_not_le _ _ H E).
Qed.

Lemma Qleb_le (x y : Q) : (x <=? y) = true <-> x <= y.
Proof. unfold Qleb. apply Qle_bool_iff. Qed.

Lemma Qgtb_gt (x y : Q) : (x >? y) = true <-> y < x.
Proof. unfold Qgtb. apply Qltb_lt. Qed.

Lemma Qgeb_ge (x y : Q) : (x >=? y) = true <-> y <= x.
Proof. unfold Qgeb. apply Qleb_le. Qed.

Lemma Qltb_nlt (x y : Q) : (x <? y) = false <-> y <= x.
Proof.
  unfold Qltb. rewrite negb_false_iff. apply Qle_bool_iff.
Qed.

Lemma Qleb_nle (x y : Q) : (x <=? y) = false <-> y < x.
Proof.
  rewrite <- Qltb_lt. unfold Qltb, Qleb.
  destruct (Qle_bool x y); simpl; split; congruence.
Qed.

Lemma Qgtb_ngt (x y : Q) : (x >? y) = false <-> x <= y.
Proof. unfold Qgtb. apply Qltb_nlt. Qed.

Lemma Qgeb_nge (x y : Q) : (x >=? y) = false <-> x < y.
Proof. unfold Qgeb. apply Qleb_nle. Qed.

(** Turns the boolean tests among the hypotheses into order facts. *)
Ltac bool_to_order :=
  repeat match goal with
  | H : (_ && _) = true |- _ => apply andb_true_iff in H; destruct H
  | H : (_ <? _) = true |- _ => apply Qltb_lt in H
  | H : (_ <? _) = false |- _ => apply Qltb_nlt in H
  | H : (_ <=? _) = true |- _ => apply Qleb_le in H
  | H : (_ <=? _) = false |- _ => apply Qleb_nle in H
  | H : (_ >? _) = true |- _ => apply Qgtb_gt in H
  | H : (_ >? _) = false |- _ => apply Qgtb_ngt in H
  | H : (_ >=? _) = true |- _ => apply Qgeb_ge in H
  | H : (_ >=? _) = false |- _ => apply Qgeb_nge in H
  end.

Lemma phase_eqb_eq (a b : Phase) : phase_eqb a b = true <-> a = b.
Proof. destruct a, b; simpl; split; congruence. Qed.

Lemma phase_eqb_refl (a : Phase) : phase_eqb a a = true.
Proof. destruct a; reflexivity. Qed.

Lemma phase_eqb_neq (a b : Phase) : phase_eqb a b = false <-> a <> b.
Proof. destruct a, b; simpl; split; congruence. Qed.

Lemma phase_name_inj (a b : Phase) : phase_name a = phase_name b -> a = b.
Proof. destruct a, b; simpl; intro H; try reflexivity; discriminate H. Qed.

(* ------------------------------------------------------------------ *)
(** ** Classifier *)

(** Each test of the [if]/[elif] chain decides its rule. *)
Lemma ground_test th vz hv alt :
  (Qabs vz <? ground_vel th) && (Qabs hv <? ground_vel th)
    && (alt <? altitude_min th) = true <-> ground_rule th vz hv alt.
Proof.
  unfold ground_rule. rewrite !andb_true_iff, !Qltb_lt. tauto.
Qed.

Lemma cruising_test th vz hv alt :
  (hv >? cruise_vel th) && (alt >=? altitude_min th) = true
  <-> cruising_rule th vz hv alt.
Proof.
  unfold cruising_rule. rewrite andb_true_iff, Qgtb_gt, Qgeb_ge. tauto.
Qed.

Lemma hovering_test th vz hv alt :
  (Qabs vz <? ground_vel th) && (alt >=? altitude_min th) = true
  <-> hovering_rule th vz hv alt.
Proof.
  unfold hovering_rule. rewrite andb_true_iff, Qltb_lt, Qgeb_ge. tauto.
Qed.

Lemma not_true_false (b : bool) (P : Prop) : (b = true <-> P) -> b = false -> ~ P.
Proof. intros H E HP. apply H in HP. congruence. Qed.

Lemma classify_phase_matches th vz hv alt :
  first_match th vz hv alt rules (classify_phase vz hv alt th).
Proof.
  unfold classify_phase, rules.
  destruct ((Qabs vz <? ground_vel th) && (Qabs hv <? ground_vel th)
            && (alt <? altitude_min th)) eqn:E1.
  { apply fm_here. now apply ground_test. }
  apply fm_later; [exact (not_true_false _ _ (ground_test th vz hv alt) E1)|].
  destruct ((hv >? cruise_vel th) && (alt >=? altitude_min th)) eqn:E2.
  { apply fm_here. now apply cruising_test. }
  apply fm_later; [exact (not_true_false _ _ (cruising_test th vz hv alt) E2)|].
  destruct (vz >? descend_vz th) eqn:E3.
  { apply fm_here. now apply Qgtb_gt. }
  apply fm_later; [exact (not_true_false _ _ (Qgtb_gt vz (descend_vz th)) E3)|].
  destruct (vz <? climb_vz th) eqn:E4.
  { apply fm_here. now apply Qltb_lt. }
  apply fm_later; [exact (not_true_false _ _ (Qltb_lt vz (climb_vz th)) E4)|].
  destruct ((Qabs vz <? ground_vel th) && (alt >=? altitude_min th)) eqn:E5.
  { apply fm_here. now apply hovering_test. }
  apply fm_later; [exact (not_true_false _ _ (hovering_test th vz hv alt) E5)|].
  apply fm_none.
Qed.

Lemma first_match_functional th vz hv alt rs l1 l2 :
  first_match th vz hv alt rs l1 -> first_match th vz hv alt rs l2 -> l1 = l2.
Proof.
  intros H1. revert l2.
  induction H1 as [|P l rs HP|P l rs l' HnP H1 IH]; intros l2 H2;
    inversion H2; subst; try reflexivity; try contradiction.
  now apply IH.
Qed.

(** The backend's [np.select] column and the script's function agree. *)
Lemma raw_phase_classify (r : Row) :
  raw_phase r = classify_phase (vz r) (horizontal_velocity r) (altitude r) thresholds.
Proof.
  unfold raw_phase, classify_phase, conditions, choices, np_select.
  repeat match goal with |- context [if ?b then _ else _] => destruct b end;
    reflexivity.
Qed.

(** The Ground and Cruising rules exclude each other, whatever the
    thresholds: both compare the altitude with the same bound. *)
Lemma ground_cruising_disjoint th vz hv alt :
  ground_rule th vz hv alt -> cruising_rule th vz hv alt -> False.
Proof.
  unfold ground_rule, cruising_rule. intros (_ & _ & H1) (_ & H2).
  exact (Qlt_not_le _ _ H1 H2).
Qed.

(** C3.  The classifier is a total function of (vz, horizontal_velocity,
    altitude): at every input there is exactly one label that the ordered
    rule list Ground, Cruising, Descending, Climbing, Hovering yields under
    first-match-wins (Unknown when no rule holds), it is the one
    [classify_phase] returns, the backend's [np.select] column returns the
    same label, and an input that satisfies the Ground rule is classified
    Ground whichever later rules it satisfies as well; this covers the
    inputs that satisfy the Ground and the Cruising rule together. *)
Theorem classify_phase_first_match_total :
  forall (th : Thresholds) (z_velocity hv alt : Q),
    (forall l, first_match th z_velocity hv alt rules l
               <-> l = classify_phase z_velocity hv alt th)
    /\ (forall r : Row,
          raw_phase r
          = classify_phase (vz r) (horizontal_velocity r) (altitude r) thresholds)
    /\ (ground_rule th z_velocity hv alt ->
        classify_phase z_velocity hv alt th = Ground).
Proof.
  intros th v hv alt.
  assert (G : ground_rule th v hv alt -> classify_phase v hv alt th = Ground).
  { intro H. apply ground_test in H. unfold classify_phase. now rewrite H. }
  split; [|split].
  - intro l. split.
    + intro H. exact (first_match_functional th v hv alt rules l _ H (classify_phase_matches th v hv alt)).
    + intros ->. apply classify_phase_matches.
  - apply raw_phase_classify.
  - exact G.
Qed.

Lemma classify_phase_first_match_total_witness :
  ground_rule loose_ground 0.5 0 0
  /\ descending_rule loose_ground 0.5 0 0
  /\ classify_phase 0.5 0 0 loose_ground = Ground.
Proof.
  split; [|split].
  - unfold ground_rule; simpl. repeat split; reflexivity.
  - unfold descending_rule; simpl. reflexivity.
  - apply (classify_phase_first_match_total loose_ground 0.5 0 0).
    unfold ground_rule; simpl. repeat split; reflexivity.
Defined.

(* ------------------------------------------------------------------ *)
(** ** Time normaliser and aligner *)


(** The first sample of a series is at time 0. *)
Lemma seconds_since_first (t0 : Z) : seconds_since t0 t0 == 0.
Proof. unfold seconds_since, u64. rewrite Z.sub_diag. reflexivity. Qed.











(** Whatever the order of its keys, a frame with a row offers a candidate to
    every left row: the merge leaves no battery column empty. *)
Lemma asof_nearest_some {A : Type} (right : list (Timed A)) (t : Q) :
  right <> [] -> exists b, asof_nearest right t = Some b.
Proof.
  destruct right as [|b bs]; [congruence|]. intros _.
  unfold asof_nearest. cbn [asof_backward asof_forward].
  destruct (at_time b <=? t) eqn:E.
  - destruct (asof_backward bs t) as [b'|];
      destruct (if at_time b >=? t then Some b else asof_forward bs t) as [f|];
      try (eexists; reflexivity).
    + destruct (t - at_time b' <=? at_time f - t); eexists; reflexivity.
    + destruct (t - at_time b <=? at_time f - t); eexists; reflexivity.
  - assert (E' : (at_time b >=? t) = true).
    { bool_to_order. apply Qgeb_ge. lra. }
    rewrite E'. eexists; reflexivity.
Qed.

Lemma sort_values_nonempty {A : Type} (l : list (Timed A)) :
  l <> [] -> sort_values l <> [].
Proof.
  destruct l as [|x xs]; [congruence|]. intros _. simpl.
  destruct (sort_values xs) as [|y ys]; simpl; [discriminate|].
  destruct (at_time x <=? at_time y); discriminate.
Qed.

Lemma matched_merge_total {A B : Type} (left : list (Timed A)) (right : list (Timed B)) :
  right <> [] -> exists rows, matched (merge_asof left right) = Return rows.
Proof.
  intro Hne. induction left as [|l ls IH].
  - now exists [].
  - destruct (asof_nearest_some right (at_time l) Hne) as (b & Hb).
    destruct IH as (rows & Hrows).
    change (merge_asof (l :: ls) right)
      with ((l, asof_nearest right (at_time l)) :: merge_asof ls right).
    rewrite Hb. cbn [matched]. rewrite Hrows. now exists ((l, b) :: rows).
Qed.

(** The aligner returns its rows as soon as both series have a sample. *)
Lemma aligned_total (vehicle_position : list PositionSample)
    (battery_status : list BatterySample) :
  vehicle_position <> [] -> battery_status <> [] ->
  exists rows, aligned vehicle_position battery_status = Return rows.
Proof.
  intros Hp Hb. unfold aligned, time_column.
  destruct vehicle_position as [|p ps]; [congruence|].
  destruct battery_status as [|b bs]; [congruence|].
  cbn [iloc_first bind]. apply matched_merge_total.
  apply sort_values_nonempty. discriminate.
Qed.



(* ------------------------------------------------------------------ *)
(** ** Consolidator *)

Lemma Qgeb_comp (x y thr : Q) : x == y -> (x >=? thr) = (y >=? thr).
Proof. intro H. unfold Qgeb, Qleb. now rewrite H. Qed.

Lemma fold_consolidate_step (thr last_time : Q) (rows : list PhaseRow) (st : Accum) :
  flush thr last_time (fold_left (consolidate_step thr) rows st)
  = consolidated st
    ++ open_segments thr last_time (current_phase st) (start_time st)
         (total_time st) rows.
Proof.
  revert st. induction rows as [|r rest IH]; intro st; simpl.
  - unfold flush, seg_if. destruct (total_time st >=? thr);
      [reflexivity|now rewrite app_nil_r].
  - rewrite IH. unfold consolidate_step.
    destruct (phase_eqb (pr_raw_phase r) (current_phase st)); simpl; [reflexivity|].
    unfold seg_if. destruct (total_time st >=? thr); simpl.
    + now rewrite <- app_assoc.
    + reflexivity.
Qed.

Lemma consolidate_phases_open (r : PhaseRow) (rest : list PhaseRow) (thr : Q) (last : PhaseRow) :
  iloc_last (r :: rest) = Return last ->
  consolidate_phases (r :: rest) thr
  = Return (open_segments thr (pr_time last) (pr_raw_phase r) (pr_time r) 0 (r :: rest)).
Proof.
  intro Hl. unfold consolidate_phases.
  cbn [iloc_first bind]. rewrite Hl. cbn [bind]. f_equal.
  exact (fold_consolidate_step thr (pr_time last) (r :: rest) _).
Qed.

Lemma label_runs_head (df : list PhaseRow) :
  match label_runs df with
  | [] => df = []
  | [] :: _ => False
  | (r :: _) :: _ => exists rest, df = r :: rest
  end.
Proof.
  induction df as [|r rest IH]; simpl; [reflexivity|].
  destruct (label_runs rest) as [|[|r' run] runs].
  - now exists rest.
  - contradiction.
  - destruct (phase_eqb (pr_raw_phase r) (pr_raw_phase r')); now exists rest.
Qed.

Lemma label_runs_concat (df : list PhaseRow) : List.concat (label_runs df) = df.
Proof.
  induction df as [|r rest IH]; simpl; [reflexivity|].
  pose proof (label_runs_head rest) as Hh.
  destruct (label_runs rest) as [|[|r' run] runs].
  - subst rest. reflexivity.
  - contradiction.
  - destruct (phase_eqb (pr_raw_phase r) (pr_raw_phase r')); simpl in *; now rewrite IH.
Qed.

Lemma label_runs_maximal (df : list PhaseRow) : runs_maximal (label_runs df).
Proof.
  induction df as [|r rest IH]; simpl; [exact I|].
  destruct (label_runs rest) as [|[|r' run] runs] eqn:E.
  - simpl. repeat split. repeat constructor.
  - simpl in IH. contradiction.
  - destruct (phase_eqb (pr_raw_phase r) (pr_raw_phase r')) eqn:Ep.
    + apply phase_eqb_eq in Ep. simpl in IH. destruct IH as (Hu & Hn & Hm).
      simpl. split; [|split; [|exact Hm]].
      * constructor; [reflexivity|].
        eapply Forall_impl; [|exact Hu]. intros a Ha. simpl in Ha. congruence.
      * destruct runs as [|[|r2 ?] ?]; try exact I. congruence.
    + apply phase_eqb_neq in Ep.
      change (runs_maximal ([r] :: (r' :: run) :: runs)).
      cbn [runs_maximal]. split; [repeat constructor|].
      split; [congruence|exact IH].
Qed.

Lemma seg_if_comp (thr T T' : Q) (p : Phase) (s e : Q) :
  T == T' -> seg_if thr T p s e = seg_if thr T' p s e.
Proof. intro H. unfold seg_if. now rewrite (Qgeb_comp T T' thr H). Qed.

Lemma surviving_cons (thr : Q) (run : list PhaseRow) (seg : Segment)
    (rs : list (list PhaseRow * Segment)) :
  surviving thr ((run, seg) :: rs)
  = (if run_duration run >=? thr then [seg] else []) ++ surviving thr rs.
Proof.
  unfold surviving. simpl. destruct (run_duration run >=? thr); reflexivity.
Qed.

(** The loop, read through the runs of the rows it still has to visit: the
    first of them continues the open run when it carries its label. *)
Lemma open_segments_runs (thr L : Q) (rows : list PhaseRow) :
  forall (p : Phase) (s T : Q),
    open_segments thr L p s T rows
    = match label_runs rows with
      | (r :: run) :: runs =>
          if phase_eqb (pr_raw_phase r) p
          then seg_if thr (T + run_duration (r :: run)) p s (next_start L runs)
               ++ surviving thr (run_segments L runs)
          else seg_if thr T p s (pr_time r)
               ++ surviving thr (run_segments L ((r :: run) :: runs))
      | _ => seg_if thr T p s L
      end.
Proof.
  induction rows as [|r rest IH]; intros p s T; [reflexivity|].
  cbn [open_segments label_runs].
  pose proof (label_runs_head rest) as Hh.
  destruct (label_runs rest) as [|[|r' run] runs] eqn:E.
  - subst rest. cbn [open_segments].
    destruct (phase_eqb (pr_raw_phase r) p) eqn:Ep.
    + cbn [run_segments surviving filter map next_start]. rewrite app_nil_r.
      apply seg_if_comp. unfold run_duration. cbn [map Qsum fold_right]. lra.
    + cbn [run_segments next_start]. rewrite surviving_cons.
      unfold surviving at 1. cbn [filter map]. rewrite app_nil_r.
      f_equal.
      change (seg_if thr (pr_time_delta r) (pr_raw_phase r) (pr_time r) L
              = seg_if thr (run_duration [r]) (pr_raw_phase r) (pr_time r) L).
      apply seg_if_comp. unfold run_duration. cbn [map Qsum fold_right]. lra.
  - contradiction.
  - destruct (phase_eqb (pr_raw_phase r) p) eqn:Ep.
    + rewrite IH. apply phase_eqb_eq in Ep.
      destruct (phase_eqb (pr_raw_phase r) (pr_raw_phase r')) eqn:Er.
      * apply phase_eqb_eq in Er.
        assert (Hp : phase_eqb (pr_raw_phase r') p = true)
          by (apply phase_eqb_eq; congruence).
        rewrite Hp. rewrite <- Ep, phase_eqb_refl. f_equal.
        apply seg_if_comp. unfold run_duration. cbn [map Qsum fold_right]. lra.
      * apply phase_eqb_neq in Er.
        assert (Hp : phase_eqb (pr_raw_phase r') p = false)
          by (apply phase_eqb_neq; congruence).
        rewrite Hp. rewrite <- Ep, phase_eqb_refl.
        cbn [next_start]. f_equal.
        apply seg_if_comp. unfold run_duration. cbn [map Qsum fold_right]. lra.
    + rewrite IH. f_equal.
      destruct (phase_eqb (pr_raw_phase r) (pr_raw_phase r')) eqn:Er.
      * rewrite Ep. assert (Hp : phase_eqb (pr_raw_phase r') (pr_raw_phase r) = true).
        { apply phase_eqb_eq. apply phase_eqb_eq in Er. congruence. }
        rewrite Hp. cbn [run_segments]. rewrite surviving_cons. reflexivity.
      * rewrite Ep. assert (Hp : phase_eqb (pr_raw_phase r') (pr_raw_phase r) = false).
        { apply phase_eqb_neq. apply phase_eqb_neq in Er. congruence. }
        rewrite Hp. cbn [run_segments]. rewrite !surviving_cons.
        cbn [next_start].
        change (if run_duration [r] >=? thr
                then [(pr_raw_phase r, pr_time r, pr_time r')] else [])
          with (seg_if thr (run_duration [r]) (pr_raw_phase r) (pr_time r) (pr_time r')).
        rewrite (seg_if_comp thr (pr_time_delta r) (run_duration [r])); [reflexivity|].
        unfold run_duration. cbn [map Qsum fold_right]. lra.
Qed.

Lemma iloc_last_cons {A : Type} (l : list A) (x : A) :
  iloc_last l = Return x -> exists y ys, l = y :: ys.
Proof. destruct l as [|y ys]; [discriminate|]. intros _. now exists y, ys. Qed.

Lemma iloc_last_total {A : Type} (l : list A) :
  l <> [] -> exists x, iloc_last l = Return x.
Proof.
  induction l as [|a l IH]; [congruence|]. intros _.
  destruct l as [|b l'].
  - now exists a.
  - destruct IH as (x & Hx); [discriminate|]. now exists x.
Qed.

(** The consolidator returns, in order, the segments of the runs whose
    accumulated duration meets the threshold, and nothing else. *)
Lemma consolidate_phases_runs (df : list PhaseRow) (thr : Q) (last : PhaseRow) :
  iloc_last df = Return last ->
  consolidate_phases df thr
  = Return (surviving thr (run_segments (pr_time last) (label_runs df))).
Proof.
  intro Hl. destruct (iloc_last_cons df last Hl) as (r & rest & ->).
  rewrite (consolidate_phases_open r rest thr last Hl). f_equal.
  rewrite open_segments_runs.
  pose proof (label_runs_head (r :: rest)) as Hh.
  destruct (label_runs (r :: rest)) as [|[|r0 run] runs]; [discriminate|contradiction|].
  destruct Hh as (rest0 & Hh). injection Hh as <- _.
  rewrite phase_eqb_refl. cbn [run_segments]. rewrite surviving_cons. f_equal.
  change (if run_duration (r :: run) >=? thr
          then [(pr_raw_phase r, pr_time r, next_start (pr_time last) runs)] else [])
    with (seg_if thr (run_duration (r :: run)) (pr_raw_phase r) (pr_time r)
            (next_start (pr_time last) runs)).
  apply seg_if_comp. lra.
Qed.

Lemma run_segments_in (L : Q) (runs : list (list PhaseRow)) (run : list PhaseRow) (seg : Segment) :
  In (run, seg) (run_segments L runs) ->
  exists r rest, run = r :: rest /\ In run runs
                 /\ seg_start seg = pr_time r /\ seg_phase seg = pr_raw_phase r.
Proof.
  induction runs as [|x xs IH]; simpl; [contradiction|].
  destruct x as [|r rest].
  - intro H. destruct (IH H) as (r & rest & -> & Hin & Hs). exists r, rest. tauto.
  - intros [H|H].
    + injection H as <- <-. exists r, rest. repeat split. now left.
    + destruct (IH H) as (r1 & rest1 & -> & Hin & Hs). exists r1, rest1. tauto.
Qed.

Lemma surviving_in (thr : Q) (rs : list (list PhaseRow * Segment)) (seg : Segment) :
  In seg (surviving thr rs) <->
  exists run, In (run, seg) rs /\ thr <= run_duration run.
Proof.
  unfold surviving. rewrite in_map_iff. split.
  - intros ([run s] & <- & H). apply filter_In in H. destruct H as [H1 H2].
    exists run. simpl in *. split; [exact H1|]. now apply Qgeb_ge.
  - intros (run & H1 & H2). exists (run, seg). split; [reflexivity|].
    apply filter_In. split; [exact H1|]. simpl. now apply Qgeb_ge.
Qed.

(** With strictly increasing times, two runs that start at the same time
    are one and the same. *)
Lemma run_segments_start_inj (L : Q) (runs : list (list PhaseRow)) :
  increasing_times (List.concat runs) ->
  forall run1 seg1 run2 seg2,
    In (run1, seg1) (run_segments L runs) ->
    In (run2, seg2) (run_segments L runs) ->
    seg_start seg1 == seg_start seg2 -> run1 = run2.
Proof.
  unfold increasing_times.
  induction runs as [|x xs IH]; simpl; intros Hs run1 seg1 run2 seg2 H1 H2 Heq;
    [contradiction|].
  assert (Hxs : StronglySorted (fun a b => pr_time a < pr_time b) (List.concat xs)).
  { clear - Hs. induction x as [|a x IHx]; simpl in Hs; [exact Hs|].
    inversion Hs; subst. now apply IHx. }
  destruct x as [|r rest]; [now apply (IH Hxs run1 seg1 run2 seg2)|].
  assert (Hlater : forall run seg, In (run, seg) (run_segments L xs) ->
                                   pr_time r < seg_start seg).
  { intros run seg H. destruct (run_segments_in L xs run seg H) as (r' & rest' & -> & Hin & -> & _).
    simpl in Hs. inversion Hs as [|? ? _ Hall]; subst.
    rewrite Forall_forall in Hall. apply Hall.
    apply in_or_app. right. apply in_concat. exists (r' :: rest'). split; [exact Hin|now left]. }
  destruct H1 as [H1|H1], H2 as [H2|H2].
  - congruence.
  - injection H1 as <- <-. specialize (Hlater run2 seg2 H2).
    unfold seg_start in *. simpl in *. lra.
  - injection H2 as <- <-. specialize (Hlater run1 seg1 H1).
    unfold seg_start in *. simpl in *. lra.
  - now apply (IH Hxs run1 seg1 run2 seg2).
Qed.

(** C5.  For every non-empty row sequence and every threshold, the
    consolidator returns exactly the segments of the maximal label runs whose
    accumulated time_delta is at least the threshold, in the order of the
    runs; so, on a sequence with increasing times, the segment of a run whose
    accumulated time_delta is strictly below the threshold is not in the
    output.  (The bound 0 <= threshold of the claim is not needed.) *)
Theorem consolidate_phases_threshold :
  forall (df : list PhaseRow) (time_threshold : Q) (last : PhaseRow),
    iloc_last df = Return last ->
    exists segs,
      consolidate_phases df time_threshold = Return segs
      /\ segs = surviving time_threshold (run_segments (pr_time last) (label_runs df))
      /\ (increasing_times df ->
          forall run seg,
            In (run, seg) (run_segments (pr_time last) (label_runs df)) ->
            run_duration run < time_threshold ->
            ~ In seg segs).
Proof.
  intros df thr last Hl.
  exists (surviving thr (run_segments (pr_time last) (label_runs df))).
  split; [exact (consolidate_phases_runs df thr last Hl)|].
  split; [reflexivity|].
  intros Hs run seg Hin Hlt Hseg.
  apply surviving_in in Hseg. destruct Hseg as (run' & Hin' & Hge).
  rewrite <- (label_runs_concat df) in Hs.
  assert (run = run').
  { apply (run_segments_start_inj (pr_time last) (label_runs df) Hs run seg run' seg Hin Hin').
    reflexivity. }
  subst run'. lra.
Qed.

Lemma consolidate_phases_threshold_witness :
  exists segs,
    consolidate_phases climb_with_flicker 1 = Return segs
    /\ segs = [(Climbing, 1, 2.5); (Climbing, 3.5, 4.5)]
    /\ ~ In (Unknown, 2.5, 3.5) segs.
Proof.
  destruct (consolidate_phases_threshold climb_with_flicker 1
              {| pr_time := 4.5; pr_raw_phase := Climbing; pr_time_delta := 1 |}
              eq_refl)
    as (segs & Hc & Hs & Hout).
  exists segs. split; [exact Hc|]. split; [rewrite Hs; reflexivity|].
  apply (Hout ltac:(repeat constructor)
              [ {| pr_time := 2.5; pr_raw_phase := Unknown; pr_time_delta := 0.5 |} ]).
  - simpl. right. left. reflexivity.
  - reflexivity.
Defined.

(* ------------------------------------------------------------------ *)
(** ** The rows that survive the filter *)

Lemma insert_by_time_sorted {A : Type} (x : Timed A) (l : list (Timed A)) :
  StronglySorted time_le l -> StronglySorted time_le (insert_by_time x l).
Proof.
  induction 1 as [|y ys Hs IH Hy]; simpl.
  - repeat constructor.
  - destruct (at_time x <=? at_time y) eqn:E; bool_to_order.
    + constructor; [now constructor|].
      constructor; [exact E|].
      eapply Forall_impl; [|exact Hy]. unfold time_le. intros a Ha. lra.
    + constructor; [exact IH|].
      assert (Hin : forall a, In a (insert_by_time x ys) -> a = x \/ In a ys).
      { clear. induction ys as [|b bs IHb]; simpl; intros a Ha.
        - destruct Ha as [<-|[]]. now left.
        - destruct (at_time x <=? at_time b); simpl in Ha.
          + destruct Ha as [<-|Ha]; [now left|now right].
          + destruct Ha as [<-|Ha]; [right; now left|].
            destruct (IHb a Ha); [now left|right; now right]. }
      rewrite Forall_forall in *. intros a Ha.
      destruct (Hin a Ha) as [->|Ha']; [unfold time_le; lra|now apply Hy].
Qed.

Lemma sort_values_is_sorted {A : Type} (l : list (Timed A)) :
  StronglySorted time_le (sort_values l).
Proof.
  induction l as [|x xs IH]; simpl; [constructor|].
  now apply insert_by_time_sorted.
Qed.

Lemma matched_fst {A B : Type} (l : list (A * option B)) (rows : list (A * B)) :
  matched l = Return rows -> map fst rows = map fst l.
Proof.
  revert rows. induction l as [|[a [b|]] rest IH]; intros rows H; simpl in H.
  - injection H as <-. reflexivity.
  - destruct (matched rest) as [e|rs]; simpl in H; [discriminate|].
    injection H as <-. simpl. f_equal. now apply IH.
  - discriminate.
Qed.

Lemma merge_asof_fst {A B : Type} (left : list (Timed A)) (right : list (Timed B)) :
  map fst (merge_asof left right) = left.
Proof. unfold merge_asof. rewrite map_map. simpl. apply map_id. Qed.

(** The rows of the merge come in the order of their times. *)
Lemma aligned_sorted (vehicle_position : list PositionSample)
    (battery_status : list BatterySample)
    (merged : list (Timed PositionSample * Timed BatterySample)) :
  aligned vehicle_position battery_status = Return merged ->
  StronglySorted time_le (map fst merged).
Proof.
  unfold aligned. intro H.
  destruct (time_column p_timestamp vehicle_position) as [e|dfp]; [discriminate|].
  destruct (time_column b_timestamp battery_status) as [e|dfb]; [discriminate|].
  simpl in H. apply matched_fst in H. rewrite merge_asof_fst in H.
  rewrite H. apply sort_values_is_sorted.
Qed.

Lemma positive_delta_derive_from (np_sqrt : Q -> Q)
    (l : list (Timed PositionSample * Timed BatterySample)) :
  StronglySorted time_le (map fst l) ->
  forall p, Forall (fun m => p <= at_time (fst m)) l ->
    let df := positive_delta (derive_from np_sqrt (Some p) l) in
    surviving_rows df /\ Forall (fun r => p < time r) df.
Proof.
  induction l as [|m rest IH]; intros Hs p Hp; cbn zeta.
  - repeat split; constructor.
  - simpl in Hs. inversion Hs as [|? ? Hs' Hm]; subst.
    inversion Hp as [|? ? Hpm Hprest]; subst.
    rewrite Forall_map in Hm. unfold time_le in Hm.
    destruct (IH Hs' (at_time (fst m)) Hm) as ((Hsort & Hpos) & Hlater).
    cbn [derive_from positive_delta filter].
    fold (positive_delta (derive_from np_sqrt (Some (at_time (fst m))) rest)).
    destruct (time_delta (derive_row np_sqrt (Some p) m) >? 0) eqn:E.
    + bool_to_order. simpl in E.
      repeat split.
      * constructor; [exact Hsort|].
        eapply Forall_impl; [|exact Hlater]. intros r Hr. unfold row_time_lt. simpl. exact Hr.
      * constructor; [exact E|exact Hpos].
      * constructor; [simpl; lra|].
        eapply Forall_impl; [|exact Hlater]. intros r Hr. simpl in Hr. lra.
    + repeat split; try assumption.
      eapply Forall_impl; [|exact Hlater]. intros r Hr. simpl in Hr. lra.
Qed.

Lemma df_combined_surviving (np_sqrt : Q -> Q)
    (vehicle_position : list PositionSample) (battery_status : list BatterySample)
    (df : list Row) :
  df_combined np_sqrt vehicle_position battery_status = Return df ->
  surviving_rows df.
Proof.
  unfold df_combined. intro H.
  destruct (aligned vehicle_position battery_status) as [e|merged] eqn:Ea;
    simpl in H; [discriminate|].
  injection H as <-. apply aligned_sorted in Ea.
  unfold derive. destruct merged as [|m rest]; [split; constructor|].
  simpl in Ea. inversion Ea as [|? ? Hs Hm]; subst.
  rewrite Forall_map in Hm. unfold time_le in Hm.
  cbn [derive_from positive_delta filter].
  assert (E : (time_delta (derive_row np_sqrt None m) >? 0) = false) by reflexivity.
  rewrite E.
  exact (proj1 (positive_delta_derive_from np_sqrt rest Hs (at_time (fst m)) Hm)).
Qed.

(* ------------------------------------------------------------------ *)
(** ** Zero-delta exclusion *)




(* ------------------------------------------------------------------ *)
(** ** The shape of a run that returns a report *)

Lemma analyse_inv (df : list Row) (report : list ReportRecord) :
  analyse df = Return report ->
  exists segs tt aggs,
    consolidate_phases (map phase_row df) 1.0 = Return segs
    /\ flight_time df = Return tt
    /\ groupby_agg (map (phase_datum df (avg_mAh_per_s_non_ground df) tt) segs)
       = Return aggs
    /\ report = map PhaseRecord aggs
                ++ [SummaryRecord (summary_data (total_mAh df) tt)].
Proof.
  unfold analyse. intro H.
  destruct (consolidate_phases (map phase_row df) 1.0) as [e|segs]; [discriminate|].
  cbn [bind] in H.
  destruct (flight_time df) as [e|tt]; [discriminate|]. cbn [bind] in H.
  destruct (groupby_agg (map (phase_datum df (avg_mAh_per_s_non_ground df) tt) segs))
    as [e|aggs] eqn:Eg; [discriminate|].
  cbn [bind] in H. injection H as <-.
  exists segs, tt, aggs. repeat split. exact Eg.
Qed.

Lemma process_ulog_inv (np_sqrt : Q -> Q) (vehicle_position : list PositionSample)
    (battery_status : list BatterySample) (report : list ReportRecord) :
  process_ulog np_sqrt vehicle_position battery_status = Return report ->
  exists df, df_combined np_sqrt vehicle_position battery_status = Return df
             /\ analyse df = Return report.
Proof.
  unfold process_ulog. intro H.
  destruct (df_combined np_sqrt vehicle_position battery_status) as [e|df];
    [discriminate|].
  exists df. split; [reflexivity|exact H].
Qed.

Lemma groupby_agg_inv (phase_data : list PhaseDatum) (aggs : list PhaseAggregate) :
  groupby_agg phase_data = Return aggs ->
  phase_data <> [] /\ aggs = flat_map (group_records phase_data) group_keys.
Proof.
  unfold groupby_agg. destruct phase_data; [discriminate|].
  intro H. injection H as <-. split; [discriminate|reflexivity].
Qed.

Lemma group_records_in (phase_data : list PhaseDatum) (p : Phase) (a : PhaseAggregate) :
  In a (group_records phase_data p) <->
  group_of p phase_data <> [] /\ a = agg p (group_of p phase_data).
Proof.
  unfold group_records. destruct (group_of p phase_data) as [|d g]; simpl.
  - split; [contradiction|]. intros [H _]. congruence.
  - split.
    + intros [<-|[]]. split; [discriminate|reflexivity].
    + intros [_ ->]. now left.
Qed.

Lemma group_of_nonempty (phase_data : list PhaseDatum) (p : Phase) :
  group_of p phase_data <> [] <-> In p (map d_phase phase_data).
Proof.
  unfold group_of. induction phase_data as [|d ds IH]; simpl.
  - split; [congruence|contradiction].
  - destruct (phase_eqb (d_phase d) p) eqn:E.
    + apply phase_eqb_eq in E. split; [now left|discriminate].
    + apply phase_eqb_neq in E. rewrite IH. split; [now right|].
      intros [H|H]; [contradiction|exact H].
Qed.

Lemma group_keys_complete (p : Phase) : In p group_keys.
Proof. destruct p; simpl; tauto. Qed.

(** The keys are listed in the ascending order of their strings, which is
    the order of the groups. *)
Lemma group_keys_ascending :
  StronglySorted (fun a b => String.ltb (phase_name a) (phase_name b) = true)
    group_keys.
Proof. repeat constructor. Qed.

Lemma group_keys_nodup : NoDup group_keys.
Proof. repeat constructor; simpl; intuition discriminate. Qed.

Lemma flat_map_group_labels (phase_data : list PhaseDatum) (keys : list Phase) :
  NoDup keys ->
  NoDup (map Phase_label (flat_map (group_records phase_data) keys))
  /\ forall a, In a (flat_map (group_records phase_data) keys) ->
               exists p, In p keys /\ Phase_label a = phase_name p.
Proof.
  induction 1 as [|k ks Hk Hnd IH]; simpl.
  - split; [constructor|contradiction].
  - destruct IH as [IH1 IH2].
    assert (Hlab : forall a, In a (group_records phase_data k) ->
                             Phase_label a = phase_name k).
    { intros a Ha. apply group_records_in in Ha. destruct Ha as [_ ->]. reflexivity. }
    split.
    + rewrite map_app. unfold group_records in *.
      destruct (group_of k phase_data) as [|d g]; simpl; [exact IH1|].
      constructor; [|exact IH1].
      intro Hin. apply in_map_iff in Hin. destruct Hin as (a & Ea & Ha).
      destruct (IH2 a Ha) as (p & Hp & Elab).
      rewrite Elab in Ea. apply phase_name_inj in Ea. congruence.
    + intros a Ha. apply in_app_or in Ha. destruct Ha as [Ha|Ha].
      * exists k. split; [now left|now apply Hlab].
      * destruct (IH2 a Ha) as (p & Hp & E). exists p. split; [now right|exact E].
Qed.

Lemma phase_name_not_summary (p : Phase) :
  phase_name p <> "Total Flight Summary"%string.
Proof. destruct p; discriminate. Qed.

(** Rounding to two decimals stays within half a hundredth and lands on a
    multiple of a hundredth. *)
Lemma rint_close (x : Q) : Qabs (inject_Z (rint x) - x) <= 1 # 2.
Proof.
  unfold rint.
  pose proof (Qfloor_le x) as H1. pose proof (Qlt_floor x) as H2.
  rewrite inject_Z_plus in H2. change (inject_Z 1) with 1 in H2.
  destruct (x - inject_Z (Qfloor x) <? 1 # 2) eqn:E1; bool_to_order.
  - apply Qabs_Qle_condition. split; lra.
  - destruct ((1 # 2) <? x - inject_Z (Qfloor x)) eqn:E2; bool_to_order.
    + rewrite inject_Z_plus. change (inject_Z 1) with 1.
      apply Qabs_Qle_condition. split; lra.
    + destruct (Z.even (Qfloor x)).
      * apply Qabs_Qle_condition. split; lra.
      * rewrite inject_Z_plus. change (inject_Z 1) with 1.
        apply Qabs_Qle_condition. split; lra.
Qed.

Lemma round2_finite (q : Q) :
  exists (n : Z) (q' : Q),
    round2 (Finite q) = Finite q'
    /\ q' == inject_Z n / 100
    /\ Qabs (q' - q) <= 1 # 200.
Proof.
  exists (rint (q * 100)), (inject_Z (rint (q * 100)) / 100).
  split; [reflexivity|]. split; [reflexivity|].
  pose proof (rint_close (q * 100)) as H.
  apply Qabs_Qle_condition in H. apply Qabs_Qle_condition.
  destruct H as [Ha Hb]. split.
  - apply Qmult_le_r with (z := 100); [reflexivity|].
    setoid_replace ((inject_Z (rint (q * 100)) / 100 - q) * 100)
      with (inject_Z (rint (q * 100)) - q * 100) by field.
    setoid_replace (- (1 # 200) * 100) with (- (1 # 2)) by reflexivity. exact Ha.
  - apply Qmult_le_r with (z := 100); [reflexivity|].
    setoid_replace ((inject_Z (rint (q * 100)) / 100 - q) * 100)
      with (inject_Z (rint (q * 100)) - q * 100) by field.
    setoid_replace ((1 # 200) * 100) with (1 # 2) by reflexivity. exact Hb.
Qed.

(* ------------------------------------------------------------------ *)
(** ** Report assembler *)

Lemma phase_datum_labels (df : list Row) (avg : FVal) (tt : Q) (segs : list Segment) :
  map d_phase (map (phase_datum df avg tt) segs) = map seg_phase segs.
Proof. rewrite map_map. reflexivity. Qed.

Lemma groupby_labels (phase_data : list PhaseDatum) (aggs : list PhaseAggregate) (p : Phase) :
  groupby_agg phase_data = Return aggs ->
  (In (phase_name p) (map Phase_label aggs) <-> In p (map d_phase phase_data)).
Proof.
  intro H. apply groupby_agg_inv in H. destruct H as [_ ->].
  rewrite <- group_of_nonempty. split.
  - intro Hin. apply in_map_iff in Hin. destruct Hin as (a & Ea & Ha).
    apply in_flat_map in Ha. destruct Ha as (k & _ & Ha).
    apply group_records_in in Ha. destruct Ha as [Hne ->]. simpl in Ea.
    apply phase_name_inj in Ea. now subst k.
  - intro Hne. apply in_map_iff. exists (agg p (group_of p phase_data)).
    split; [reflexivity|]. apply in_flat_map. exists p.
    split; [apply group_keys_complete|]. now apply group_records_in.
Qed.

(** The shape of every report the run returns. *)
Lemma report_shape (np_sqrt : Q -> Q) (vehicle_position : list PositionSample)
    (battery_status : list BatterySample) (report : list ReportRecord) :
  process_ulog np_sqrt vehicle_position battery_status = Return report ->
  exists df segs aggs s,
    df_combined np_sqrt vehicle_position battery_status = Return df
    /\ consolidate_phases (map phase_row df) 1.0 = Return segs
    /\ segs <> []
    /\ report = map PhaseRecord aggs ++ [SummaryRecord s]
    /\ NoDup (map Phase_label aggs)
    /\ (forall p, In (phase_name p) (map Phase_label aggs)
                  <-> In p (map seg_phase segs))
    /\ (forall a, In a aggs ->
          (exists p, Phase_label a = phase_name p)
          /\ Phase_label a <> Summary_label s)
    /\ Summary_label s = "Total Flight Summary"%string
    /\ Summary_TotalDraw s = total_mAh df
    /\ flight_time df = Return (Summary_TotalTime s)
    /\ TotalDrawPerMinute s
       = round2 (fdiv (Finite (Summary_TotalDraw s))
                      (fdiv (Finite (Summary_TotalTime s)) (Finite 60)))
    /\ (forall q, fdiv (Finite (Summary_TotalDraw s))
                       (fdiv (Finite (Summary_TotalTime s)) (Finite 60)) = Finite q ->
          exists (n : Z) (q' : Q),
            TotalDrawPerMinute s = Finite q'
            /\ q' == inject_Z n / 100 /\ Qabs (q' - q) <= 1 # 200).
Proof.
  intro H.
  destruct (process_ulog_inv np_sqrt vehicle_position battery_status report H)
    as (df & Hdf & Han).
  destruct (analyse_inv df report Han) as (segs & tt & aggs & Hc & Ht & Hg & ->).
  exists df, segs, aggs, (summary_data (total_mAh df) tt).
  pose proof (groupby_agg_inv _ _ Hg) as [Hdata Haggs].
  pose proof (flat_map_group_labels
                (map (phase_datum df (avg_mAh_per_s_non_ground df) tt) segs)
                group_keys group_keys_nodup) as [Hnd Hlab].
  rewrite <- Haggs in Hnd, Hlab.
  split; [exact Hdf|]. split; [exact Hc|].
  split; [intros ->; now apply Hdata|].
  split; [reflexivity|]. split; [exact Hnd|].
  split; [|split; [|split; [|split; [|split; [|split]]]]];
    try reflexivity; try assumption.
  - intro p. rewrite (groupby_labels _ _ p Hg). now rewrite phase_datum_labels.
  - intros a Ha. destruct (Hlab a Ha) as (p & _ & E). split; [now exists p|].
    rewrite E. simpl. apply phase_name_not_summary.
  - intros q Hq. cbn [summary_data TotalDrawPerMinute Summary_TotalDraw Summary_TotalTime] in *.
    rewrite Hq. apply round2_finite.
Qed.

(** A report is returned as soon as the filtered frame yields a segment. *)
Lemma analyse_returns (df : list Row) (segs : list Segment) :
  consolidate_phases (map phase_row df) 1.0 = Return segs -> segs <> [] ->
  exists report, analyse df = Return report.
Proof.
  intros Hc Hne. unfold analyse. rewrite Hc. cbn [bind].
  assert (Hdf : df <> []) by (intros ->; discriminate Hc).
  destruct (iloc_last_total df Hdf) as (last & Hl).
  unfold flight_time. rewrite Hl. cbn [bind].
  destruct df as [|first rest]; [congruence|]. cbn [iloc_first bind].
  destruct segs as [|seg segs]; [congruence|]. cbn [map groupby_agg bind].
  eexists. reflexivity.
Qed.

(** C9.  Whenever the filtered frame yields at least one consolidated phase
    segment, [process_ulog] returns a report, and a report is returned in no
    other case.  The report is a list of phase records followed by one
    summary record, which is its last element: the phase records carry
    pairwise different labels, exactly the labels of the flight's
    consolidated phase segments, none of which is the summary's label; the
    summary is labelled "Total Flight Summary", holds the flight-wide total
    draw and total duration, and its draw-per-minute is
    total draw / (total duration / 60) rounded to two decimals (a finite
    quotient is moved by at most 0.005 onto a multiple of 0.01). *)
Theorem report_structure :
  forall (np_sqrt : Q -> Q) (vehicle_position : list PositionSample)
         (battery_status : list BatterySample) (df : list Row)
         (segs : list Segment),
    df_combined np_sqrt vehicle_position battery_status = Return df ->
    consolidate_phases (map phase_row df) 1.0 = Return segs ->
    segs <> [] ->
    exists aggs s,
      process_ulog np_sqrt vehicle_position battery_status
      = Return (map PhaseRecord aggs ++ [SummaryRecord s])
      /\ List.last (map PhaseRecord aggs ++ [SummaryRecord s]) (SummaryRecord s)
         = SummaryRecord s
      /\ NoDup (map Phase_label aggs)
      /\ (forall p, In (phase_name p) (map Phase_label aggs)
                    <-> In p (map seg_phase segs))
      /\ (forall a, In a aggs ->
            (exists p, Phase_label a = phase_name p)
            /\ Phase_label a <> Summary_label s)
      /\ Summary_label s = "Total Flight Summary"%string
      /\ Summary_TotalDraw s = total_mAh df
      /\ flight_time df = Return (Summary_TotalTime s)
      /\ TotalDrawPerMinute s
         = round2 (fdiv (Finite (Summary_TotalDraw s))
                        (fdiv (Finite (Summary_TotalTime s)) (Finite 60)))
      /\ (forall q, fdiv (Finite (Summary_TotalDraw s))
                         (fdiv (Finite (Summary_TotalTime s)) (Finite 60)) = Finite q ->
            exists (n : Z) (q' : Q),
              TotalDrawPerMinute s = Finite q'
              /\ q' == inject_Z n / 100 /\ Qabs (q' - q) <= 1 # 200).
Proof.
  intros np_sqrt pos bat df segs Hdf Hc Hne.
  destruct (analyse_returns df segs Hc Hne) as (report & Han).
  assert (Hrep : process_ulog np_sqrt pos bat = Return report).
  { unfold process_ulog. rewrite Hdf. exact Han. }
  destruct (report_shape np_sqrt pos bat report Hrep)
    as (df' & segs' & aggs & s & Hdf' & Hc' & _ & -> & Hrest).
  rewrite Hdf in Hdf'. injection Hdf' as <-.
  rewrite Hc in Hc'. injection Hc' as <-.
  exists aggs, s. split; [exact Hrep|]. split; [apply last_last|exact Hrest].
Qed.

Lemma report_structure_witness :
  exists df segs aggs s,
    df_combined sqrt_micro climb_cruise_flight steady_battery = Return df
    /\ consolidate_phases (map phase_row df) 1.0 = Return segs
    /\ map seg_phase segs = [Climbing; Cruising]
    /\ process_ulog sqrt_micro climb_cruise_flight steady_battery
       = Return (map PhaseRecord aggs ++ [SummaryRecord s])
    /\ NoDup (map Phase_label aggs)
    /\ (forall p, In (phase_name p) (map Phase_label aggs)
                  <-> In p (map seg_phase segs))
    /\ Summary_label s = "Total Flight Summary"%string.
Proof.
  destruct (df_combined sqrt_micro climb_cruise_flight steady_battery) as [e|df] eqn:Edf;
    [vm_compute in Edf; discriminate|].
  destruct (consolidate_phases (map phase_row df) 1.0) as [e|segs] eqn:Ec.
  { vm_compute in Edf. injection Edf as <-. vm_compute in Ec. discriminate. }
  assert (Hsegs : map seg_phase segs = [Climbing; Cruising]).
  { vm_compute in Edf. injection Edf as <-. vm_compute in Ec. injection Ec as <-.
    reflexivity. }
  assert (Hne : segs <> []) by (intros ->; discriminate Hsegs).
  destruct (report_structure sqrt_micro climb_cruise_flight steady_battery df segs
              Edf Ec Hne)
    as (aggs & s & Hrep & _ & Hnd & Hlab & _ & Hsum & _).
  exists df, segs, aggs, s.
  split; [reflexivity|]. split; [exact Ec|]. split; [exact Hsegs|].
  split; [exact Hrep|]. split; [exact Hnd|]. split; [exact Hlab|exact Hsum].
Defined.

Lemma group_of_map (df : list Row) (avg : FVal) (tt : Q) (p : Phase) (segs : list Segment) :
  group_of p (map (phase_datum df avg tt) segs)
  = map (phase_datum df avg tt) (filter (fun seg => phase_eqb (seg_phase seg) p) segs).
Proof.
  unfold group_of. induction segs as [|seg segs IH]; simpl; [reflexivity|].
  destruct (phase_eqb (seg_phase seg) p); simpl; now rewrite IH.
Qed.

(** A phase record of the report, read back from the segments. *)
Lemma phase_record_inv (df : list Row) (report : list ReportRecord)
    (segs : list Segment) (a : PhaseAggregate) :
  analyse df = Return report ->
  consolidate_phases (map phase_row df) 1.0 = Return segs ->
  In (PhaseRecord a) report ->
  exists p tt,
    flight_time df = Return tt
    /\ a = agg p (map (phase_datum df (avg_mAh_per_s_non_ground df) tt)
                      (filter (fun seg => phase_eqb (seg_phase seg) p) segs)).
Proof.
  intros Han Hc Ha.
  destruct (analyse_inv df report Han) as (segs' & tt & aggs & Hc' & Ht & Hg & ->).
  rewrite Hc in Hc'. injection Hc' as <-.
  apply in_app_or in Ha. destruct Ha as [Ha|[Ha|[]]]; [|discriminate].
  apply in_map_iff in Ha. destruct Ha as (a' & Ea & Ha). injection Ea as ->.
  apply groupby_agg_inv in Hg. destruct Hg as [_ ->].
  apply in_flat_map in Ha. destruct Ha as (p & _ & Ha).
  apply group_records_in in Ha. destruct Ha as [_ ->].
  exists p, tt. split; [exact Ht|]. now rewrite group_of_map.
Qed.

(* ------------------------------------------------------------------ *)
(** ** Degenerate ratios *)

Lemma fdiv_nan_r (a : FVal) : fdiv a NaN = NaN.
Proof. destruct a; reflexivity. Qed.

Lemma fmean_all_nan (l : list FVal) : Forall (fun v => v = NaN) l -> fmean l = NaN.
Proof.
  intro H. unfold fmean.
  assert (E : dropna l = []).
  { unfold dropna. induction H as [|v vs Hv _ IH]; simpl; [reflexivity|].
    subst v. simpl. exact IH. }
  now rewrite E.
Qed.

Lemma non_ground_all_ground (df : list Row) :
  Forall (fun r => raw_phase r = Ground) df -> non_ground df = [].
Proof.
  unfold non_ground. induction 1 as [|r rs Hr _ IH]; simpl; [reflexivity|].
  rewrite Hr. simpl. exact IH.
Qed.

Lemma fdiv_zero_not_finite (x y : Q) :
  y == 0 -> is_finite (round2 (fdiv (Finite x) (fdiv (Finite y) (Finite 60)))) = false.
Proof.
  intro Hy. simpl.
  assert (E : Qeq_bool (y / 60) 0 = true).
  { apply Qeq_bool_iff. rewrite Hy. reflexivity. }
  rewrite E. destruct (Qeq_bool x 0); [reflexivity|].
  unfold inf_signed. destruct (0 <? x); reflexivity.
Qed.

Lemma phase_df_empty_span (df : list Row) (seg : Segment) :
  seg_end seg == seg_start seg -> phase_df df seg = [].
Proof.
  intro H. unfold phase_df. induction df as [|r rs IH]; simpl; [reflexivity|].
  destruct ((time r >=? seg_start seg) && (time r <? seg_end seg)) eqn:E;
    [|exact IH].
  bool_to_order. lra.
Qed.

Lemma zero_span_rate (df : list Row) (avg : FVal) (tt : Q) (seg : Segment) :
  seg_end seg == seg_start seg -> d_avg_dr (phase_datum df avg tt seg) = NaN.
Proof.
  intro H. cbn [phase_datum d_avg_dr]. rewrite (phase_df_empty_span df seg H).
  simpl.
  assert (E : Qeq_bool (seg_end seg - seg_start seg) 0 = true)
    by (apply Qeq_bool_iff; lra).
  now rewrite E.
Qed.

(** C4, as the code has it.  The ratios are plain float divisions and no
    marker is put in their place: on a flight whose surviving rows are all
    labelled Ground the non-ground baseline is 0/0 = NaN and the
    relative-draw percentage of every phase record of the report is NaN; a
    phase all of whose segments start and end at the same time has NaN as
    its average draw rate; on a flight whose total duration is zero the
    summary's draw-per-minute is not a finite number either. *)
Theorem degenerate_ratios_propagate :
  forall (np_sqrt : Q -> Q) (vehicle_position : list PositionSample)
         (battery_status : list BatterySample) (df : list Row)
         (report : list ReportRecord),
    df_combined np_sqrt vehicle_position battery_status = Return df ->
    process_ulog np_sqrt vehicle_position battery_status = Return report ->
    (Forall (fun r => raw_phase r = Ground) df ->
       avg_mAh_per_s_non_ground df = NaN
       /\ forall a, In (PhaseRecord a) report -> DiffofAvg a = NaN)
    /\ (forall segs a p,
          consolidate_phases (map phase_row df) 1.0 = Return segs ->
          In (PhaseRecord a) report -> Phase_label a = phase_name p ->
          (forall seg, In seg segs -> seg_phase seg = p ->
                       seg_end seg == seg_start seg) ->
          AvgDr a = NaN)
    /\ (forall tt, flight_time df = Return tt -> tt == 0 ->
        forall s, In (SummaryRecord s) report ->
                  is_finite (TotalDrawPerMinute s) = false).
Proof.
  intros np_sqrt pos bat df report Hdf H.
  destruct (process_ulog_inv np_sqrt pos bat report H) as (df' & Hdf' & Han).
  rewrite Hdf in Hdf'. injection Hdf' as <-.
  destruct (analyse_inv df report Han) as (segs & tt & aggs & Hc & Ht & Hg & Hrep).
  split; [|split].
  - intro Hall.
    assert (Havg : avg_mAh_per_s_non_ground df = NaN).
    { unfold avg_mAh_per_s_non_ground, total_mAh_non_ground, total_time_non_ground.
      rewrite (non_ground_all_ground df Hall). reflexivity. }
    split; [exact Havg|].
    intros a Ha.
    destruct (phase_record_inv df report segs a Han Hc Ha) as (p & tt' & _ & ->).
    cbn [agg DiffofAvg]. apply fmean_all_nan.
    rewrite Forall_map. apply Forall_forall. intros d Hd.
    apply in_map_iff in Hd. destruct Hd as (seg & <- & _).
    cbn [phase_datum d_diff_of_avg]. rewrite Havg, fdiv_nan_r. reflexivity.
  - intros segs' a p Hc' Ha Hlab Hspan.
    rewrite Hc in Hc'. injection Hc' as <-.
    destruct (phase_record_inv df report segs a Han Hc Ha) as (p' & tt' & _ & ->).
    cbn [agg Phase_label] in Hlab. apply phase_name_inj in Hlab. subst p'.
    cbn [agg AvgDr]. apply fmean_all_nan.
    rewrite Forall_map. apply Forall_forall. intros d Hd.
    apply in_map_iff in Hd. destruct Hd as (seg & <- & Hseg).
    apply filter_In in Hseg. destruct Hseg as [Hseg Hp].
    apply phase_eqb_eq in Hp. apply zero_span_rate. now apply Hspan.
  - intros tt' Ht' Hz s Hs. rewrite Ht in Ht'. injection Ht' as <-.
    rewrite Hrep in Hs.
    apply in_app_or in Hs. destruct Hs as [Hs|[Hs|[]]].
    + apply in_map_iff in Hs. destruct Hs as (a' & Ea & _). discriminate.
    + injection Hs as <-. cbn [summary_data TotalDrawPerMinute].
      now apply fdiv_zero_not_finite.
Qed.

Lemma degenerate_ratios_propagate_witness :
  exists df report a,
    df_combined sqrt_micro ground_flight ground_battery = Return df
    /\ process_ulog sqrt_micro ground_flight ground_battery = Return report
    /\ Forall (fun r => raw_phase r = Ground) df
    /\ In (PhaseRecord a) report
    /\ DiffofAvg a = NaN.
Proof.
  destruct (df_combined sqrt_micro ground_flight ground_battery) as [e|df] eqn:Edf;
    [vm_compute in Edf; discriminate|].
  destruct (process_ulog sqrt_micro ground_flight ground_battery) as [e|report] eqn:Er;
    [vm_compute in Er; discriminate|].
  assert (Hall : Forall (fun r => raw_phase r = Ground) df).
  { vm_compute in Edf. injection Edf as <-. repeat constructor. }
  destruct report as [|[a|s] rest]; [vm_compute in Er; discriminate| |vm_compute in Er; discriminate].
  exists df, (PhaseRecord a :: rest), a.
  split; [reflexivity|]. split; [reflexivity|]. split; [exact Hall|].
  split; [now left|].
  pose proof (degenerate_ratios_propagate sqrt_micro ground_flight ground_battery
                df (PhaseRecord a :: rest) Edf Er) as [Hg _].
  apply (proj2 (Hg Hall)). now left.
Defined.

(** C4 as stated fails: the all-ground flight of the spec's first scenario
    (ten samples at 1 Hz at rest, 5 A drawn) returns a report whose
    "On the Ground" record holds NaN as relative-draw percentage. *)
Lemma degenerate_ratio_reaches_report :
  (exists report a,
     process_ulog sqrt_micro ground_flight ground_battery = Return report
     /\ In (PhaseRecord a) report
     /\ Phase_label a = "On the Ground"%string
     /\ DiffofAvg a = NaN
     /\ report_finite report = false)
  /\ ~ (forall (vehicle_position : list PositionSample)
               (battery_status : list BatterySample) (report : list ReportRecord),
          process_ulog sqrt_micro vehicle_position battery_status = Return report ->
          report_finite report = true).
Proof.
  assert (E : exists report a,
             process_ulog sqrt_micro ground_flight ground_battery = Return report
             /\ In (PhaseRecord a) report
             /\ Phase_label a = "On the Ground"%string
             /\ DiffofAvg a = NaN
             /\ report_finite report = false).
  { eexists. eexists. split; [vm_compute; reflexivity|].
    split; [left; reflexivity|]. repeat split. }
  split; [exact E|].
  destruct E as (report & a & Hrep & _ & _ & _ & Hfin).
  intro H. specialize (H ground_flight ground_battery report Hrep). congruence.
Qed.

(* ------------------------------------------------------------------ *)
(** ** Non-ground baseline *)




(** The stand-alone script divides by something else: the span between its
    first and last non-ground row.  On the touch-and-go flight that span is
    five seconds, two of them on the ground, while the non-ground rows add up
    to three seconds. *)
Remark script_baseline_divides_by_span :
  exists df x,
    Script.df_combined sqrt_micro touch_and_go_flight steady_battery = Return df
    /\ Script.avg_mAh_per_s_non_ground df = Return (Finite x)
    /\ x == (30 / 3600) / 5
    /\ Qsum (map time_delta (Script.non_ground_df df)) == 3
    /\ ~ x == (30 / 3600) / 3.
Proof.
  eexists. eexists. split; [vm_compute; reflexivity|].
  split; [vm_compute; reflexivity|].
  split; [reflexivity|]. split; [reflexivity|]. discriminate.
Qed.

(* ------------------------------------------------------------------ *)
(** ** Where the emitted segments lie *)

Lemma StronglySorted_app_r {A : Type} (R : A -> A -> Prop) (l1 l2 : list A) :
  StronglySorted R (l1 ++ l2) -> StronglySorted R l2.
Proof.
  induction l1 as [|a l1 IH]; simpl; [trivial|].
  intro H. inversion H; subst. now apply IH.
Qed.

Lemma iloc_last_map {A B : Type} (f : A -> B) (l : list A) (x : A) :
  iloc_last l = Return x -> iloc_last (map f l) = Return (f x).
Proof.
  induction l as [|a l IH]; [discriminate|].
  destruct l as [|b l']; simpl in *.
  - intro H. injection H as <-. reflexivity.
  - exact IH.
Qed.

Lemma iloc_last_split {A : Type} (l : list A) (x : A) :
  iloc_last l = Return x -> l = removelast l ++ [x].
Proof.
  induction l as [|a l IH]; [discriminate|].
  destruct l as [|b l'].
  - simpl. intro H. injection H as <-. reflexivity.
  - intro H. change (iloc_last (b :: l') = Return x) in H.
    change (a :: b :: l' = a :: (removelast (b :: l') ++ [x])).
    f_equal. now apply IH.
Qed.

Lemma iloc_last_greatest (df : list PhaseRow) (last : PhaseRow) :
  increasing_times df -> iloc_last df = Return last ->
  Forall (fun r => pr_time r <= pr_time last) df.
Proof.
  unfold increasing_times. intros Hs Hl.
  rewrite (iloc_last_split df last Hl) in *. clear Hl.
  induction (removelast df) as [|a l IH]; simpl in *.
  - repeat constructor. apply Qle_refl.
  - inversion Hs as [|? ? Hs' Ha]; subst. constructor; [|now apply IH].
    rewrite Forall_forall in Ha. apply Qlt_le_weak. apply Ha.
    apply in_or_app. right. now left.
Qed.

Lemma label_runs_nonempty (df : list PhaseRow) :
  Forall (fun run => run <> []) (label_runs df).
Proof.
  pose proof (label_runs_maximal df) as H.
  induction (label_runs df) as [|run runs IH]; [constructor|].
  simpl in H. destruct run as [|r run]; [contradiction|].
  constructor; [discriminate|]. apply IH. tauto.
Qed.

Lemma next_start_bound (L : Q) (runs : list (list PhaseRow)) :
  Forall (fun r => pr_time r <= L) (List.concat runs) -> next_start L runs <= L.
Proof.
  destruct runs as [|[|r run] runs]; simpl; intro H; try apply Qle_refl.
  now inversion H.
Qed.

Lemma run_segments_end (L : Q) (runs : list (list PhaseRow)) :
  Forall (fun r => pr_time r <= L) (List.concat runs) ->
  forall run seg, In (run, seg) (run_segments L runs) -> seg_end seg <= L.
Proof.
  induction runs as [|x xs IH]; simpl; intros Hb run seg Hin; [contradiction|].
  apply Forall_app in Hb. destruct Hb as [_ Hxs].
  destruct x as [|r rest]; [now apply (IH Hxs run seg)|].
  destruct Hin as [Hin|Hin]; [|now apply (IH Hxs run seg)].
  injection Hin as <- <-. unfold seg_end. simpl. now apply next_start_bound.
Qed.

(** The emitted segments come in order and do not overlap. *)
Lemma surviving_sorted (thr L : Q) (runs : list (list PhaseRow)) :
  Forall (fun run => run <> []) runs ->
  increasing_times (List.concat runs) ->
  StronglySorted seg_before (surviving thr (run_segments L runs)).
Proof.
  unfold increasing_times.
  induction runs as [|x xs IH]; intros Hne Hs; [constructor|].
  inversion Hne as [|? ? Hx Hxs]; subst.
  destruct x as [|r rest]; [congruence|].
  assert (Hs' : StronglySorted (fun a b => pr_time a < pr_time b) (List.concat xs)).
  { exact (StronglySorted_app_r _ (r :: rest) (List.concat xs) Hs). }
  cbn [run_segments]. rewrite surviving_cons.
  destruct (run_duration (r :: rest) >=? thr); simpl; [|now apply IH].
  constructor; [now apply IH|].
  apply Forall_forall. intros b Hb. apply surviving_in in Hb.
  destruct Hb as (run_b & Hin & _).
  destruct (run_segments_in L xs run_b b Hin) as (rb & restb & -> & Hinb & Hstart & _).
  unfold seg_before, seg_end. simpl. rewrite Hstart.
  destruct xs as [|[|h hs] xs']; [contradiction| |].
  - inversion Hxs; congruence.
  - simpl. simpl in Hs'. destruct Hinb as [Hinb|Hinb].
    + injection Hinb as -> _. apply Qle_refl.
    + inversion Hs' as [|? ? _ Hh]; subst. rewrite Forall_forall in Hh.
      apply Qlt_le_weak. apply Hh. apply in_or_app. right.
      apply in_concat. exists (rb :: restb). split; [exact Hinb|now left].
Qed.

Lemma phase_row_increasing (df : list Row) :
  StronglySorted row_time_lt df -> increasing_times (map phase_row df).
Proof.
  unfold increasing_times. induction 1 as [|r rs Hs IH Hr]; simpl; constructor.
  - exact IH.
  - rewrite Forall_map. exact Hr.
Qed.

(** What the consolidator returns on the filtered frame of a run. *)
Lemma consolidated_segments (df : list Row) (last : Row) (thr : Q) (segs : list Segment) :
  surviving_rows df -> iloc_last df = Return last ->
  consolidate_phases (map phase_row df) thr = Return segs ->
  segs = surviving thr (run_segments (time last) (label_runs (map phase_row df)))
  /\ StronglySorted seg_before segs
  /\ Forall (fun seg => seg_end seg <= time last) segs.
Proof.
  intros [Hs _] Hl Hc.
  pose proof (iloc_last_map phase_row df last Hl) as Hl'.
  rewrite (consolidate_phases_runs (map phase_row df) thr (phase_row last) Hl') in Hc.
  injection Hc as <-. change (pr_time (phase_row last)) with (time last).
  pose proof (phase_row_increasing df Hs) as Hinc.
  split; [reflexivity|]. split.
  - apply surviving_sorted; [apply label_runs_nonempty|].
    now rewrite label_runs_concat.
  - apply Forall_forall. intros seg Hseg. apply surviving_in in Hseg.
    destruct Hseg as (run & Hin & _).
    apply (run_segments_end (time last) (label_runs (map phase_row df))) with (run := run);
      [|exact Hin].
    rewrite label_runs_concat.
    exact (iloc_last_greatest (map phase_row df) (phase_row last) Hinc Hl').
Qed.

(* ------------------------------------------------------------------ *)
(** ** The last row *)

Lemma Qsum_app (l1 l2 : list Q) : Qsum (l1 ++ l2) == Qsum l1 + Qsum l2.
Proof.
  induction l1 as [|q l1 IH]; simpl; [lra|]. rewrite IH. lra.
Qed.

Lemma run_segments_last (L : Q) (init : list (list PhaseRow)) (r : PhaseRow)
    (rest : list PhaseRow) :
  In (r :: rest, (pr_raw_phase r, pr_time r, L)) (run_segments L (init ++ [r :: rest])).
Proof.
  induction init as [|x xs IH]; simpl.
  - now left.
  - destruct x as [|a x']; [exact IH|]. right. exact IH.
Qed.

Lemma runs_maximal_uniform (runs : list (list PhaseRow)) (run : list PhaseRow) :
  runs_maximal runs -> In run runs ->
  exists r rest, run = r :: rest
                 /\ Forall (fun r' => pr_raw_phase r' = pr_raw_phase r) run.
Proof.
  induction runs as [|x xs IH]; simpl; [contradiction|].
  destruct x as [|r rest]; [contradiction|].
  intros (Hu & _ & Hm) [<-|Hin].
  - now exists r, rest.
  - now apply IH.
Qed.

Lemma iloc_last_app {A : Type} (l1 l2 : list A) :
  l2 <> [] -> iloc_last (l1 ++ l2) = iloc_last l2.
Proof.
  intro Hne. induction l1 as [|a l1 IH]; [reflexivity|].
  simpl. destruct (l1 ++ l2) eqn:E.
  - apply app_eq_nil in E. destruct E; congruence.
  - exact IH.
Qed.

Lemma iloc_last_in {A : Type} (l : list A) (x : A) :
  iloc_last l = Return x -> In x l.
Proof.
  intro H. rewrite (iloc_last_split l x H). apply in_or_app. right. now left.
Qed.

(** The final run holds the last row. *)
Lemma final_run_last (df : list PhaseRow) (last : PhaseRow)
    (init : list (list PhaseRow)) (run : list PhaseRow) :
  label_runs df = init ++ [run] -> iloc_last df = Return last ->
  exists r rest, run = r :: rest /\ In last run
                 /\ pr_raw_phase last = pr_raw_phase r.
Proof.
  intros Hruns Hl.
  pose proof (label_runs_maximal df) as Hm. rewrite Hruns in Hm.
  destruct (runs_maximal_uniform (init ++ [run]) run Hm) as (r & rest & -> & Hu).
  { apply in_or_app. right. now left. }
  exists r, rest. split; [reflexivity|].
  assert (Hin : In last (r :: rest)).
  { pose proof (label_runs_concat df) as Hc. rewrite Hruns in Hc.
    rewrite concat_app in Hc. simpl in Hc. rewrite app_nil_r in Hc.
    rewrite <- Hc in Hl. rewrite iloc_last_app in Hl by discriminate.
    now apply iloc_last_in. }
  split; [exact Hin|].
  rewrite Forall_forall in Hu. now apply Hu.
Qed.

(** C10.  When the final run of the filtered frame is emitted, its segment
    carries the last row's label, starts no later than the last row and ends
    at the last row's time; the per-segment rows are those with
    start <= time < end, so the last row is in no segment's rows: its charge
    draw is a summand of the flight-wide total, while every per-segment draw
    and every phase record's total draw is the sum it would be with the last
    row removed from the frame. *)
Theorem last_row_outside_aggregates :
  forall (np_sqrt : Q -> Q) (vehicle_position : list PositionSample)
         (battery_status : list BatterySample) (df : list Row)
         (report : list ReportRecord) (last : Row)
         (init : list (list PhaseRow)) (run : list PhaseRow),
    df_combined np_sqrt vehicle_position battery_status = Return df ->
    process_ulog np_sqrt vehicle_position battery_status = Return report ->
    iloc_last df = Return last ->
    label_runs (map phase_row df) = init ++ [run] ->
    1.0 <= run_duration run ->
    exists segs,
      consolidate_phases (map phase_row df) 1.0 = Return segs
      /\ (exists s, In (raw_phase last, s, time last) segs /\ s <= time last)
      /\ total_mAh df == total_mAh (removelast df) + mAh last
      /\ (forall seg, In seg segs ->
            ~ In last (phase_df df seg)
            /\ phase_df df seg = phase_df (removelast df) seg)
      /\ (forall a, In (PhaseRecord a) report ->
            exists p,
              Phase_label a = phase_name p
              /\ TotalDraw a
                 = Qsum (map (fun seg => Qsum (map mAh (phase_df (removelast df) seg)))
                             (filter (fun seg => phase_eqb (seg_phase seg) p) segs))).
Proof.
  intros np_sqrt pos bat df report last init run Hdf Hrep Hl Hruns Hdur.
  pose proof (df_combined_surviving np_sqrt pos bat df Hdf) as Hsurv.
  destruct (process_ulog_inv np_sqrt pos bat report Hrep) as (df' & Hdf' & Han).
  rewrite Hdf in Hdf'. injection Hdf' as <-.
  destruct (analyse_inv df report Han) as (segs & tt & aggs & Hc & _).
  destruct (consolidated_segments df last 1.0 segs Hsurv Hl Hc) as (Hsegs & _ & Hends).
  pose proof (iloc_last_map phase_row df last Hl) as Hl'.
  destruct (final_run_last (map phase_row df) (phase_row last) init run Hruns Hl')
    as (r & rest & -> & Hin & Hlab).
  assert (Hout : forall seg, In seg segs ->
                   (time last >=? seg_start seg) && (time last <? seg_end seg) = false).
  { intros seg Hseg. rewrite Forall_forall in Hends. specialize (Hends seg Hseg).
    apply andb_false_iff. right. now apply Qltb_nlt. }
  exists segs. split; [exact Hc|]. split; [|split; [|split]].
  - exists (pr_time r). split.
    + rewrite Hsegs. apply surviving_in. exists (r :: rest). split; [|exact Hdur].
      rewrite Hruns. change (raw_phase last) with (pr_raw_phase (phase_row last)).
      rewrite Hlab. apply run_segments_last.
    + destruct Hsurv as [Hs _]. pose proof (phase_row_increasing df Hs) as Hinc.
      pose proof (iloc_last_greatest (map phase_row df) (phase_row last) Hinc Hl') as Hg.
      rewrite Forall_forall in Hg. apply (Hg r).
      rewrite <- (label_runs_concat (map phase_row df)), Hruns.
      apply in_concat. exists (r :: rest). split; [|now left].
      apply in_or_app. right. now left.
  - unfold total_mAh. rewrite (iloc_last_split df last Hl) at 1.
    rewrite map_app, Qsum_app. simpl. lra.
  - intros seg Hseg. specialize (Hout seg Hseg). split.
    + intro Hin'. unfold phase_df in Hin'. apply filter_In in Hin'.
      destruct Hin' as [_ Hc']. congruence.
    + unfold phase_df. rewrite (iloc_last_split df last Hl) at 1.
      rewrite filter_app. simpl. rewrite Hout. now rewrite app_nil_r.
  - intros a Ha.
    destruct (phase_record_inv df report segs a Han Hc Ha) as (p & tt' & _ & ->).
    exists p. split; [reflexivity|]. cbn [agg TotalDraw].
    rewrite map_map. f_equal. apply map_ext_in. intros seg Hseg.
    apply filter_In in Hseg. destruct Hseg as [Hseg _].
    cbn [phase_datum d_total_draw]. specialize (Hout seg Hseg).
    unfold phase_df. rewrite (iloc_last_split df last Hl) at 1.
    rewrite filter_app. simpl. rewrite Hout. now rewrite app_nil_r.
Qed.

Lemma last_row_outside_aggregates_witness :
  exists df report last segs,
    df_combined sqrt_micro climb_cruise_flight steady_battery = Return df
    /\ process_ulog sqrt_micro climb_cruise_flight steady_battery = Return report
    /\ iloc_last df = Return last
    /\ consolidate_phases (map phase_row df) 1.0 = Return segs
    /\ (exists s, In (raw_phase last, s, time last) segs /\ s <= time last)
    /\ (forall seg, In seg segs -> ~ In last (phase_df df seg)).
Proof.
  destruct (df_combined sqrt_micro climb_cruise_flight steady_battery) as [e|df] eqn:Edf;
    [vm_compute in Edf; discriminate|].
  destruct (process_ulog sqrt_micro climb_cruise_flight steady_battery)
    as [e|report] eqn:Er; [vm_compute in Er; discriminate|].
  destruct (iloc_last df) as [e|last] eqn:El.
  { vm_compute in Edf. injection Edf as <-. vm_compute in El. discriminate. }
  assert (Hruns : label_runs (map phase_row df)
                  = removelast (label_runs (map phase_row df))
                    ++ [List.last (label_runs (map phase_row df)) []]).
  { vm_compute in Edf. injection Edf as <-. vm_compute. reflexivity. }
  assert (Hdur : 1.0 <= run_duration (List.last (label_runs (map phase_row df)) [])).
  { vm_compute in Edf. injection Edf as <-. vm_compute. discriminate. }
  destruct (last_row_outside_aggregates sqrt_micro climb_cruise_flight steady_battery
              df report last _ _ Edf Er El Hruns Hdur)
    as (segs & Hc & Hfinal & _ & Hout & _).
  exists df, report, last, segs. repeat split; try assumption.
  intros seg Hseg. exact (proj1 (Hout seg Hseg)).
Defined.

(* ------------------------------------------------------------------ *)
(** ** Where the charge goes *)

Lemma Qsum_filter_split {A : Type} (h : A -> Q) (f : A -> bool) (l : list A) :
  Qsum (map h l)
  == Qsum (map h (filter f l)) + Qsum (map h (filter (fun x => negb (f x)) l)).
Proof.
  induction l as [|x xs IH]; simpl; [lra|].
  destruct (f x); simpl; rewrite IH; lra.
Qed.

Lemma Qsum_filter_orb {A : Type} (h : A -> Q) (f g : A -> bool) (l : list A) :
  (forall x, f x = true -> g x = false) ->
  Qsum (map h (filter (fun x => f x || g x) l))
  == Qsum (map h (filter f l)) + Qsum (map h (filter g l)).
Proof.
  intro Hex. induction l as [|x xs IH]; simpl; [lra|].
  destruct (f x) eqn:Ef; simpl.
  - rewrite (Hex x Ef). simpl. rewrite IH. lra.
  - destruct (g x); simpl; rewrite IH; lra.
Qed.

(** Segments that do not overlap select each row at most once. *)
Lemma segment_draws_covered (df : list Row) (segs : list Segment) :
  StronglySorted seg_before segs ->
  Qsum (map (fun seg => Qsum (map mAh (phase_df df seg))) segs)
  == Qsum (map mAh (filter (covered segs) df)).
Proof.
  induction 1 as [|a rest Hs IH Ha]; simpl.
  - induction df as [|r rs IHr]; simpl; [reflexivity|exact IHr].
  - rewrite IH.
    rewrite <- (Qsum_filter_orb mAh
                  (fun r => (time r >=? seg_start a) && (time r <? seg_end a))
                  (covered rest) df); [reflexivity|].
    intros r Hr. bool_to_order. unfold covered.
    rewrite Forall_forall in Ha.
    destruct (existsb _ rest) eqn:E; [|reflexivity].
    apply existsb_exists in E. destruct E as (b & Hb & Hin). bool_to_order.
    specialize (Ha b Hb). unfold seg_before in Ha. lra.
Qed.

Lemma group_sum_total (x : PhaseDatum -> Q) (phase_data : list PhaseDatum) :
  Qsum (map (fun p => Qsum (map x (group_of p phase_data))) group_keys)
  == Qsum (map x phase_data).
Proof.
  unfold group_keys, group_of. cbn [map Qsum fold_right].
  induction phase_data as [|d ds IH]; [reflexivity|].
  cbn [filter map Qsum fold_right].
  unfold Qsum in *.
  destruct (d_phase d); cbn [phase_eqb map fold_right]; lra.
Qed.

Lemma groupby_total_draw (phase_data : list PhaseDatum) (keys : list Phase) :
  Qsum (map TotalDraw (flat_map (group_records phase_data) keys))
  == Qsum (map (fun p => Qsum (map d_total_draw (group_of p phase_data))) keys).
Proof.
  induction keys as [|k ks IH]; simpl; [reflexivity|].
  rewrite map_app, Qsum_app, IH.
  unfold group_records at 1. destruct (group_of k phase_data); simpl; lra.
Qed.

Lemma phase_records_app (aggs : list PhaseAggregate) (s : FlightSummary) :
  phase_records (map PhaseRecord aggs ++ [SummaryRecord s]) = aggs.
Proof. induction aggs as [|a aggs IH]; simpl; [reflexivity|now rewrite IH]. Qed.

(** C1, as the code has it.  The flight-wide total written to the summary
    is the sum of the mAh column over the rows of the filtered frame.  The
    total draws of the phase records add up to the charge of those rows that
    lie in the interval of an emitted segment, each of them counted once;
    the flight-wide total is that sum plus the charge of the rows that lie in
    no emitted segment, such as the rows of a run dropped by the
    consolidator. *)
Theorem charge_partition :
  forall (np_sqrt : Q -> Q) (vehicle_position : list PositionSample)
         (battery_status : list BatterySample) (df : list Row)
         (report : list ReportRecord) (segs : list Segment),
    df_combined np_sqrt vehicle_position battery_status = Return df ->
    process_ulog np_sqrt vehicle_position battery_status = Return report ->
    consolidate_phases (map phase_row df) 1.0 = Return segs ->
    (forall s, In (SummaryRecord s) report ->
               Summary_TotalDraw s = Qsum (map mAh df))
    /\ Qsum (map TotalDraw (phase_records report))
       == Qsum (map mAh (filter (covered segs) df))
    /\ Qsum (map mAh df)
       == Qsum (map TotalDraw (phase_records report))
          + Qsum (map mAh (filter (fun r => negb (covered segs r)) df)).
Proof.
  intros np_sqrt pos bat df report segs Hdf Hrep Hc.
  pose proof (df_combined_surviving np_sqrt pos bat df Hdf) as Hsurv.
  destruct (process_ulog_inv np_sqrt pos bat report Hrep) as (df' & Hdf' & Han).
  rewrite Hdf in Hdf'. injection Hdf' as <-.
  destruct (analyse_inv df report Han) as (segs' & tt & aggs & Hc' & Ht & Hg & ->).
  rewrite Hc in Hc'. injection Hc' as <-.
  assert (Hne : df <> []).
  { intros ->. discriminate Hc. }
  destruct (iloc_last_total df Hne) as (last & Hl).
  destruct (consolidated_segments df last 1.0 segs Hsurv Hl Hc) as (_ & Hsorted & _).
  assert (Hphase : Qsum (map TotalDraw aggs)
                   == Qsum (map mAh (filter (covered segs) df))).
  { apply groupby_agg_inv in Hg. destruct Hg as [_ ->].
    rewrite groupby_total_draw, group_sum_total, map_map.
    cbn [phase_datum d_total_draw]. now apply segment_draws_covered. }
  rewrite phase_records_app.
  split; [|split].
  - intros s Hs. apply in_app_or in Hs. destruct Hs as [Hs|[Hs|[]]].
    + apply in_map_iff in Hs. destruct Hs as (a & Ea & _). discriminate.
    + injection Hs as <-. reflexivity.
  - exact Hphase.
  - rewrite Hphase. apply Qsum_filter_split.
Qed.

Lemma charge_partition_witness :
  exists df report segs,
    df_combined sqrt_micro flicker_flight steady_battery = Return df
    /\ process_ulog sqrt_micro flicker_flight steady_battery = Return report
    /\ consolidate_phases (map phase_row df) 1.0 = Return segs
    /\ Qsum (map mAh df)
       == Qsum (map TotalDraw (phase_records report))
          + Qsum (map mAh (filter (fun r => negb (covered segs r)) df)).
Proof.
  destruct (df_combined sqrt_micro flicker_flight steady_battery) as [e|df] eqn:Edf;
    [vm_compute in Edf; discriminate|].
  destruct (process_ulog sqrt_micro flicker_flight steady_battery)
    as [e|report] eqn:Er; [vm_compute in Er; discriminate|].
  destruct (consolidate_phases (map phase_row df) 1.0) as [e|segs] eqn:Ec.
  { vm_compute in Edf. injection Edf as <-. vm_compute in Ec. discriminate. }
  exists df, report, segs.
  split; [reflexivity|]. split; [reflexivity|]. split; [exact Ec|].
  exact (proj2 (proj2 (charge_partition sqrt_micro flicker_flight steady_battery
                         df report segs Edf Er Ec))).
Defined.

(** C1 as stated fails: on the flight with a stray sample the surviving
    rows draw 125/6 mAh in total while the phase records add up to 50/3. *)
Lemma phase_draws_miss_total :
  (exists df report,
     df_combined sqrt_micro flicker_flight steady_battery = Return df
     /\ process_ulog sqrt_micro flicker_flight steady_battery = Return report
     /\ Qsum (map mAh df) == 125 # 6
     /\ Qsum (map TotalDraw (phase_records report)) == 50 # 3)
  /\ ~ (forall (vehicle_position : list PositionSample)
               (battery_status : list BatterySample)
               (df : list Row) (report : list ReportRecord),
          df_combined sqrt_micro vehicle_position battery_status = Return df ->
          process_ulog sqrt_micro vehicle_position battery_status = Return report ->
          Qsum (map mAh df) == Qsum (map TotalDraw (phase_records report))).
Proof.
  assert (E : exists df report,
             df_combined sqrt_micro flicker_flight steady_battery = Return df
             /\ process_ulog sqrt_micro flicker_flight steady_battery = Return report
             /\ Qsum (map mAh df) == 125 # 6
             /\ Qsum (map TotalDraw (phase_records report)) == 50 # 3).
  { eexists. eexists. split; [vm_compute; reflexivity|].
    split; [vm_compute; reflexivity|]. split; reflexivity. }
  split; [exact E|].
  destruct E as (df & report & Hdf & Hrep & Htot & Hph).
  intro H. specialize (H flicker_flight steady_battery df report Hdf Hrep).
  rewrite Htot, Hph in H. discriminate H.
Qed.

(* ------------------------------------------------------------------ *)
(** ** Consolidating the consolidator's output *)

Lemma last_cons_default {A : Type} (rest : list A) (a b : A) :
  List.last (b :: rest) a = List.last rest b.
Proof.
  revert a b. induction rest as [|c r IH]; intros a b; [reflexivity|].
  change (List.last (b :: c :: r) a) with (List.last (c :: r) a).
  now rewrite (IH a c), (IH b c).
Qed.

Lemma segment_rows_last (a : Segment) (rest : list Segment) :
  iloc_last (flat_map segment_rows (a :: rest)) = Return (end_row (List.last rest a)).
Proof.
  revert a. induction rest as [|b rest IH]; intro a; [reflexivity|].
  change (flat_map segment_rows (a :: b :: rest))
    with ([start_row a; end_row a] ++ flat_map segment_rows (b :: rest)).
  rewrite iloc_last_app by discriminate.
  rewrite IH. now rewrite last_cons_default.
Qed.

Lemma segment_eta (a : Segment) : (seg_phase a, seg_start a, seg_end a) = a.
Proof. destruct a as [[p s] e]. reflexivity. Qed.

Lemma open_segments_same (thr L : Q) (p : Phase) (s T : Q) (r : PhaseRow)
    (rows : list PhaseRow) :
  pr_raw_phase r = p ->
  open_segments thr L p s T (r :: rows)
  = open_segments thr L p s (T + pr_time_delta r) rows.
Proof. intros <-. simpl. now rewrite phase_eqb_refl. Qed.

Lemma open_segments_switch (thr L : Q) (p : Phase) (s T : Q) (r : PhaseRow)
    (rows : list PhaseRow) :
  pr_raw_phase r <> p ->
  open_segments thr L p s T (r :: rows)
  = seg_if thr T p s (pr_time r)
    ++ open_segments thr L (pr_raw_phase r) (pr_time r) (pr_time_delta r) rows.
Proof. intro H. apply phase_eqb_neq in H. simpl. now rewrite H. Qed.

(** The loop over the rows of chained segments that span the threshold,
    entered after the start row of the first of them. *)
Lemma open_segments_chained (thr : Q) (rest : list Segment) :
  forall (a : Segment) (T0 : Q),
    T0 == 0 ->
    Forall (fun seg => thr <= seg_end seg - seg_start seg) (a :: rest) ->
    chained (a :: rest) ->
    open_segments thr (seg_end (List.last rest a)) (seg_phase a) (seg_start a) T0
      (end_row a :: flat_map segment_rows rest)
    = a :: rest.
Proof.
  induction rest as [|b rest IH]; intros a T0 HT Hspan Hch;
    inversion Hspan as [|? ? Ha Hrest]; subst;
    rewrite open_segments_same by reflexivity;
    assert (E : seg_if thr (T0 + pr_time_delta (end_row a)) (seg_phase a)
                  (seg_start a) (seg_end a) = [a])
      by (unfold seg_if; simpl;
          replace (T0 + (seg_end a - seg_start a) >=? thr) with true
            by (symmetry; apply Qgeb_ge; lra);
          now rewrite segment_eta).
  - exact E.
  - destruct Hch as [[Hend Hlab] Hch].
    change (flat_map segment_rows (b :: rest))
      with (start_row b :: end_row b :: flat_map segment_rows rest).
    rewrite open_segments_switch by (simpl; congruence).
    change (pr_time (start_row b)) with (seg_start b). rewrite <- Hend at 1.
    rewrite E. cbn [app]. f_equal.
    rewrite last_cons_default.
    exact (IH b (pr_time_delta (start_row b)) (Qeq_refl 0) Hrest Hch).
Qed.

(** C6, as the code has it.  Consolidation run on its own output, each
    emitted segment read as the uniform-label pair of rows at its start and
    its end, returns that output again when the output is not empty, every
    emitted segment spans at least the threshold from start to end, and each
    emitted segment ends where the next one starts, under a different
    label. *)
Theorem reconsolidate_chained :
  forall (df : list PhaseRow) (time_threshold : Q) (segs : list Segment),
    consolidate_phases df time_threshold = Return segs ->
    segs <> [] ->
    Forall (fun seg => time_threshold <= seg_end seg - seg_start seg) segs ->
    chained segs ->
    reconsolidate segs time_threshold = Return segs.
Proof.
  intros df thr segs _ Hne Hspan Hch.
  destruct segs as [|a rest]; [congruence|].
  unfold reconsolidate.
  change (flat_map segment_rows (a :: rest))
    with (start_row a :: end_row a :: flat_map segment_rows rest).
  rewrite (consolidate_phases_open (start_row a)
             (end_row a :: flat_map segment_rows rest) thr
             (end_row (List.last rest a)) (segment_rows_last a rest)).
  f_equal. rewrite open_segments_same by reflexivity.
  apply (open_segments_chained thr rest a); [reflexivity|assumption|assumption].
Qed.

Lemma reconsolidate_chained_witness :
  exists segs,
    consolidate_phases climb_then_cruise 1 = Return segs
    /\ reconsolidate segs 1 = Return segs.
Proof.
  exists [(Climbing, 1, 3); (Cruising, 3, 4)].
  split; [reflexivity|].
  apply (reconsolidate_chained climb_then_cruise 1).
  - reflexivity.
  - discriminate.
  - repeat constructor; discriminate.
  - simpl. repeat split; discriminate.
Defined.

(** C6 as stated fails: after two seconds of climb, a final one-second
    row of descent is emitted as a segment that starts and ends at that
    row's time; read back through its boundaries it lasts zero seconds and
    is dropped. *)
Lemma reconsolidation_differs :
  (consolidate_phases climb_then_descent 1
   = Return [(Climbing, 1, 3); (Descending, 3, 3)]
   /\ reconsolidate [(Climbing, 1, 3); (Descending, 3, 3)] 1
      = Return [(Climbing, 1, 3)])
  /\ ~ (forall (df : list PhaseRow) (segs : list Segment),
          df <> [] ->
          consolidate_phases df 1 = Return segs ->
          reconsolidate segs 1 = Return segs).
Proof.
  split; [split; reflexivity|].
  intro H.
  specialize (H climb_then_descent [(Climbing, 1, 3); (Descending, 3, 3)]
                ltac:(discriminate) eq_refl).
  discriminate H.
Qed.

(** Two segments of one label around a dropped run come back as one. *)
Remark reconsolidation_merges :
  consolidate_phases climb_with_flicker 1
  = Return [(Climbing, 1, 2.5); (Climbing, 3.5, 4.5)]
  /\ reconsolidate [(Climbing, 1, 2.5); (Climbing, 3.5, 4.5)] 1
     = Return [(Climbing, 1, 4.5)].
Proof. split; reflexivity. Qed.

(** A segment before a dropped run comes back stretched over the gap. *)
Remark reconsolidation_closes_gap :
  consolidate_phases climb_flicker_cruise 1
  = Return [(Climbing, 1, 2.5); (Cruising, 3.5, 4.5)]
  /\ reconsolidate [(Climbing, 1, 2.5); (Cruising, 3.5, 4.5)] 1
     = Return [(Climbing, 1, 3.5); (Cruising, 3.5, 4.5)].
Proof. split; reflexivity. Qed.

(* ================================================================== *)
(** * Further properties of the pipeline *)

(* ------------------------------------------------------------------ *)
(** ** The aligned frame, for series in any order *)

Lemma insert_by_time_perm {A : Type} (x : Timed A) (l : list (Timed A)) :
  Permutation (insert_by_time x l) (x :: l).
Proof.
  induction l as [|y ys IH]; simpl; [reflexivity|].
  destruct (at_time x <=? at_time y); [reflexivity|].
  rewrite IH. apply perm_swap.
Qed.

Lemma sort_values_perm {A : Type} (l : list (Timed A)) :
  Permutation (sort_values l) l.
Proof.
  induction l as [|x xs IH]; simpl; [reflexivity|].
  rewrite insert_by_time_perm. now constructor.
Qed.

Lemma derive_from_position (np_sqrt : Q -> Q) (prev : option Q)
    (l : list (Timed PositionSample * Timed BatterySample)) :
  map position (derive_from np_sqrt prev l) = map (fun m => sample (fst m)) l.
Proof.
  revert prev. induction l as [|m rest IH]; intro prev; simpl; [reflexivity|].
  now rewrite IH.
Qed.

Lemma derive_from_time (np_sqrt : Q -> Q) (prev : option Q)
    (l : list (Timed PositionSample * Timed BatterySample)) :
  map time (derive_from np_sqrt prev l) = map (fun m => at_time (fst m)) l.
Proof.
  revert prev. induction l as [|m rest IH]; intro prev; simpl; [reflexivity|].
  now rewrite IH.
Qed.

Lemma derive_from_nonnegative (np_sqrt : Q -> Q)
    (l : list (Timed PositionSample * Timed BatterySample)) :
  StronglySorted time_le (map fst l) ->
  forall p, Forall (fun m => p <= at_time (fst m)) l ->
    Forall (fun r => 0 <= time_delta r) (derive_from np_sqrt (Some p) l).
Proof.
  induction l as [|m rest IH]; intros Hs p Hp; simpl; [constructor|].
  simpl in Hs. inversion Hs as [|? ? Hs' Hm]; subst.
  inversion Hp as [|? ? Hpm _]; subst.
  rewrite Forall_map in Hm. unfold time_le in Hm.
  constructor; [simpl; lra|]. now apply IH.
Qed.

Lemma time_column_samples {A : Type} (timestamp : A -> Z) (l : list A)
    (df : list (Timed A)) :
  time_column timestamp l = Return df -> map (@sample A) df = l.
Proof.
  unfold time_column. destruct l as [|x xs]; [discriminate|].
  cbn [iloc_first bind]. intro H. injection H as <-.
  unfold with_time. simpl. f_equal. rewrite map_map. simpl. apply map_id.
Qed.

(** X1.  Whatever the order of the timestamps, as soon as both series have
    a sample the merge returns a frame that holds every motion sample exactly
    once, in non-decreasing order of time; its first row has time_delta 0
    and no row has a negative time_delta. *)
Theorem aligned_frame_any_order :
  forall (np_sqrt : Q -> Q) (vehicle_position : list PositionSample)
         (battery_status : list BatterySample),
    vehicle_position <> [] -> battery_status <> [] ->
    exists merged,
      aligned vehicle_position battery_status = Return merged
      /\ Permutation (map position (derive np_sqrt merged)) vehicle_position
      /\ StronglySorted (fun a b => time a <= time b) (derive np_sqrt merged)
      /\ Forall (fun r => 0 <= time_delta r) (derive np_sqrt merged)
      /\ (exists r rest, derive np_sqrt merged = r :: rest /\ time_delta r = 0).
Proof.
  intros np_sqrt pos bat Hp Hb.
  destruct (aligned_total pos bat Hp Hb) as (merged & Ha).
  exists merged. split; [exact Ha|].
  pose proof (aligned_sorted pos bat merged Ha) as Hs.
  assert (Hperm : Permutation (map (fun m => sample (fst m)) merged) pos).
  { unfold aligned in Ha.
    destruct (time_column p_timestamp pos) as [e|dfp] eqn:Ep; [discriminate|].
    destruct (time_column b_timestamp bat) as [e|dfb]; [discriminate|].
    cbn [bind] in Ha. apply matched_fst in Ha. rewrite merge_asof_fst in Ha.
    rewrite <- (time_column_samples p_timestamp pos dfp Ep).
    rewrite <- (map_map fst (@sample PositionSample)), Ha.
    apply Permutation_map. apply sort_values_perm. }
  unfold derive. split; [|split; [|split]].
  - now rewrite derive_from_position.
  - assert (Ht : map time (derive_from np_sqrt None merged)
                 = map (@at_time PositionSample) (map fst merged)).
    { rewrite derive_from_time. now rewrite map_map. }
    revert Ht Hs. generalize (derive_from np_sqrt None merged) as frame.
    generalize (map fst merged) as keys. clear.
    intros keys frame. revert keys.
    induction frame as [|r rs IH]; intros keys Ht Hs; [constructor|].
    destruct keys as [|k ks]; [discriminate|]. simpl in Ht.
    injection Ht as Hr Hrs. inversion Hs as [|? ? Hs' Hk]; subst.
    constructor; [now apply (IH ks)|].
    apply Forall_forall. intros r' Hr'.
    assert (Hin : In (time r') (map (@at_time PositionSample) ks))
      by (rewrite <- Hrs; now apply in_map).
    apply in_map_iff in Hin. destruct Hin as (k' & Ek & Hk').
    rewrite Forall_forall in Hk. specialize (Hk k' Hk').
    unfold time_le in Hk. rewrite Hr, <- Ek. exact Hk.
  - destruct merged as [|m rest]; [constructor|].
    simpl in Hs. inversion Hs as [|? ? Hs' Hm]; subst.
    rewrite Forall_map in Hm. unfold time_le in Hm.
    cbn [derive_from]. constructor; [simpl; lra|].
    now apply derive_from_nonnegative.
  - destruct merged as [|m rest].
    + apply Permutation_nil in Hperm. congruence.
    + eexists. eexists. split; reflexivity.
Qed.

Lemma aligned_frame_any_order_witness :
  exists merged,
    aligned [motion 1000 0 0 0; motion 0 0 0 0; motion 500 0 0 0] steady_battery
    = Return merged
    /\ List.length (derive sqrt_micro merged) = 3%nat
    /\ Forall (fun r => 0 <= time_delta r) (derive sqrt_micro merged).
Proof.
  destruct (aligned_frame_any_order sqrt_micro
              [motion 1000 0 0 0; motion 0 0 0 0; motion 500 0 0 0] steady_battery)
    as (merged & Ha & Hperm & _ & Hpos & _); try discriminate.
  exists merged. split; [exact Ha|]. split; [|exact Hpos].
  apply Permutation_length in Hperm. now rewrite length_map in Hperm.
Defined.

(* ------------------------------------------------------------------ *)
(** ** How a run ends *)











(* ------------------------------------------------------------------ *)
(** ** Where the time goes *)

Lemma time_chain_proper (df : list Row) (p q : Q) :
  p == q -> time_chain p df -> time_chain q df.
Proof.
  destruct df as [|r rest]; [trivial|]. simpl. intros E [H1 H2].
  split; [lra|exact H2].
Qed.

Lemma positive_delta_chain (np_sqrt : Q -> Q)
    (l : list (Timed PositionSample * Timed BatterySample)) :
  StronglySorted time_le (map fst l) ->
  forall p, Forall (fun m => p <= at_time (fst m)) l ->
    time_chain p (positive_delta (derive_from np_sqrt (Some p) l)).
Proof.
  induction l as [|m rest IH]; intros Hs p Hp; [exact I|].
  simpl in Hs. inversion Hs as [|? ? Hs' Hm]; subst.
  inversion Hp as [|? ? Hpm _]; subst.
  rewrite Forall_map in Hm. unfold time_le in Hm.
  cbn [derive_from positive_delta filter].
  fold (positive_delta (derive_from np_sqrt (Some (at_time (fst m))) rest)).
  specialize (IH Hs' (at_time (fst m)) Hm).
  destruct (time_delta (derive_row np_sqrt (Some p) m) >? 0) eqn:E;
    bool_to_order; simpl in E.
  - split; [simpl; reflexivity|exact IH].
  - apply (time_chain_proper _ (at_time (fst m)) p); [lra|exact IH].
Qed.

Lemma time_chain_sum (df : list Row) :
  forall (p : Q) (last : Row),
    time_chain p df -> iloc_last df = Return last ->
    Qsum (map time_delta df) == time last - p.
Proof.
  induction df as [|r rest IH]; intros p last Hc Hl; [discriminate|].
  destruct Hc as [Hr Hc].
  destruct rest as [|r' rest'].
  - injection Hl as <-. unfold Qsum. simpl. lra.
  - change (iloc_last (r :: r' :: rest')) with (iloc_last (r' :: rest')) in Hl.
    specialize (IH (time r) last Hc Hl).
    unfold Qsum in *. cbn [map fold_right] in *. lra.
Qed.

(** The first row of the merge is at time 0: the first motion sample is,
    and no time is negative. *)
Lemma aligned_head_zero (vehicle_position : list PositionSample)
    (battery_status : list BatterySample)
    (m : Timed PositionSample * Timed BatterySample)
    (rest : list (Timed PositionSample * Timed BatterySample)) :
  aligned vehicle_position battery_status = Return (m :: rest) ->
  at_time (fst m) == 0.
Proof.
  intro Ea. pose proof (aligned_sorted _ _ _ Ea) as Hs.
  unfold aligned, time_column in Ea.
  destruct vehicle_position as [|p0 ps]; [discriminate|].
  cbn [iloc_first bind] in Ea.
  destruct battery_status as [|b0 bs]; [discriminate|].
  cbn [iloc_first bind] in Ea.
  apply matched_fst in Ea. rewrite merge_asof_fst in Ea.
  set (dfp := with_time p_timestamp (p_timestamp p0) (p0 :: ps)) in *.
  assert (Hperm : Permutation (map fst (m :: rest)) dfp).
  { rewrite Ea. apply sort_values_perm. }
  assert (Hnn : Forall (fun k => 0 <= at_time k) dfp).
  { unfold dfp, with_time. rewrite Forall_map. apply Forall_forall.
    intros a _. simpl. unfold seconds_since, u64.
    apply Qle_shift_div_l; [reflexivity|]. rewrite Qmult_0_l.
    change 0 with (inject_Z 0). rewrite <- Zle_Qle.
    apply Z.mod_pos_bound. reflexivity. }
  assert (Hz : exists k, In k (map fst (m :: rest)) /\ at_time k == 0).
  { exists {| sample := p0; at_time := seconds_since (p_timestamp p0) (p_timestamp p0) |}.
    split; [|simpl; apply seconds_since_first].
    apply (Permutation_in _ (Permutation_sym Hperm)). left. reflexivity. }
  apply (Permutation_Forall (Permutation_sym Hperm)) in Hnn.
  inversion Hnn as [|? ? Hm0 _]; subst.
  simpl in Hs. inversion Hs as [|? ? _ Hle]; subst. unfold time_le in Hle.
  destruct Hz as (k & [<-|Hk] & Ek); [exact Ek|].
  rewrite Forall_forall in Hle. specialize (Hle k Hk). lra.
Qed.

Lemma df_combined_chain (np_sqrt : Q -> Q) (vehicle_position : list PositionSample)
    (battery_status : list BatterySample) (df : list Row) :
  df_combined np_sqrt vehicle_position battery_status = Return df ->
  time_chain 0 df.
Proof.
  unfold df_combined. intro H.
  destruct (aligned vehicle_position battery_status) as [e|merged] eqn:Ea;
    [discriminate|].
  cbn [bind] in H. injection H as <-.
  pose proof (aligned_sorted _ _ _ Ea) as Hs.
  destruct merged as [|m rest]; [exact I|].
  pose proof (aligned_head_zero _ _ _ _ Ea) as Hz.
  simpl in Hs. inversion Hs as [|? ? Hs' Hm]; subst.
  rewrite Forall_map in Hm. unfold time_le in Hm.
  unfold derive. cbn [derive_from positive_delta filter].
  assert (E : (time_delta (derive_row np_sqrt None m) >? 0) = false) by reflexivity.
  rewrite E.
  fold (positive_delta (derive_from np_sqrt (Some (at_time (fst m))) rest)).
  apply (time_chain_proper _ (at_time (fst m)) 0 Hz).
  now apply positive_delta_chain.
Qed.

(** X3.  In the filtered frame every time_delta is the time passed since the
    surviving row before, and since the start of the log for the first row.
    The flight duration of the summary, last time minus first time, is the
    sum of the time_delta of all rows but the first: it falls short of the
    time over which the total charge is summed by the first row's time_delta,
    which is positive. *)
Theorem flight_time_accounting :
  forall (np_sqrt : Q -> Q) (vehicle_position : list PositionSample)
         (battery_status : list BatterySample)
         (first last : Row) (rest : list Row),
    df_combined np_sqrt vehicle_position battery_status = Return (first :: rest) ->
    iloc_last (first :: rest) = Return last ->
    time_chain 0 (first :: rest)
    /\ time_delta first == time first
    /\ Qsum (map time_delta (first :: rest)) == time last
    /\ flight_time (first :: rest) = Return (time last - time first)
    /\ time last - time first == Qsum (map time_delta rest)
    /\ time last - time first < Qsum (map time_delta (first :: rest)).
Proof.
  intros np_sqrt pos bat first last rest Hdf Hl.
  pose proof (df_combined_chain _ _ _ _ Hdf) as Hc.
  pose proof (df_combined_surviving _ _ _ _ Hdf) as [_ Hpos].
  inversion Hpos as [|? ? Hfirst _]; subst.
  pose proof (time_chain_sum _ 0 last Hc Hl) as Hsum.
  destruct Hc as [H1 H2].
  split; [split; assumption|].
  split; [lra|]. split; [lra|].
  split; [unfold flight_time; rewrite Hl; reflexivity|].
  unfold Qsum in *. cbn [map fold_right] in *. split; lra.
Qed.

Lemma flight_time_accounting_witness :
  exists first rest last,
    df_combined sqrt_micro climb_cruise_flight steady_battery = Return (first :: rest)
    /\ iloc_last (first :: rest) = Return last
    /\ flight_time (first :: rest) = Return (time last - time first)
    /\ time last - time first < Qsum (map time_delta (first :: rest)).
Proof.
  destruct (df_combined sqrt_micro climb_cruise_flight steady_battery) as [e|df] eqn:Edf;
    [vm_compute in Edf; discriminate|].
  destruct df as [|first rest]; [vm_compute in Edf; discriminate|].
  destruct (iloc_last (first :: rest)) as [e|last] eqn:El.
  { destruct (iloc_last_total (first :: rest)) as (x & Hx); [discriminate|].
    rewrite Hx in El. discriminate. }
  exists first, rest, last. split; [reflexivity|]. split; [exact El|].
  destruct (flight_time_accounting sqrt_micro climb_cruise_flight steady_battery
              first last rest Edf El) as (_ & _ & _ & Hft & _ & Hlt).
  split; [exact Hft|exact Hlt].
Defined.

(* ------------------------------------------------------------------ *)
(** ** The rows of a segment *)

Lemma StronglySorted_app_lr {A : Type} (R : A -> A -> Prop) (l1 l2 : list A) :
  StronglySorted R (l1 ++ l2) ->
  forall a b, In a l1 -> In b l2 -> R a b.
Proof.
  induction l1 as [|x l1 IH]; intros Hs a b Ha Hb; [contradiction|].
  simpl in Hs. inversion Hs as [|? ? Hs' Hx]; subst.
  destruct Ha as [<-|Ha].
  - rewrite Forall_forall in Hx. apply Hx. apply in_or_app. now right.
  - now apply IH.
Qed.

Lemma StronglySorted_app_l {A : Type} (R : A -> A -> Prop) (l1 l2 : list A) :
  StronglySorted R (l1 ++ l2) -> StronglySorted R l1.
Proof.
  induction l1 as [|x l1 IH]; intro Hs; [constructor|].
  simpl in Hs. inversion Hs as [|? ? Hs' Hx]; subst.
  constructor; [now apply IH|].
  rewrite Forall_forall in *. intros y Hy. apply Hx. apply in_or_app. now left.
Qed.

(** Among rows in increasing order of time, the rows that fall in the
    interval of a run's segment are the rows of the run, less the last row
    of the frame. *)
Lemma run_segments_rows (L : Q) (runs : list (list PhaseRow)) :
  Forall (fun run => run <> []) runs ->
  increasing_times (List.concat runs) ->
  Forall (fun r => pr_time r <= L) (List.concat runs) ->
  forall run seg, In (run, seg) (run_segments L runs) ->
    seg_start seg <= seg_end seg
    /\ forall row, In row (List.concat runs) ->
         (seg_start seg <= pr_time row /\ pr_time row < seg_end seg
          <-> In row run /\ pr_time row < L).
Proof.
  unfold increasing_times.
  induction runs as [|x xs IH]; intros Hne Hs HL run seg Hin; [contradiction|].
  inversion Hne as [|? ? Hx Hne']; subst.
  destruct x as [|r rest]; [congruence|].
  cbn [List.concat] in Hs, HL.
  pose proof (StronglySorted_app_lr _ _ _ Hs) as Hlr.
  pose proof (StronglySorted_app_l _ _ _ Hs) as Hsx.
  pose proof (StronglySorted_app_r _ _ _ Hs) as Hsxs.
  apply Forall_app in HL. destruct HL as [HLx HLxs].
  assert (Hend : next_start L xs <= L).
  { now apply next_start_bound. }
  assert (Hhead : forall row, In row (r :: rest) -> pr_time r <= pr_time row).
  { intros row [<-|Hrow]; [lra|].
    inversion Hsx as [|? ? _ Hr]; subst. rewrite Forall_forall in Hr.
    specialize (Hr row Hrow). simpl in Hr. lra. }
  cbn [run_segments] in Hin. destruct Hin as [Hin|Hin].
  - injection Hin as <- <-. unfold seg_start, seg_end. cbn [fst snd].
    assert (Hnext : forall row, In row (r :: rest) -> pr_time row < L ->
                                pr_time row < next_start L xs).
    { intros row Hrow HrL. destruct xs as [|[|r2 run2] xs']; simpl; try exact HrL.
      apply Hlr; [exact Hrow|]. simpl. now left. }
    assert (Hafter : forall row, In row (List.concat xs) ->
                                 next_start L xs <= pr_time row).
    { intros row Hrow. destruct xs as [|[|r2 run2] xs']; [contradiction| |].
      - inversion Hne' as [|? ? Habs _]. congruence.
      - simpl. simpl in Hrow. destruct Hrow as [<-|Hrow]; [lra|].
        simpl in Hsxs. inversion Hsxs as [|? ? _ Hr2]; subst.
        rewrite Forall_forall in Hr2. specialize (Hr2 row Hrow). simpl in Hr2. lra. }
    split.
    + destruct xs as [|[|r2 run2] xs']; simpl.
      * inversion HLx; subst. assumption.
      * inversion HLx; subst. assumption.
      * assert (H : pr_time r < pr_time r2).
        { apply Hlr; simpl; now left. }
        lra.
    + intros row Hrow. apply in_app_or in Hrow. split.
      * intros [H1 H2]. destruct Hrow as [Hrow|Hrow].
        -- split; [exact Hrow|lra].
        -- specialize (Hafter row Hrow). lra.
      * intros [Hrow' HrL]. split; [now apply Hhead|now apply Hnext].
  - destruct (IH Hne' Hsxs HLxs run seg Hin) as [Hspan Hrows].
    split; [exact Hspan|].
    intros row Hrow. apply in_app_or in Hrow.
    destruct (run_segments_in _ _ _ _ Hin) as (r1 & rest1 & -> & Hrun & Hstart & _).
    assert (Hr1 : In r1 (List.concat xs)).
    { apply in_concat. exists (r1 :: rest1). split; [exact Hrun|now left]. }
    assert (Hsub : forall row', In row' (r1 :: rest1) -> In row' (List.concat xs)).
    { intros row' H'. apply in_concat. now exists (r1 :: rest1). }
    assert (Hx' : forall row', In row' (r :: rest) ->
                    ~ (seg_start seg <= pr_time row')
                    /\ ~ In row' (r1 :: rest1)).
    { intros row' H'. split.
      - rewrite Hstart. pose proof (Hlr row' r1 H' Hr1) as Hlt. simpl in Hlt. lra.
      - intro Hc. pose proof (Hlr row' row' H' (Hsub _ Hc)) as Hlt. simpl in Hlt. lra. }
    destruct Hrow as [Hrow|Hrow].
    + destruct (Hx' row Hrow) as [Hn1 Hn2]. split; intros [H1 H2]; tauto.
    + now apply Hrows.
Qed.

Lemma emitted_segment_run (df : list Row) (last : Row) (thr : Q) (segs : list Segment)
    (seg : Segment) :
  surviving_rows df -> iloc_last df = Return last ->
  consolidate_phases (map phase_row df) thr = Return segs ->
  In seg segs ->
  exists r rest,
    In (r :: rest) (label_runs (map phase_row df))
    /\ thr <= run_duration (r :: rest)
    /\ seg_phase seg = pr_raw_phase r
    /\ seg_start seg = pr_time r
    /\ Forall (fun r' => pr_raw_phase r' = pr_raw_phase r) (r :: rest)
    /\ seg_start seg <= seg_end seg
    /\ forall row, In row df ->
         (seg_start seg <= time row /\ time row < seg_end seg
          <-> In (phase_row row) (r :: rest) /\ time row < time last).
Proof.
  intros Hsurv Hl Hc Hin.
  destruct (consolidated_segments df last thr segs Hsurv Hl Hc) as (-> & _ & _).
  apply surviving_in in Hin. destruct Hin as (run & Hin & Hge).
  destruct (run_segments_in _ _ _ _ Hin) as (r & rest & -> & Hrun & Hstart & Hphase).
  exists r, rest.
  destruct (runs_maximal_uniform _ _ (label_runs_maximal (map phase_row df)) Hrun)
    as (r0 & rest0 & E0 & Hu). injection E0 as <- <-.
  destruct Hsurv as [Hsorted _].
  pose proof (phase_row_increasing df Hsorted) as Hinc.
  pose proof (iloc_last_greatest _ _ Hinc (iloc_last_map phase_row df last Hl)) as Hgr.
  destruct (run_segments_rows (time last) (label_runs (map phase_row df))
              (label_runs_nonempty _)) with (run := r :: rest) (seg := seg)
    as [Hspan Hrows]; try (rewrite label_runs_concat; assumption); [exact Hin|].
  repeat (split; [assumption|]).
  intros row Hrow. rewrite label_runs_concat in Hrows.
  apply (Hrows (phase_row row)). now apply in_map.
Qed.

(** X4.  The rows whose charge is booked under an emitted segment are the
    rows of the run the segment was emitted for, the last row of the frame
    excepted: each of them carries the segment's label, and no row of another
    run is among them. *)
Theorem segment_rows_carry_label :
  forall (np_sqrt : Q -> Q) (vehicle_position : list PositionSample)
         (battery_status : list BatterySample) (df : list Row) (last : Row)
         (segs : list Segment) (seg : Segment),
    df_combined np_sqrt vehicle_position battery_status = Return df ->
    iloc_last df = Return last ->
    consolidate_phases (map phase_row df) 1.0 = Return segs ->
    In seg segs ->
    exists run,
      In run (label_runs (map phase_row df))
      /\ 1.0 <= run_duration run
      /\ (forall r, In r (phase_df df seg)
                    <-> In r df /\ In (phase_row r) run /\ time r < time last)
      /\ Forall (fun r => raw_phase r = seg_phase seg) (phase_df df seg).
Proof.
  intros np_sqrt pos bat df last segs seg Hdf Hl Hc Hin.
  pose proof (df_combined_surviving _ _ _ _ Hdf) as Hsurv.
  destruct (emitted_segment_run df last 1.0 segs seg Hsurv Hl Hc Hin)
    as (r & rest & Hrun & Hge & Hphase & _ & Hu & _ & Hrows).
  exists (r :: rest). split; [exact Hrun|]. split; [exact Hge|].
  assert (Hmem : forall row, In row (phase_df df seg)
                   <-> In row df /\ In (phase_row row) (r :: rest)
                       /\ time row < time last).
  { intro row. unfold phase_df. rewrite filter_In. split.
    - intros [Hrow Hb]. apply andb_prop in Hb. destruct Hb as [H1 H2].
      bool_to_order. split; [exact Hrow|]. now apply (Hrows row Hrow).
    - intros (Hrow & H1 & H2). split; [exact Hrow|].
      destruct (proj2 (Hrows row Hrow) (conj H1 H2)) as [H3 H4].
      apply andb_true_intro. split; [now apply Qgeb_ge|now apply Qltb_lt]. }
  split; [exact Hmem|].
  apply Forall_forall. intros row Hrow. apply Hmem in Hrow.
  destruct Hrow as (_ & Hrow & _).
  rewrite Forall_forall in Hu. rewrite Hphase. exact (Hu _ Hrow).
Qed.

Lemma segment_rows_carry_label_witness :
  exists df last segs,
    df_combined sqrt_micro flicker_flight steady_battery = Return df
    /\ iloc_last df = Return last
    /\ consolidate_phases (map phase_row df) 1.0 = Return segs
    /\ segs <> []
    /\ Forall (fun seg => Forall (fun r => raw_phase r = seg_phase seg)
                                 (phase_df df seg)) segs.
Proof.
  destruct (df_combined sqrt_micro flicker_flight steady_battery) as [e|df] eqn:Edf;
    [vm_compute in Edf; discriminate|].
  destruct (iloc_last df) as [e|last] eqn:El.
  { vm_compute in Edf. injection Edf as <-. vm_compute in El. discriminate. }
  destruct (consolidate_phases (map phase_row df) 1.0) as [e|segs] eqn:Ec.
  { vm_compute in Edf. injection Edf as <-. vm_compute in Ec. discriminate. }
  exists df, last, segs.
  split; [reflexivity|]. split; [exact El|]. split; [exact Ec|].
  split.
  - intros ->. vm_compute in Edf. injection Edf as <-. vm_compute in Ec.
    discriminate.
  - apply Forall_forall. intros seg Hseg.
    destruct (segment_rows_carry_label sqrt_micro flicker_flight steady_battery
                df last segs seg Edf El Ec Hseg) as (run & _ & _ & _ & H).
    exact H.
Defined.

(* ------------------------------------------------------------------ *)
(** ** Phase durations against the flight duration *)

Lemma Qsum_nonneg (l : list Q) : Forall (fun q => 0 <= q) l -> 0 <= Qsum l.
Proof.
  induction 1 as [|q l Hq _ IH]; unfold Qsum in *; simpl; lra.
Qed.

(** Intervals that follow one another inside [[lo, hi]] are no longer than
    [hi - lo] together. *)
Lemma spans_sum_bound (segs : list Segment) :
  StronglySorted seg_before segs ->
  Forall (fun seg => seg_start seg <= seg_end seg) segs ->
  forall lo hi,
    Forall (fun seg => lo <= seg_start seg) segs ->
    Forall (fun seg => seg_end seg <= hi) segs ->
    lo <= hi ->
    Qsum (map seg_span segs) <= hi - lo.
Proof.
  induction segs as [|a rest IH]; intros Hs Hspan lo hi Hlo Hhi Hle.
  - unfold Qsum. simpl. lra.
  - inversion Hs as [|? ? Hs' Ha]; subst.
    inversion Hspan as [|? ? Ha1 Hspan']; subst.
    inversion Hlo as [|? ? Ha2 _]; subst.
    inversion Hhi as [|? ? Ha3 Hhi']; subst.
    specialize (IH Hs' Hspan' (seg_end a) hi Ha Hhi' Ha3).
    unfold Qsum in *. cbn [map fold_right]. unfold seg_span at 1. lra.
Qed.

Lemma groupby_total_time (phase_data : list PhaseDatum) (keys : list Phase) :
  Qsum (map TotalTime (flat_map (group_records phase_data) keys))
  == Qsum (map (fun p => Qsum (map d_total_time (group_of p phase_data))) keys).
Proof.
  induction keys as [|k ks IH]; simpl; [reflexivity|].
  rewrite map_app, Qsum_app, IH.
  unfold group_records at 1. destruct (group_of k phase_data); simpl; lra.
Qed.

Lemma StronglySorted_filter {A : Type} (R : A -> A -> Prop) (f : A -> bool)
    (l : list A) :
  StronglySorted R l -> StronglySorted R (filter f l).
Proof.
  induction 1 as [|a l Hs IH Ha]; simpl; [constructor|].
  destruct (f a); [|exact IH].
  constructor; [exact IH|].
  rewrite Forall_forall in *. intros x Hx. apply filter_In in Hx. now apply Ha.
Qed.

Lemma Forall_filter {A : Type} (P : A -> Prop) (f : A -> bool) (l : list A) :
  Forall P l -> Forall P (filter f l).
Proof.
  rewrite !Forall_forall. intros H x Hx. apply filter_In in Hx. now apply H.
Qed.

(** Where the emitted segments of a filtered frame lie: in order, each one
    an interval between the first and the last time of the frame. *)
Lemma emitted_segments_within (df : list Row) (first last : Row) (thr : Q)
    (segs : list Segment) :
  surviving_rows df -> iloc_first df = Return first -> iloc_last df = Return last ->
  consolidate_phases (map phase_row df) thr = Return segs ->
  time first <= time last
  /\ StronglySorted seg_before segs
  /\ Forall (fun seg => seg_start seg <= seg_end seg) segs
  /\ Forall (fun seg => time first <= seg_start seg) segs
  /\ Forall (fun seg => seg_end seg <= time last) segs.
Proof.
  intros Hsurv Hf Hl Hc.
  destruct (consolidated_segments df last thr segs Hsurv Hl Hc) as (_ & Hsorted & Hend).
  assert (Hmin : forall r, In r df -> time first <= time r).
  { destruct df as [|r0 rest]; [discriminate|]. injection Hf as <-.
    destruct Hsurv as [Hs _]. inversion Hs as [|? ? _ Hr0]; subst.
    intros r [<-|Hr]; [lra|].
    rewrite Forall_forall in Hr0. specialize (Hr0 r Hr).
    unfold row_time_lt in Hr0. lra. }
  split; [apply Hmin; now apply iloc_last_in|].
  split; [exact Hsorted|].
  split; [|split; [|exact Hend]]; apply Forall_forall; intros seg Hseg;
    destruct (emitted_segment_run df last thr segs seg Hsurv Hl Hc Hseg)
      as (r & rest & Hrun & _ & _ & Hstart & _ & Hspan & _); [exact Hspan|].
  rewrite Hstart.
  assert (Hr : In r (map phase_row df)).
  { rewrite <- (label_runs_concat (map phase_row df)).
    apply in_concat. exists (r :: rest). split; [exact Hrun|now left]. }
  apply in_map_iff in Hr. destruct Hr as (row & <- & Hrow). simpl. now apply Hmin.
Qed.

Lemma group_span_sum (df : list Row) (avg : FVal) (tt : Q) (p : Phase)
    (segs : list Segment) :
  TotalTime (agg p (group_of p (map (phase_datum df avg tt) segs)))
  = Qsum (map seg_span (filter (fun seg => phase_eqb (seg_phase seg) p) segs)).
Proof.
  rewrite group_of_map. cbn [agg TotalTime]. now rewrite map_map.
Qed.

(** X5.  In a report every phase record's total time is non-negative, the
    total times of the phase records add up to the summed lengths of the
    emitted segments, and that sum never exceeds the flight duration of the
    summary record. *)
Theorem phase_times_within_flight :
  forall (np_sqrt : Q -> Q) (vehicle_position : list PositionSample)
         (battery_status : list BatterySample) (df : list Row)
         (report : list ReportRecord) (segs : list Segment),
    df_combined np_sqrt vehicle_position battery_status = Return df ->
    process_ulog np_sqrt vehicle_position battery_status = Return report ->
    consolidate_phases (map phase_row df) 1.0 = Return segs ->
    exists tt,
      flight_time df = Return tt
      /\ 0 <= tt
      /\ (forall s, In (SummaryRecord s) report -> Summary_TotalTime s = tt)
      /\ Forall (fun a => 0 <= TotalTime a /\ TotalTime a <= tt) (phase_records report)
      /\ Qsum (map TotalTime (phase_records report)) == Qsum (map seg_span segs)
      /\ Qsum (map TotalTime (phase_records report)) <= tt.
Proof.
  intros np_sqrt pos bat df report segs Hdf Hrep Hc.
  pose proof (df_combined_surviving np_sqrt pos bat df Hdf) as Hsurv.
  destruct (process_ulog_inv np_sqrt pos bat report Hrep) as (df' & Hdf' & Han).
  rewrite Hdf in Hdf'. injection Hdf' as <-.
  destruct (analyse_inv df report Han) as (segs' & tt & aggs & Hc' & Ht & Hg & ->).
  rewrite Hc in Hc'. injection Hc' as <-.
  exists tt. split; [exact Ht|].
  unfold flight_time in Ht.
  destruct (iloc_last df) as [e|last] eqn:Hl; [discriminate|].
  destruct (iloc_first df) as [e|first] eqn:Hf; [discriminate|].
  cbn [bind] in Ht. injection Ht as <-.
  destruct (emitted_segments_within df first last 1.0 segs Hsurv Hf Hl Hc)
    as (Hfl & Hsorted & Hspan & Hlo & Hhi).
  rewrite phase_records_app.
  apply groupby_agg_inv in Hg. destruct Hg as [_ ->].
  split; [lra|]. split; [|split; [|split]].
  - intros s Hs. apply in_app_or in Hs. destruct Hs as [Hs|[Hs|[]]].
    + apply in_map_iff in Hs. destruct Hs as (a & Ea & _). discriminate.
    + injection Hs as <-. reflexivity.
  - apply Forall_forall. intros a Ha. apply in_flat_map in Ha.
    destruct Ha as (p & _ & Ha). apply group_records_in in Ha.
    destruct Ha as [_ ->]. rewrite group_span_sum. split.
    + apply Qsum_nonneg. rewrite Forall_map. apply Forall_filter.
      eapply Forall_impl; [|exact Hspan]. unfold seg_span. intros seg H. simpl in H. lra.
    + apply spans_sum_bound; try apply Forall_filter; try assumption.
      now apply StronglySorted_filter.
  - rewrite groupby_total_time, group_sum_total, map_map. reflexivity.
  - rewrite groupby_total_time, group_sum_total, map_map.
    cbn [phase_datum d_total_time].
    now apply (spans_sum_bound segs Hsorted Hspan (time first) (time last)).
Qed.

Lemma phase_times_within_flight_witness :
  exists df report segs tt,
    df_combined sqrt_micro flicker_flight steady_battery = Return df
    /\ process_ulog sqrt_micro flicker_flight steady_battery = Return report
    /\ consolidate_phases (map phase_row df) 1.0 = Return segs
    /\ flight_time df = Return tt
    /\ Qsum (map TotalTime (phase_records report)) <= tt.
Proof.
  destruct (df_combined sqrt_micro flicker_flight steady_battery) as [e|df] eqn:Edf;
    [vm_compute in Edf; discriminate|].
  destruct (process_ulog sqrt_micro flicker_flight steady_battery)
    as [e|report] eqn:Er; [vm_compute in Er; discriminate|].
  destruct (consolidate_phases (map phase_row df) 1.0) as [e|segs] eqn:Ec.
  { vm_compute in Edf. injection Edf as <-. vm_compute in Ec. discriminate. }
  destruct (phase_times_within_flight sqrt_micro flicker_flight steady_battery
              df report segs Edf Er Ec) as (tt & Ht & _ & _ & _ & _ & Hle).
  exists df, report, segs, tt.
  split; [reflexivity|]. split; [reflexivity|]. split; [exact Ec|].
  split; [exact Ht|exact Hle].
Defined.

(* ------------------------------------------------------------------ *)
(** ** Shares of the flight time *)

Lemma fold_fadd_finite (l : list Q) :
  forall acc, exists q,
    fold_left fadd (map Finite l) (Finite acc) = Finite q /\ q == acc + Qsum l.
Proof.
  induction l as [|x l IH]; intro acc.
  - exists acc. split; [reflexivity|]. unfold Qsum. simpl. lra.
  - destruct (IH (acc + x)) as (q & Hq & Eq). exists q.
    split; [exact Hq|]. unfold Qsum in *. simpl. lra.
Qed.

Lemma dropna_finite (l : list Q) : dropna (map Finite l) = map Finite l.
Proof.
  unfold dropna. induction l as [|x l IH]; simpl; [reflexivity|now rewrite IH].
Qed.

Lemma fsum_finite (l : list Q) :
  exists q, fsum (map Finite l) = Finite q /\ q == Qsum l.
Proof.
  unfold fsum. rewrite dropna_finite.
  destruct (fold_fadd_finite l 0) as (q & Hq & Eq).
  exists q. split; [exact Hq|lra].
Qed.

Lemma fsum_all_nan (l : list FVal) :
  Forall (fun v => v = NaN) l -> fsum l = Finite 0.
Proof.
  intro H. unfold fsum.
  assert (E : dropna l = []).
  { unfold dropna. induction H as [|v vs Hv _ IH]; simpl; [reflexivity|].
    subst v. simpl. exact IH. }
  now rewrite E.
Qed.

Lemma Qsum_share (f : Segment -> Q) (tt : Q) (l : list Segment) :
  Qsum (map (fun seg => f seg / tt * 100) l) == Qsum (map f l) / tt * 100.
Proof.
  induction l as [|a l IH]; unfold Qsum in *; cbn [map fold_right].
  - unfold Qdiv. ring.
  - rewrite IH. unfold Qdiv. ring.
Qed.

Lemma pct_time_positive (df : list Row) (avg : FVal) (tt : Q) (seg : Segment) :
  0 < tt ->
  d_pct_time (phase_datum df avg tt seg) = Finite (seg_span seg / tt * 100).
Proof.
  intro H. cbn [phase_datum d_pct_time]. unfold fdiv.
  assert (E : Qeq_bool tt 0 = false).
  { destruct (Qeq_bool tt 0) eqn:E; [|reflexivity].
    apply Qeq_bool_iff in E. lra. }
  rewrite E. reflexivity.
Qed.

Lemma pct_time_zero (df : list Row) (avg : FVal) (tt : Q) (seg : Segment) :
  tt == 0 -> seg_span seg == 0 ->
  d_pct_time (phase_datum df avg tt seg) = NaN.
Proof.
  intros Ht Hs. cbn [phase_datum d_pct_time]. unfold fdiv.
  assert (E1 : Qeq_bool tt 0 = true) by now apply Qeq_bool_iff.
  assert (E2 : Qeq_bool (seg_end seg - seg_start seg) 0 = true)
    by now apply Qeq_bool_iff.
  rewrite E1, E2. reflexivity.
Qed.

(** X6.  The share of the flight a phase record reports.  When the flight
    duration is positive it is the finite number total time / flight
    duration * 100 and lies between 0 and 100.  When the flight duration is
    zero every per-segment share is 0/0 and the group-by sum, which skips
    them, reports 0. *)
Theorem pct_time_shares :
  forall (np_sqrt : Q -> Q) (vehicle_position : list PositionSample)
         (battery_status : list BatterySample) (df : list Row)
         (report : list ReportRecord) (tt : Q),
    df_combined np_sqrt vehicle_position battery_status = Return df ->
    process_ulog np_sqrt vehicle_position battery_status = Return report ->
    flight_time df = Return tt ->
    (0 < tt ->
       forall a, In (PhaseRecord a) report ->
         exists q, PctTime a = Finite q
                   /\ q == TotalTime a / tt * 100
                   /\ 0 <= q /\ q <= 100)
    /\ (tt == 0 ->
          forall a, In (PhaseRecord a) report -> PctTime a = Finite 0).
Proof.
  intros np_sqrt pos bat df report tt Hdf Hrep Htt.
  pose proof (df_combined_surviving np_sqrt pos bat df Hdf) as Hsurv.
  destruct (process_ulog_inv np_sqrt pos bat report Hrep) as (df' & Hdf' & Han).
  rewrite Hdf in Hdf'. injection Hdf' as <-.
  destruct (analyse_inv df report Han) as (segs & tt' & aggs & Hc & Ht & Hg & ->).
  rewrite Htt in Ht. injection Ht as <-.
  unfold flight_time in Htt.
  destruct (iloc_last df) as [e|last] eqn:Hl; [discriminate|].
  destruct (iloc_first df) as [e|first] eqn:Hf; [discriminate|].
  cbn [bind] in Htt. injection Htt as Htt.
  destruct (emitted_segments_within df first last 1.0 segs Hsurv Hf Hl Hc)
    as (Hfl & Hsorted & Hspan & Hlo & Hhi).
  apply groupby_agg_inv in Hg. destruct Hg as [_ ->].
  assert (Hrec : forall a,
            In (PhaseRecord a)
               (map PhaseRecord (flat_map (group_records
                  (map (phase_datum df (avg_mAh_per_s_non_ground df) tt) segs))
                  group_keys)
                ++ [SummaryRecord (summary_data (total_mAh df) tt)]) ->
            exists p,
              a = agg p (map (phase_datum df (avg_mAh_per_s_non_ground df) tt)
                             (filter (fun seg => phase_eqb (seg_phase seg) p) segs))).
  { intros a Ha. apply in_app_or in Ha. destruct Ha as [Ha|[Ha|[]]]; [|discriminate].
    apply in_map_iff in Ha. destruct Ha as (a' & Ea & Ha). injection Ea as ->.
    apply in_flat_map in Ha. destruct Ha as (p & _ & Ha).
    apply group_records_in in Ha. destruct Ha as [_ ->].
    exists p. now rewrite group_of_map. }
  split.
  - intros Hpos a Ha. destruct (Hrec a Ha) as (p & ->).
    set (g := filter (fun seg => phase_eqb (seg_phase seg) p) segs).
    cbn [agg PctTime TotalTime]. rewrite !map_map.
    assert (E : map (fun seg => d_pct_time
                       (phase_datum df (avg_mAh_per_s_non_ground df) tt seg)) g
                = map Finite (map (fun seg => seg_span seg / tt * 100) g)).
    { rewrite map_map. apply map_ext. intro seg. now apply pct_time_positive. }
    rewrite E.
    destruct (fsum_finite (map (fun seg => seg_span seg / tt * 100) g))
      as (q & Hq & Eq).
    exists q. split; [exact Hq|].
    rewrite Qsum_share in Eq.
    change (map (fun seg => d_total_time
                   (phase_datum df (avg_mAh_per_s_non_ground df) tt seg)) g)
      with (map seg_span g).
    assert (H0 : 0 <= Qsum (map seg_span g)).
    { apply Qsum_nonneg. rewrite Forall_map. apply Forall_filter.
      eapply Forall_impl; [|exact Hspan]. unfold seg_span. intros seg H.
      simpl in H. lra. }
    assert (H1 : Qsum (map seg_span g) <= tt).
    { rewrite <- Htt.
      apply spans_sum_bound; try apply Forall_filter; try assumption.
      now apply StronglySorted_filter. }
    split; [exact Eq|]. rewrite Eq.
    assert (Hq0 : 0 <= Qsum (map seg_span g) / tt).
    { apply Qle_shift_div_l; [exact Hpos|]. lra. }
    assert (Hq1 : Qsum (map seg_span g) / tt <= 1).
    { apply Qle_shift_div_r; [exact Hpos|]. lra. }
    split; lra.
  - intros Hz a Ha. destruct (Hrec a Ha) as (p & ->).
    cbn [agg PctTime]. apply fsum_all_nan.
    rewrite !Forall_map. apply Forall_filter.
    apply Forall_forall. intros seg Hseg.
    apply pct_time_zero; [exact Hz|].
    rewrite Forall_forall in Hspan, Hlo, Hhi.
    specialize (Hspan seg Hseg). specialize (Hlo seg Hseg).
    specialize (Hhi seg Hseg). unfold seg_span. rewrite <- Htt in Hz. lra.
Qed.

Lemma pct_time_shares_witness :
  (exists df report tt a q,
     df_combined sqrt_micro climb_cruise_flight steady_battery = Return df
     /\ process_ulog sqrt_micro climb_cruise_flight steady_battery = Return report
     /\ flight_time df = Return tt /\ 0 < tt
     /\ In (PhaseRecord a) report
     /\ PctTime a = Finite q /\ q <= 100)
  /\ (exists df report tt a,
        df_combined sqrt_micro two_sample_flight steady_battery = Return df
        /\ process_ulog sqrt_micro two_sample_flight steady_battery = Return report
        /\ flight_time df = Return tt /\ tt == 0
        /\ In (PhaseRecord a) report
        /\ PctTime a = Finite 0).
Proof.
  split.
  - destruct (df_combined sqrt_micro climb_cruise_flight steady_battery)
      as [e|df] eqn:Edf; [vm_compute in Edf; discriminate|].
    destruct (process_ulog sqrt_micro climb_cruise_flight steady_battery)
      as [e|report] eqn:Er; [vm_compute in Er; discriminate|].
    destruct (flight_time df) as [e|tt] eqn:Et.
    { vm_compute in Edf. injection Edf as <-. vm_compute in Et. discriminate. }
    assert (Hpos : 0 < tt).
    { vm_compute in Edf. injection Edf as <-. vm_compute in Et.
      injection Et as <-. reflexivity. }
    destruct report as [|[a|s] report'];
      [vm_compute in Er; discriminate| |vm_compute in Er; discriminate].
    destruct (proj1 (pct_time_shares sqrt_micro climb_cruise_flight steady_battery
                       df (PhaseRecord a :: report') tt Edf Er Et) Hpos a)
      as (q & Hq & _ & _ & Hle); [now left|].
    exists df, (PhaseRecord a :: report'), tt, a, q.
    split; [reflexivity|]. split; [reflexivity|]. split; [exact Et|].
    split; [exact Hpos|]. split; [now left|]. split; [exact Hq|exact Hle].
  - destruct (df_combined sqrt_micro two_sample_flight steady_battery)
      as [e|df] eqn:Edf; [vm_compute in Edf; discriminate|].
    destruct (process_ulog sqrt_micro two_sample_flight steady_battery)
      as [e|report] eqn:Er; [vm_compute in Er; discriminate|].
    destruct (flight_time df) as [e|tt] eqn:Et.
    { vm_compute in Edf. injection Edf as <-. vm_compute in Et. discriminate. }
    assert (Hz : tt == 0).
    { vm_compute in Edf. injection Edf as <-. vm_compute in Et.
      injection Et as <-. reflexivity. }
    destruct report as [|[a|s] report'];
      [vm_compute in Er; discriminate| |vm_compute in Er; discriminate].
    exists df, (PhaseRecord a :: report'), tt, a.
    split; [reflexivity|]. split; [reflexivity|]. split; [exact Et|].
    split; [exact Hz|]. split; [now left|].
    apply (proj2 (pct_time_shares sqrt_micro two_sample_flight steady_battery
                    df (PhaseRecord a :: report') tt Edf Er Et) Hz a).
    now left.
Defined.

(* ------------------------------------------------------------------ *)
(** ** The regions of the default thresholds *)



(* ------------------------------------------------------------------ *)
(** ** The threshold of the consolidator *)

Lemma sublist_filter {A : Type} (f g : A -> bool) (l : list A) :
  (forall x, f x = true -> g x = true) ->
  sublist (filter f l) (filter g l).
Proof.
  intro H. induction l as [|x l IH]; simpl; [constructor|].
  destruct (f x) eqn:Ef.
  - rewrite (H x Ef). now constructor.
  - destruct (g x); [now constructor|exact IH].
Qed.

Lemma sublist_map {A B : Type} (h : A -> B) (l1 l2 : list A) :
  sublist l1 l2 -> sublist (map h l1) (map h l2).
Proof. induction 1; simpl; now constructor. Qed.

Lemma sublist_in {A : Type} (l1 l2 : list A) (x : A) :
  sublist l1 l2 -> In x l1 -> In x l2.
Proof.
  induction 1 as [|y l1 l2 _ IH|y l1 l2 _ IH]; simpl; intro H; [contradiction| |].
  - destruct H as [H|H]; [now left|right; now apply IH].
  - right. now apply IH.
Qed.

(** X8.  Raising the time threshold only removes segments: on the same rows
    the segments emitted under the higher threshold are, in the same order
    and with the same start and end, among those emitted under the lower
    one. *)
Theorem consolidate_phases_monotone :
  forall (df : list PhaseRow) (low high : Q) (segs_low segs_high : list Segment),
    low <= high ->
    consolidate_phases df low = Return segs_low ->
    consolidate_phases df high = Return segs_high ->
    sublist segs_high segs_low
    /\ forall seg, In seg segs_high -> In seg segs_low.
Proof.
  intros df low high segs_low segs_high Hle Hlow Hhigh.
  assert (Hne : df <> []) by (intros ->; discriminate Hlow).
  destruct (iloc_last_total df Hne) as (last & Hl).
  rewrite (consolidate_phases_runs df low last Hl) in Hlow. injection Hlow as <-.
  rewrite (consolidate_phases_runs df high last Hl) in Hhigh. injection Hhigh as <-.
  assert (Hsub : sublist (surviving high (run_segments (pr_time last) (label_runs df)))
                         (surviving low (run_segments (pr_time last) (label_runs df)))).
  { unfold surviving. apply sublist_map. apply sublist_filter.
    intros [run seg] H. simpl in *. bool_to_order. apply Qgeb_ge. lra. }
  split; [exact Hsub|]. intros seg. now apply sublist_in.
Qed.

Lemma consolidate_phases_monotone_witness :
  exists segs_low segs_high,
    consolidate_phases climb_flicker_cruise 0.5 = Return segs_low
    /\ consolidate_phases climb_flicker_cruise 1 = Return segs_high
    /\ List.length segs_low = 3%nat /\ List.length segs_high = 2%nat
    /\ sublist segs_high segs_low.
Proof.
  destruct (consolidate_phases climb_flicker_cruise 0.5) as [e|segs_low] eqn:E1;
    [vm_compute in E1; discriminate|].
  destruct (consolidate_phases climb_flicker_cruise 1) as [e|segs_high] eqn:E2;
    [vm_compute in E2; discriminate|].
  exists segs_low, segs_high.
  split; [reflexivity|]. split; [reflexivity|].
  split; [vm_compute in E1; injection E1 as <-; reflexivity|].
  split; [vm_compute in E2; injection E2 as <-; reflexivity|].
  apply (consolidate_phases_monotone climb_flicker_cruise 0.5 1 segs_low segs_high);
    [discriminate|exact E1|exact E2].
Defined.

(* ------------------------------------------------------------------ *)
(** ** The stand-alone script against the backend *)

Lemma derive_nonnegative (np_sqrt : Q -> Q) (vehicle_position : list PositionSample)
    (battery_status : list BatterySample)
    (merged : list (Timed PositionSample * Timed BatterySample)) :
  aligned vehicle_position battery_status = Return merged ->
  Forall (fun r => 0 <= time_delta r) (derive np_sqrt merged).
Proof.
  intro Ha. pose proof (aligned_sorted _ _ _ Ha) as Hs.
  destruct merged as [|m rest]; [constructor|].
  simpl in Hs. inversion Hs as [|? ? Hs' Hm]; subst.
  rewrite Forall_map in Hm. unfold time_le in Hm.
  unfold derive. cbn [derive_from]. constructor; [simpl; lra|].
  now apply derive_from_nonnegative.
Qed.

Lemma derive_from_chain (np_sqrt : Q -> Q)
    (l : list (Timed PositionSample * Timed BatterySample)) :
  forall p, time_chain p (derive_from np_sqrt (Some p) l).
Proof.
  induction l as [|m rest IH]; intro p; [exact I|].
  cbn [derive_from time_chain]. split; [simpl; reflexivity|]. apply IH.
Qed.

Lemma derive_chain (np_sqrt : Q -> Q) (vehicle_position : list PositionSample)
    (battery_status : list BatterySample)
    (merged : list (Timed PositionSample * Timed BatterySample)) :
  aligned vehicle_position battery_status = Return merged ->
  time_chain 0 (derive np_sqrt merged).
Proof.
  intro Ha. destruct merged as [|m rest]; [exact I|].
  pose proof (aligned_head_zero _ _ _ _ Ha) as Hz.
  unfold derive. cbn [derive_from time_chain].
  split; [simpl; lra|]. apply derive_from_chain.
Qed.

(** Rows on which no time passes weigh nothing in a sum over [time_delta]. *)
Lemma Qsum_positive_delta (h : Row -> Q) (df : list Row) :
  Forall (fun r => 0 <= time_delta r) df ->
  Qsum (map (fun r => h r * time_delta r) df)
  == Qsum (map (fun r => h r * time_delta r) (positive_delta df)).
Proof.
  induction 1 as [|r df Hr _ IH]; [reflexivity|].
  unfold positive_delta in *. cbn [filter map].
  destruct (time_delta r >? 0) eqn:E; bool_to_order; unfold Qsum in *;
    cbn [map fold_right]; rewrite IH; [reflexivity|].
  assert (Ez : time_delta r == 0) by lra. rewrite Ez. ring.
Qed.

Lemma Qsum_scale (f : Row -> Q) (k : Q) (l : list Row) :
  Qsum (map (fun r => f r / k) l) == Qsum (map f l) / k.
Proof.
  induction l as [|a l IH]; unfold Qsum in *; cbn [map fold_right].
  - unfold Qdiv. ring.
  - rewrite IH. unfold Qdiv. ring.
Qed.

(** X9.  The two files on the same log.  The backend's frame is the
    script's frame less the rows on which no time passes.  Those rows carry
    no charge, so the backend's total (in mAh, divisor 3.6) is 1000 times the
    script's (divisor 3600).  The flight durations differ: the script's runs
    from the start of the log, the backend's from its first surviving row,
    and is shorter by that row's time_delta. *)
Theorem script_backend_totals :
  forall (np_sqrt : Q -> Q) (vehicle_position : list PositionSample)
         (battery_status : list BatterySample)
         (script_df : list Row) (first : Row) (rest : list Row),
    Script.df_combined np_sqrt vehicle_position battery_status = Return script_df ->
    df_combined np_sqrt vehicle_position battery_status = Return (first :: rest) ->
    first :: rest = positive_delta script_df
    /\ total_mAh (first :: rest) == 1000 * Script.total_mAh script_df
    /\ exists script_time backend_time,
         Script.total_time script_df = Return script_time
         /\ flight_time (first :: rest) = Return backend_time
         /\ script_time == backend_time + time_delta first
         /\ backend_time < script_time.
Proof.
  intros np_sqrt pos bat sdf first rest Hs Hb.
  pose proof (df_combined_chain _ _ _ _ Hb) as Hcb.
  pose proof (df_combined_surviving _ _ _ _ Hb) as [_ Hpos].
  unfold Script.df_combined in Hs. unfold df_combined in Hb.
  destruct (aligned pos bat) as [e|merged] eqn:Ea; [discriminate|].
  cbn [bind] in Hs, Hb. injection Hs as <-. injection Hb as Hb.
  pose proof (derive_nonnegative np_sqrt _ _ _ Ea) as Hnn.
  pose proof (derive_chain np_sqrt _ _ _ Ea) as Hcs.
  split; [now rewrite Hb|]. split.
  - unfold total_mAh, Script.total_mAh, mAh.
    rewrite (Qsum_scale (fun r => current r * time_delta r) 3.6).
    rewrite (Qsum_positive_delta current _ Hnn), Hb. field.
  - assert (Hne : derive np_sqrt merged <> []).
    { intro E. rewrite E in Hb. discriminate Hb. }
    destruct (iloc_last_total _ Hne) as (slast & Hsl).
    destruct (iloc_last_total (first :: rest)) as (blast & Hbl); [discriminate|].
    destruct merged as [|m ms]; [exfalso; now apply Hne|].
    exists (time slast - at_time (fst m)), (time blast - time first).
    split; [unfold Script.total_time; rewrite Hsl; reflexivity|].
    split; [unfold flight_time; rewrite Hbl; reflexivity|].
    pose proof (time_chain_sum _ 0 slast Hcs Hsl) as Hsum_s.
    pose proof (time_chain_sum _ 0 blast Hcb Hbl) as Hsum_b.
    pose proof (Qsum_positive_delta (fun _ => 1) _ Hnn) as Hsame.
    rewrite Hb in Hsame.
    assert (E1 : forall l, Qsum (map (fun r : Row => 1 * time_delta r) l)
                           == Qsum (map time_delta l)).
    { induction l as [|a l IH]; unfold Qsum in *; cbn [map fold_right];
        [reflexivity|]. rewrite IH. ring. }
    rewrite !E1 in Hsame.
    pose proof (aligned_head_zero _ _ _ _ Ea) as Hz.
    destruct Hcb as [Hfirst _]. inversion Hpos as [|? ? Hfpos _]; subst.
    split; lra.
Qed.

Lemma script_backend_totals_witness :
  exists script_df first rest,
    Script.df_combined sqrt_micro climb_cruise_flight steady_battery = Return script_df
    /\ df_combined sqrt_micro climb_cruise_flight steady_battery = Return (first :: rest)
    /\ total_mAh (first :: rest) == 1000 * Script.total_mAh script_df.
Proof.
  destruct (Script.df_combined sqrt_micro climb_cruise_flight steady_battery)
    as [e|sdf] eqn:Es; [vm_compute in Es; discriminate|].
  destruct (df_combined sqrt_micro climb_cruise_flight steady_battery)
    as [e|df] eqn:Edf; [vm_compute in Edf; discriminate|].
  destruct df as [|first rest]; [vm_compute in Edf; discriminate|].
  exists sdf, first, rest. split; [reflexivity|]. split; [reflexivity|].
  exact (proj1 (proj2 (script_backend_totals sqrt_micro climb_cruise_flight
                         steady_battery sdf first rest Es Edf))).
Defined.

(* ------------------------------------------------------------------ *)
(** ** The upload route *)

Lemma disk_write_same (disk : Disk) (path content : string) :
  disk_write disk path content path = Some content.
Proof. unfold disk_write. now rewrite String.eqb_refl. Qed.

Lemma disk_write_other (disk : Disk) (path content p : string) :
  p <> path -> disk_write disk path content p = disk p.
Proof.
  intro H. unfold disk_write. destruct (String.eqb p path) eqn:E; [|reflexivity].
  apply String.eqb_eq in E. contradiction.
Qed.

Section UploadProperties.

Variable np_sqrt : Q -> Q.
Variable path_join : string -> string -> string.
Variable writable : string -> bool.
Variable ulog_datasets :
  string -> string + (list PositionSample * list BatterySample).
Variable to_json : list ReportRecord -> string.
Variable str : Exn -> string.
Variable os_error : string -> string.

Let view := upload_file np_sqrt path_join writable ulog_datasets to_json str os_error.
Let analysis :=
  process_ulog_file np_sqrt path_join writable ulog_datasets to_json str os_error.

(** The analysis leaves every file where it is, the result file apart. *)
Lemma process_ulog_file_disk (disk : Disk) (file_path output_path : string) :
  let output_file := path_join RESULT_FOLDER output_path in
  forall p, p <> output_file ->
    fst (analysis disk file_path output_path) p = disk p.
Proof.
  intros output_file p Hp. unfold analysis, process_ulog_file.
  destruct (disk file_path) as [bytes|]; [|reflexivity].
  destruct (ulog_datasets bytes) as [message|[pos bat]]; [reflexivity|].
  destruct (process_ulog np_sqrt pos bat) as [e|report]; [reflexivity|].
  fold output_file. destruct (writable output_file); [|reflexivity].
  simpl. now apply disk_write_other.
Qed.

(** X10.  The view answers 400 exactly when the request has no part named
    file, or the part's file name is empty or does not end in .ulg; in
    that case nothing is written to disk. *)
Theorem upload_rejected :
  forall (files : list (string * FileStorage)) (disk : Disk),
    ((exists body, fst (view files disk) = Response body 400)
     <-> (files_get files "file" = None
          \/ exists file,
               files_get files "file" = Some file
               /\ (filename file = EmptyString
                   \/ endswith (filename file) ".ulg" = false)))
    /\ ((exists body, fst (view files disk) = Response body 400) ->
        snd (view files disk) = disk)
    /\ (files_get files "file" = None ->
        fst (view files disk) = Response (JsonError "No file uploaded") 400).
Proof.
  intros files disk. unfold view, upload_file.
  destruct (files_get files "file") as [file|] eqn:Ef.
  - destruct (String.eqb (filename file) EmptyString) eqn:E1.
    + apply String.eqb_eq in E1. cbn [orb fst snd].
      split; [|split; [reflexivity|discriminate]].
      split; [|intros _; eexists; reflexivity].
      intros _. right. exists file. split; [reflexivity|now left].
    + destruct (endswith (filename file) ".ulg") eqn:E2; cbn [orb negb fst snd].
      * assert (Hno : forall body,
                  fst (if writable (path_join UPLOAD_FOLDER (filename file))
                       then
                         let (disk', result_file) :=
                           process_ulog_file np_sqrt path_join writable ulog_datasets
                             to_json str os_error
                             (disk_write disk (path_join UPLOAD_FOLDER (filename file))
                                (stream file))
                             (path_join UPLOAD_FOLDER (filename file))
                             "phase_analysis.json" in
                         if endswith result_file ".json"
                         then match disk' result_file with
                              | Some results => (Response (Text results) 200, disk')
                              | None => (Unhandled, disk')
                              end
                         else (Response (JsonError result_file) 500, disk')
                       else (Unhandled, disk))
                  <> Response body 400).
        { intro body.
          destruct (writable (path_join UPLOAD_FOLDER (filename file)));
            [|discriminate].
          destruct (process_ulog_file _ _ _ _ _ _ _ _ _ _) as [disk' result_file].
          destruct (endswith result_file ".json"); [|discriminate].
          destruct (disk' result_file); discriminate. }
        split; [|split].
        -- split.
           ++ intros (body & Hb). now apply Hno in Hb.
           ++ intros [H|(file' & Hf & [H|H])]; [discriminate| |].
              ** injection Hf as <-. rewrite H in E1. discriminate.
              ** injection Hf as <-. congruence.
        -- intros (body & Hb). now apply Hno in Hb.
        -- discriminate.
      * apply String.eqb_neq in E1.
        split; [|split; [reflexivity|discriminate]].
        split; [|intros _; eexists; reflexivity].
        intros _. right. exists file. split; [reflexivity|now right].
  - cbn [fst snd]. split; [|split; reflexivity].
    split; [intros _; now left|intros _; eexists; reflexivity].
Qed.

(** X11.  An accepted upload is stored under the uploads folder and
    analysed.  When the analysis returns a report the view answers 200 with
    the very text [to_json] wrote to the result file; when it raises, the
    view answers 500 with the exception's message; either way the uploaded
    file stays on disk. *)
Theorem upload_round_trip :
  forall (files : list (string * FileStorage)) (disk : Disk) (file : FileStorage)
         (vehicle_position : list PositionSample)
         (battery_status : list BatterySample),
    let file_path := path_join UPLOAD_FOLDER (filename file) in
    let output_file := path_join RESULT_FOLDER "phase_analysis.json" in
    files_get files "file" = Some file ->
    filename file <> EmptyString ->
    endswith (filename file) ".ulg" = true ->
    writable file_path = true ->
    ulog_datasets (stream file) = inr (vehicle_position, battery_status) ->
    (forall report,
        process_ulog np_sqrt vehicle_position battery_status = Return report ->
        writable output_file = true ->
        endswith output_file ".json" = true ->
        view files disk
        = (Response (Text (to_json report)) 200,
           disk_write (disk_write disk file_path (stream file))
                      output_file (to_json report))
        /\ snd (view files disk) output_file = Some (to_json report)
        /\ (file_path <> output_file ->
            snd (view files disk) file_path = Some (stream file)))
    /\ (forall e,
          process_ulog np_sqrt vehicle_position battery_status = Raise e ->
          endswith (str e) ".json" = false ->
          view files disk
          = (Response (JsonError (str e)) 500,
             disk_write disk file_path (stream file))
          /\ snd (view files disk) file_path = Some (stream file)).
Proof.
  intros files disk file pos bat file_path output_file Hf Hname Hext Hw Hd.
  assert (Hpre : forall out,
            (let (disk', result_file) :=
               process_ulog_file np_sqrt path_join writable ulog_datasets to_json
                 str os_error (disk_write disk file_path (stream file)) file_path
                 "phase_analysis.json" in
             if endswith result_file ".json"
             then match disk' result_file with
                  | Some results => (Response (Text results) 200, disk')
                  | None => (Unhandled, disk')
                  end
             else (Response (JsonError result_file) 500, disk')) = out ->
            view files disk = out).
  { intros out <-. unfold view, upload_file. rewrite Hf.
    apply String.eqb_neq in Hname. rewrite Hname, Hext. cbn [orb negb].
    fold file_path. rewrite Hw. reflexivity. }
  split.
  - intros report Hr Hwo Hj.
    assert (Hv : view files disk
                 = (Response (Text (to_json report)) 200,
                    disk_write (disk_write disk file_path (stream file))
                               output_file (to_json report))).
    { apply Hpre. unfold process_ulog_file.
      rewrite disk_write_same, Hd, Hr. fold output_file. rewrite Hwo, Hj.
      now rewrite disk_write_same. }
    split; [exact Hv|]. rewrite Hv. cbn [snd].
    split; [apply disk_write_same|].
    intro Hneq. rewrite disk_write_other by exact Hneq. apply disk_write_same.
  - intros e He Hj.
    assert (Hv : view files disk
                 = (Response (JsonError (str e)) 500,
                    disk_write disk file_path (stream file))).
    { apply Hpre. unfold process_ulog_file.
      rewrite disk_write_same, Hd, He. now rewrite Hj. }
    split; [exact Hv|]. rewrite Hv. apply disk_write_same.
Qed.

End UploadProperties.

Lemma upload_round_trip_witness :
  (exists report,
     process_ulog sqrt_micro climb_cruise_flight steady_battery = Return report
     /\ upload_file sqrt_micro posix_join (fun _ => true) demo_datasets demo_json
          demo_str demo_os_error
          [("file"%string, {| filename := "flight.ulg"; stream := "climb" |})]
          empty_disk
        = (Response (Text (demo_json report)) 200,
           disk_write (disk_write empty_disk "uploads/flight.ulg" "climb")
                      "results/phase_analysis.json" (demo_json report)))
  /\ upload_file sqrt_micro posix_join (fun _ => true) demo_datasets demo_json
       demo_str demo_os_error
       [("file"%string, {| filename := "flight.ulg"; stream := "still" |})]
       empty_disk
     = (Response (JsonError (demo_str IndexError)) 500,
        disk_write empty_disk "uploads/flight.ulg" "still").
Proof.
  split.
  - destruct (process_ulog sqrt_micro climb_cruise_flight steady_battery)
      as [e|report] eqn:Er; [vm_compute in Er; discriminate|].
    exists report. split; [reflexivity|].
    apply (proj1 (upload_round_trip sqrt_micro posix_join (fun _ => true)
                    demo_datasets demo_json demo_str demo_os_error
                    [("file"%string, {| filename := "flight.ulg"; stream := "climb" |})]
                    empty_disk {| filename := "flight.ulg"; stream := "climb" |}
                    climb_cruise_flight steady_battery
                    eq_refl ltac:(discriminate) eq_refl eq_refl eq_refl)
                 report Er eq_refl eq_refl).
  - apply (proj2 (upload_round_trip sqrt_micro posix_join (fun _ => true)
                    demo_datasets demo_json demo_str demo_os_error
                    [("file"%string, {| filename := "flight.ulg"; stream := "still" |})]
                    empty_disk {| filename := "flight.ulg"; stream := "still" |}
                    [motion 0 0 0 0] steady_battery
                    eq_refl ltac:(discriminate) eq_refl eq_refl eq_refl)
                 IndexError eq_refl eq_refl).
Defined.

(** Whatever the analysis comes to, an accepted upload is on disk when the
    view is done, unless the result file took its place. *)
Lemma upload_kept (np_sqrt : Q -> Q) (path_join : string -> string -> string)
    (writable : string -> bool)
    (ulog_datasets : string -> string + (list PositionSample * list BatterySample))
    (to_json : list ReportRecord -> string) (str : Exn -> string)
    (os_error : string -> string)
    (files : list (string * FileStorage)) (disk : Disk) (file : FileStorage) :
  files_get files "file" = Some file ->
  filename file <> EmptyString ->
  endswith (filename file) ".ulg" = true ->
  writable (path_join UPLOAD_FOLDER (filename file)) = true ->
  path_join UPLOAD_FOLDER (filename file)
    <> path_join RESULT_FOLDER "phase_analysis.json"%string ->
  snd (upload_file np_sqrt path_join writable ulog_datasets to_json str os_error
         files disk)
      (path_join UPLOAD_FOLDER (filename file))
  = Some (stream file).
Proof.
  intros Hf Hname Hext Hw Hneq. unfold upload_file. rewrite Hf.
  apply String.eqb_neq in Hname. rewrite Hname, Hext. cbn [orb negb]. rewrite Hw.
  pose proof (process_ulog_file_disk np_sqrt path_join writable ulog_datasets
                to_json str os_error
                (disk_write disk (path_join UPLOAD_FOLDER (filename file)) (stream file))
                (path_join UPLOAD_FOLDER (filename file)) "phase_analysis.json"%string
                (path_join UPLOAD_FOLDER (filename file)) Hneq) as Hkeep.
  rewrite disk_write_same in Hkeep.
  destruct (process_ulog_file _ _ _ _ _ _ _ _ _ _) as [disk' result_file].
  cbn [fst] in Hkeep.
  destruct (endswith result_file ".json"); [|exact Hkeep].
  destruct (disk' result_file); exact Hkeep.
Qed.

Lemma posix_join_uploads (name : string) :
  (prefix "/" name = true -> posix_join UPLOAD_FOLDER name = name)
  /\ (prefix "/" name = false ->
      posix_join UPLOAD_FOLDER name = ("uploads/" ++ name)%string)
  /\ posix_join UPLOAD_FOLDER name
     <> posix_join RESULT_FOLDER "phase_analysis.json".
Proof.
  assert (Hres : posix_join RESULT_FOLDER "phase_analysis.json"
                 = "results/phase_analysis.json"%string) by reflexivity.
  rewrite Hres. unfold posix_join. destruct (prefix "/" name) eqn:E.
  - split; [reflexivity|]. split; [discriminate|].
    destruct name as [|c name']; [discriminate|].
    cbn [prefix] in E.
    destruct (Ascii.ascii_dec _ c) as [<-|]; [|discriminate].
    discriminate.
  - split; [discriminate|]. split; [reflexivity|].
    change (String.eqb UPLOAD_FOLDER EmptyString || endswith UPLOAD_FOLDER "/")
      with false.
    cbn [UPLOAD_FOLDER append]. discriminate.
Qed.

(** X12.  On a POSIX system every accepted upload is written, whatever
    the analysis comes to, at [os.path.join("uploads", filename)] with the
    file name as the client sent it: under the uploads folder for a
    relative name, and at the named path itself when the name is absolute.
    The view does not sanitise the name. *)
Theorem upload_path_unsanitised :
  forall (np_sqrt : Q -> Q) (writable : string -> bool)
         (ulog_datasets :
            string -> string + (list PositionSample * list BatterySample))
         (to_json : list ReportRecord -> string) (str : Exn -> string)
         (os_error : string -> string)
         (files : list (string * FileStorage)) (disk : Disk) (file : FileStorage),
    files_get files "file" = Some file ->
    endswith (filename file) ".ulg" = true ->
    writable (posix_join UPLOAD_FOLDER (filename file)) = true ->
    snd (upload_file np_sqrt posix_join writable ulog_datasets to_json str os_error
           files disk)
        (posix_join UPLOAD_FOLDER (filename file))
    = Some (stream file)
    /\ (prefix "/" (filename file) = true ->
        posix_join UPLOAD_FOLDER (filename file) = filename file)
    /\ (prefix "/" (filename file) = false ->
        posix_join UPLOAD_FOLDER (filename file)
        = ("uploads/" ++ filename file)%string).
Proof.
  intros np_sqrt writable ulog_datasets to_json str os_error files disk file
         Hf Hext Hw.
  destruct (posix_join_uploads (filename file)) as (Habs & Hrel & Hneq).
  split; [|split; assumption].
  apply upload_kept; try assumption.
  intro E. rewrite E in Hext. discriminate Hext.
Qed.

Lemma upload_path_unsanitised_witness :
  snd (upload_file sqrt_micro posix_join (fun _ => true) demo_datasets demo_json
         demo_str demo_os_error
         [("file"%string, {| filename := "/srv/app/battery.ulg"; stream := "climb" |})]
         empty_disk)
      "/srv/app/battery.ulg"%string
  = Some "climb"%string.
Proof.
  exact (proj1 (upload_path_unsanitised sqrt_micro (fun _ => true) demo_datasets
                  demo_json demo_str demo_os_error
                  [("file"%string,
                    {| filename := "/srv/app/battery.ulg"; stream := "climb" |})]
                  empty_disk
                  {| filename := "/srv/app/battery.ulg"; stream := "climb" |}
                  eq_refl eq_refl eq_refl)).
Defined.

(* ------------------------------------------------------------------ *)
(** ** What the report does not depend on *)

Lemma insert_by_time_on_sample {A B : Type} (f : A -> B) (x : Timed A)
    (l : list (Timed A)) :
  insert_by_time (on_sample f x) (map (on_sample f) l)
  = map (on_sample f) (insert_by_time x l).
Proof.
  induction l as [|y ys IH]; [reflexivity|].
  cbn [map insert_by_time on_sample at_time].
  destruct (at_time x <=? at_time y); [reflexivity|].
  cbn [map]. f_equal. exact IH.
Qed.

Lemma sort_values_on_sample {A B : Type} (f : A -> B) (l : list (Timed A)) :
  sort_values (map (on_sample f) l) = map (on_sample f) (sort_values l).
Proof.
  induction l as [|x xs IH]; [reflexivity|].
  cbn [map sort_values]. rewrite IH. apply insert_by_time_on_sample.
Qed.

Lemma asof_backward_on_sample {A B : Type} (f : A -> B) (right : list (Timed A))
    (t : Q) :
  asof_backward (map (on_sample f) right) t
  = option_map (on_sample f) (asof_backward right t).
Proof.
  induction right as [|b bs IH]; [reflexivity|].
  cbn [map asof_backward on_sample at_time]. rewrite IH.
  destruct (at_time b <=? t); [|reflexivity].
  destruct (asof_backward bs t); reflexivity.
Qed.

Lemma asof_forward_on_sample {A B : Type} (f : A -> B) (right : list (Timed A))
    (t : Q) :
  asof_forward (map (on_sample f) right) t
  = option_map (on_sample f) (asof_forward right t).
Proof.
  induction right as [|b bs IH]; [reflexivity|].
  cbn [map asof_forward on_sample at_time]. rewrite IH.
  destruct (at_time b >=? t); reflexivity.
Qed.

Lemma asof_nearest_on_sample {A B : Type} (f : A -> B) (right : list (Timed A))
    (t : Q) :
  asof_nearest (map (on_sample f) right) t
  = option_map (on_sample f) (asof_nearest right t).
Proof.
  unfold asof_nearest.
  rewrite asof_backward_on_sample, asof_forward_on_sample.
  destruct (asof_backward right t) as [b|], (asof_forward right t) as [g|];
    cbn [option_map on_sample at_time]; try reflexivity.
  destruct (t - at_time b <=? at_time g - t); reflexivity.
Qed.

Lemma matched_on_sample {A B C : Type} (h : B -> C) (l : list (A * option B)) :
  matched (map (fun x => (fst x, option_map h (snd x))) l)
  = match matched l with
    | Raise e => Raise e
    | Return rows => Return (map (fun m => (fst m, h (snd m))) rows)
    end.
Proof.
  induction l as [|[a [b|]] rest IH]; [reflexivity| |reflexivity].
  cbn [map matched fst snd option_map]. rewrite IH.
  destruct (matched rest); reflexivity.
Qed.

Lemma aligned_with_voltage (voltage : BatterySample -> Q)
    (vehicle_position : list PositionSample) (battery_status : list BatterySample) :
  aligned vehicle_position (map (with_voltage voltage) battery_status)
  = match aligned vehicle_position battery_status with
    | Raise e => Raise e
    | Return merged =>
        Return (map (fun m => (fst m, on_sample (with_voltage voltage) (snd m)))
                    merged)
    end.
Proof.
  unfold aligned, time_column.
  destruct vehicle_position as [|p ps]; [reflexivity|].
  destruct battery_status as [|b bs]; [reflexivity|].
  cbn [map iloc_first bind].
  change (b_timestamp (with_voltage voltage b)) with (b_timestamp b).
  assert (E : with_time b_timestamp (b_timestamp b)
                (with_voltage voltage b :: map (with_voltage voltage) bs)
              = map (on_sample (with_voltage voltage))
                    (with_time b_timestamp (b_timestamp b) (b :: bs))).
  { unfold with_time. change (with_voltage voltage b :: map (with_voltage voltage) bs)
      with (map (with_voltage voltage) (b :: bs)).
    rewrite !map_map. reflexivity. }
  rewrite E, sort_values_on_sample.
  rewrite <- matched_on_sample. f_equal.
  unfold merge_asof. rewrite map_map. apply map_ext. intro l.
  cbn [fst snd]. now rewrite asof_nearest_on_sample.
Qed.

Lemma derive_from_with_voltage (np_sqrt : Q -> Q) (voltage : BatterySample -> Q)
    (l : list (Timed PositionSample * Timed BatterySample)) :
  forall prev,
    derive_from np_sqrt prev
      (map (fun m => (fst m, on_sample (with_voltage voltage) (snd m))) l)
    = map (row_with_voltage voltage) (derive_from np_sqrt prev l).
Proof.
  induction l as [|m rest IH]; intro prev; [reflexivity|].
  cbn [map derive_from fst]. rewrite IH. reflexivity.
Qed.

Lemma filter_map_comm {A B : Type} (g : A -> B) (f : B -> bool) (l : list A) :
  filter f (map g l) = map g (filter (fun x => f (g x)) l).
Proof.
  induction l as [|x l IH]; [reflexivity|].
  cbn [map filter]. rewrite IH. destruct (f (g x)); reflexivity.
Qed.

Lemma iloc_last_map_all {A B : Type} (g : A -> B) (l : list A) :
  iloc_last (map g l)
  = match iloc_last l with Raise e => Raise e | Return x => Return (g x) end.
Proof.
  induction l as [|a l IH]; [reflexivity|].
  destruct l as [|b l']; [reflexivity|].
  change (iloc_last (map g (a :: b :: l'))) with (iloc_last (map g (b :: l'))).
  rewrite IH. reflexivity.
Qed.

(** The analysis reads the time, the motion columns, the current and the
    derived columns of a row, and nothing else. *)
Lemma analyse_with_voltage (voltage : BatterySample -> Q) (df : list Row) :
  analyse (map (row_with_voltage voltage) df) = analyse df.
Proof.
  set (g := row_with_voltage voltage).
  assert (Hphase : map phase_row (map g df) = map phase_row df).
  { rewrite map_map. reflexivity. }
  assert (Hm : forall l, map mAh (map g l) = map mAh l).
  { intro l. rewrite map_map. reflexivity. }
  assert (Hd : forall l, map time_delta (map g l) = map time_delta l).
  { intro l. rewrite map_map. reflexivity. }
  assert (Hng : non_ground (map g df) = map g (non_ground df)).
  { unfold non_ground. now rewrite filter_map_comm. }
  assert (Havg : avg_mAh_per_s_non_ground (map g df) = avg_mAh_per_s_non_ground df).
  { unfold avg_mAh_per_s_non_ground, total_mAh_non_ground, total_time_non_ground.
    now rewrite Hng, Hm, Hd. }
  assert (Hdatum : forall avg tt seg,
            phase_datum (map g df) avg tt seg = phase_datum df avg tt seg).
  { intros avg tt seg. unfold phase_datum, phase_df.
    rewrite filter_map_comm, Hm. reflexivity. }
  assert (Htime : flight_time (map g df) = flight_time df).
  { unfold flight_time. rewrite iloc_last_map_all.
    destruct (iloc_last df) as [e|last]; [reflexivity|].
    destruct df as [|first rest]; reflexivity. }
  assert (Htotal : total_mAh (map g df) = total_mAh df).
  { unfold total_mAh. now rewrite Hm. }
  unfold analyse. rewrite Hphase, Htime, Havg, Htotal.
  destruct (consolidate_phases (map phase_row df) 1.0) as [e|segs]; [reflexivity|].
  destruct (flight_time df) as [e|tt]; [reflexivity|].
  cbn [bind].
  assert (E : map (phase_datum (map g df) (avg_mAh_per_s_non_ground df) tt) segs
              = map (phase_datum df (avg_mAh_per_s_non_ground df) tt) segs).
  { apply map_ext. intro seg. apply Hdatum. }
  now rewrite E.
Qed.

(** X13.  The voltage column is read into the frame and never used: with
    any other voltage readings in the battery dataset the run ends the same
    way, with the same exception or with the same report. *)
Theorem voltage_never_used :
  forall (np_sqrt : Q -> Q) (voltage : BatterySample -> Q)
         (vehicle_position : list PositionSample)
         (battery_status : list BatterySample),
    process_ulog np_sqrt vehicle_position (map (with_voltage voltage) battery_status)
    = process_ulog np_sqrt vehicle_position battery_status.
Proof.
  intros np_sqrt voltage pos bat.
  unfold process_ulog, df_combined. rewrite aligned_with_voltage.
  destruct (aligned pos bat) as [e|merged]; [reflexivity|].
  cbn [bind]. unfold derive. rewrite derive_from_with_voltage.
  unfold positive_delta. rewrite filter_map_comm.
  apply analyse_with_voltage.
Qed.

(* ------------------------------------------------------------------ *)
(** ** Draws of a battery that only discharges *)

Lemma asof_backward_in {A : Type} (right : list (Timed A)) (t : Q) (b : Timed A) :
  asof_backward right t = Some b -> In b right.
Proof.
  revert b. induction right as [|x xs IH]; intros b H; [discriminate|].
  cbn [asof_backward] in H. destruct (at_time x <=? t); [|discriminate].
  destruct (asof_backward xs t) as [b'|].
  - injection H as <-. right. now apply IH.
  - injection H as <-. now left.
Qed.

Lemma asof_forward_in {A : Type} (right : list (Timed A)) (t : Q) (b : Timed A) :
  asof_forward right t = Some b -> In b right.
Proof.
  induction right as [|x xs IH]; intro H; [discriminate|].
  cbn [asof_forward] in H. destruct (at_time x >=? t).
  - injection H as <-. now left.
  - right. now apply IH.
Qed.

Lemma asof_nearest_in {A : Type} (right : list (Timed A)) (t : Q) (b : Timed A) :
  asof_nearest right t = Some b -> In b right.
Proof.
  unfold asof_nearest. intro H.
  destruct (asof_backward right t) as [x|] eqn:Eb;
    destruct (asof_forward right t) as [y|] eqn:Ef; try discriminate.
  - destruct (t - at_time x <=? at_time y - t); injection H as <-;
      [now apply (asof_backward_in right t)|now apply (asof_forward_in right t)].
  - injection H as <-. now apply (asof_backward_in right t).
  - injection H as <-. now apply (asof_forward_in right t).
Qed.

Lemma matched_snd_in {A B : Type} (l : list (A * option B)) (rows : list (A * B)) :
  matched l = Return rows ->
  forall m, In m rows -> In (fst m, Some (snd m)) l.
Proof.
  revert rows. induction l as [|[a [b|]] rest IH]; intros rows H m Hm.
  - injection H as <-. contradiction.
  - cbn [matched] in H. destruct (matched rest) as [e|rs]; [discriminate|].
    cbn [bind] in H. injection H as <-. destruct Hm as [<-|Hm]; [now left|].
    right. now apply (IH rs).
  - discriminate.
Qed.

(** Every row of the merge pairs a motion sample with a battery sample of
    the log. *)
Lemma aligned_battery_in (vehicle_position : list PositionSample)
    (battery_status : list BatterySample)
    (merged : list (Timed PositionSample * Timed BatterySample)) :
  aligned vehicle_position battery_status = Return merged ->
  Forall (fun m => In (sample (snd m)) battery_status) merged.
Proof.
  unfold aligned. intro Ha.
  destruct (time_column p_timestamp vehicle_position) as [e|dfp]; [discriminate|].
  destruct (time_column b_timestamp battery_status) as [e|dfb] eqn:Eb;
    [discriminate|].
  cbn [bind] in Ha. apply Forall_forall. intros m Hm.
  pose proof (matched_snd_in _ _ Ha m Hm) as Hin.
  unfold merge_asof in Hin. apply in_map_iff in Hin.
  destruct Hin as (l & El & _). injection El as _ Hn.
  apply asof_nearest_in in Hn.
  apply (Permutation_in _ (sort_values_perm dfb)) in Hn.
  rewrite <- (time_column_samples b_timestamp battery_status dfb Eb).
  now apply in_map.
Qed.

Lemma derive_from_battery (np_sqrt : Q -> Q) (prev : option Q)
    (l : list (Timed PositionSample * Timed BatterySample)) :
  map battery (derive_from np_sqrt prev l) = map (fun m => sample (snd m)) l.
Proof.
  revert prev. induction l as [|m rest IH]; intro prev; simpl; [reflexivity|].
  now rewrite IH.
Qed.

Lemma df_combined_battery_in (np_sqrt : Q -> Q)
    (vehicle_position : list PositionSample) (battery_status : list BatterySample)
    (df : list Row) :
  df_combined np_sqrt vehicle_position battery_status = Return df ->
  Forall (fun r => In (battery r) battery_status) df.
Proof.
  unfold df_combined. intro H.
  destruct (aligned vehicle_position battery_status) as [e|merged] eqn:Ea;
    [discriminate|].
  cbn [bind] in H. injection H as <-.
  pose proof (aligned_battery_in _ _ _ Ea) as Hin.
  unfold positive_delta. apply Forall_filter.
  apply Forall_forall. intros r Hr.
  assert (Hb : In (battery r) (map battery (derive np_sqrt merged)))
    by now apply in_map.
  unfold derive in Hb. rewrite derive_from_battery in Hb.
  apply in_map_iff in Hb. destruct Hb as (m & <- & Hm).
  rewrite Forall_forall in Hin. now apply Hin.
Qed.

(** X14.  When no current reading of the log is negative, no row and no
    phase record carries a negative draw, and the draws of the phase records
    add up to at most the total draw of the summary record. *)
Theorem phase_draws_bounded :
  forall (np_sqrt : Q -> Q) (vehicle_position : list PositionSample)
         (battery_status : list BatterySample) (df : list Row)
         (report : list ReportRecord),
    Forall (fun b => 0 <= current_a b) battery_status ->
    df_combined np_sqrt vehicle_position battery_status = Return df ->
    process_ulog np_sqrt vehicle_position battery_status = Return report ->
    Forall (fun r => 0 <= mAh r) df
    /\ Forall (fun a => 0 <= TotalDraw a) (phase_records report)
    /\ Qsum (map TotalDraw (phase_records report)) <= total_mAh df
    /\ (forall s, In (SummaryRecord s) report ->
          Qsum (map TotalDraw (phase_records report)) <= Summary_TotalDraw s).
Proof.
  intros np_sqrt pos bat df report Hcur Hdf Hrep.
  pose proof (df_combined_surviving np_sqrt pos bat df Hdf) as Hsurv.
  pose proof (df_combined_battery_in np_sqrt pos bat df Hdf) as Hbat.
  assert (Hrow : Forall (fun r => 0 <= mAh r) df).
  { destruct Hsurv as [_ Hpos]. rewrite Forall_forall in *.
    intros r Hr. specialize (Hpos r Hr). specialize (Hcur _ (Hbat r Hr)).
    unfold mAh, current.
    apply Qle_shift_div_l; [reflexivity|]. rewrite Qmult_0_l.
    apply Qmult_le_0_compat; lra. }
  assert (Hsub : forall f, 0 <= Qsum (map mAh (filter f df))).
  { intro f. apply Qsum_nonneg. rewrite Forall_map. now apply Forall_filter. }
  destruct (process_ulog_inv np_sqrt pos bat report Hrep) as (df' & Hdf' & Han).
  rewrite Hdf in Hdf'. injection Hdf' as <-.
  destruct (analyse_inv df report Han) as (segs & tt & aggs & Hc & Ht & Hg & ->).
  assert (Hne : df <> []).
  { intros ->. discriminate Hc. }
  destruct (iloc_last_total df Hne) as (last & Hl).
  destruct (consolidated_segments df last 1.0 segs Hsurv Hl Hc) as (_ & Hsorted & _).
  apply groupby_agg_inv in Hg. destruct Hg as [_ ->].
  rewrite phase_records_app.
  assert (Hphase : Qsum (map TotalDraw
                     (flat_map (group_records
                        (map (phase_datum df (avg_mAh_per_s_non_ground df) tt) segs))
                        group_keys))
                   == Qsum (map mAh (filter (covered segs) df))).
  { rewrite groupby_total_draw, group_sum_total, map_map.
    cbn [phase_datum d_total_draw]. now apply segment_draws_covered. }
  assert (Hle : Qsum (map TotalDraw
                  (flat_map (group_records
                     (map (phase_datum df (avg_mAh_per_s_non_ground df) tt) segs))
                     group_keys))
                <= total_mAh df).
  { rewrite Hphase. unfold total_mAh.
    rewrite (Qsum_filter_split mAh (covered segs) df).
    pose proof (Hsub (fun r => negb (covered segs r))). lra. }
  split; [exact Hrow|]. split; [|split; [exact Hle|]].
  - apply Forall_forall. intros a Ha. apply in_flat_map in Ha.
    destruct Ha as (p & _ & Ha). apply group_records_in in Ha.
    destruct Ha as [_ ->]. rewrite group_of_map. cbn [agg TotalDraw].
    rewrite map_map. apply Qsum_nonneg. rewrite Forall_map.
    apply Forall_forall. intros seg _. cbn [phase_datum d_total_draw].
    unfold phase_df. apply Hsub.
  - intros s Hs. apply in_app_or in Hs. destruct Hs as [Hs|[Hs|[]]].
    + apply in_map_iff in Hs. destruct Hs as (a & Ea & _). discriminate.
    + injection Hs as <-. exact Hle.
Qed.

Lemma phase_draws_bounded_witness :
  exists df report,
    df_combined sqrt_micro flicker_flight steady_battery = Return df
    /\ process_ulog sqrt_micro flicker_flight steady_battery = Return report
    /\ Qsum (map TotalDraw (phase_records report)) <= total_mAh df.
Proof.
  destruct (df_combined sqrt_micro flicker_flight steady_battery) as [e|df] eqn:Edf;
    [vm_compute in Edf; discriminate|].
  destruct (process_ulog sqrt_micro flicker_flight steady_battery)
    as [e|report] eqn:Er; [vm_compute in Er; discriminate|].
  exists df, report. split; [reflexivity|]. split; [reflexivity|].
  apply (phase_draws_bounded sqrt_micro flicker_flight steady_battery df report);
    [|exact Edf|exact Er].
  repeat constructor; discriminate.
Defined.

(* ------------------------------------------------------------------ *)
(** ** The script's baseline on a flight that never leaves the ground *)

Lemma script_non_ground_df (df : list Row) : Script.non_ground_df df = non_ground df.
Proof.
  unfold Script.non_ground_df, non_ground. apply filter_ext. intro r.
  unfold Script.raw_phase. now rewrite raw_phase_classify.
Qed.

Lemma non_ground_empty (df : list Row) :
  non_ground df = [] <-> Forall (fun r => raw_phase r = Ground) df.
Proof.
  split; [|apply non_ground_all_ground].
  unfold non_ground. induction df as [|r df IH]; [constructor|].
  cbn [filter]. destruct (phase_eqb (raw_phase r) Ground) eqn:E; [|discriminate].
  intro H. apply phase_eqb_eq in E. constructor; [exact E|now apply IH].
Qed.

(** X15.  Where the two files part on a flight without a non-ground row:
    the script stops with IndexError at its baseline, which it takes from the
    first and the last non-ground row, and it does so on no other flight; the
    backend, which sums the rows, goes on with NaN.  With a single non-ground
    row the script divides by a span of zero and its baseline is no finite
    number. *)
Theorem script_baseline_outcomes :
  forall df : list Row,
    (Script.avg_mAh_per_s_non_ground df = Raise IndexError
     <-> Forall (fun r => raw_phase r = Ground) df)
    /\ (Forall (fun r => raw_phase r = Ground) df ->
        avg_mAh_per_s_non_ground df = NaN)
    /\ (forall r, Script.non_ground_df df = [r] ->
          exists v, Script.avg_mAh_per_s_non_ground df = Return v
                    /\ is_finite v = false).
Proof.
  intro df. split; [|split].
  - rewrite <- non_ground_empty, <- script_non_ground_df.
    unfold Script.avg_mAh_per_s_non_ground.
    destruct (Script.non_ground_df df) as [|r rest] eqn:E.
    + split; reflexivity.
    + split; [|discriminate]. intro H.
      destruct (iloc_last_total (r :: rest)) as (x & Hx); [discriminate|].
      rewrite Hx in H. discriminate H.
  - intro H. unfold avg_mAh_per_s_non_ground, total_mAh_non_ground,
      total_time_non_ground.
    now rewrite (non_ground_all_ground df H).
  - intros r E. unfold Script.avg_mAh_per_s_non_ground. rewrite E.
    cbn [iloc_last iloc_first bind]. eexists. split; [reflexivity|].
    unfold fdiv.
    assert (Ez : Qeq_bool (time r - time r) 0 = true)
      by (apply Qeq_bool_iff; ring).
    rewrite Ez. clear Ez.
    match goal with
    | |- context [Qeq_bool ?x 0] => destruct (Qeq_bool x 0); [reflexivity|]
    end.
    unfold inf_signed.
    match goal with
    | |- context [0 <? ?x] => destruct (0 <? x); reflexivity
    end.
Qed.
